(** * SocialMediaBundler: media acquisition and composition pipeline

    A shallow embedding of the backend services
    ([twitchClipDownloaderService.js], [ytdlpDownloader.js],
    [videoService.js]) and of the two queue workers
    ([compilationRoutes.js], [editorRoutes.js]), followed by the
    properties of the pipeline that the specification states.

    External programs (yt-dlp, ffmpeg, ffprobe), the uuid generator and
    the clock are not part of the repository: their answers are read from
    an [Oracle], and every theorem quantifies over all oracles. *)

From Stdlib Require Import ZArith Ascii PrimFloat SpecFloat FloatOps Uint63 Sorted.
From stdpp Require Import gmap strings list pretty.

Open Scope string_scope.
Open Scope list_scope.
Set Warnings "-inexact-float".

(* ================================================================== *)
(** * JavaScript values and library functions used by the services *)
(* ================================================================== *)

Module Js.

(** A value that may be [undefined]. Truthiness of an optional string:
    [undefined] and the empty string are falsy. *)
Definition truthy (v : option string) : bool :=
  match v with
  | Some s => negb (String.eqb s "")
  | None => false
  end.

(** Truthiness of an optional object: every object is truthy. *)
Definition defined {A} (v : option A) : bool :=
  match v with
  | Some _ => true
  | None => false
  end.

(** [v || d] for an optional string [v]. *)
Definition or_else (v : option string) (d : string) : string :=
  match v with
  | Some s => if String.eqb s "" then d else s
  | None => d
  end.

(** [v !== false] for an optional boolean. *)
Definition not_false (v : option bool) : bool :=
  match v with
  | Some false => false
  | _ => true
  end.

(** The values [Math.floor] can return: an integer, [NaN] or an
    infinity. *)
Inductive number :=
| Int (z : Z)
| NaN
| Infinity (negative : bool).

#[global] Instance number_eq_dec : EqDecision number.
Proof. solve_decision. Defined.

(** An integer as a binary64 number (exact below 2^53). *)
Definition of_Z (z : Z) : float :=
  match z with
  | Z0 => PrimFloat.zero
  | Zpos _ => PrimFloat.of_uint63 (Uint63.of_Z z)
  | Zneg p => PrimFloat.opp (PrimFloat.of_uint63 (Uint63.of_Z (Zpos p)))
  end.

(** [Math.floor] on binary64. *)
Definition Math_floor (f : float) : number :=
  match Prim2SF f with
  | S754_zero _ => Int 0
  | S754_finite s m e =>
      let sm := if s then Zneg m else Zpos m in
      Int (match e with
           | Z0 => sm
           | Zpos p => sm * 2 ^ Zpos p
           | Zneg p => sm / 2 ^ Zpos p
           end)%Z
  | S754_infinity s => Infinity s
  | S754_nan => NaN
  end.

(** Arithmetic on floored values, as JS computes it on doubles. *)
Definition to_float (n : number) : float :=
  match n with
  | Int z => of_Z z
  | NaN => PrimFloat.nan
  | Infinity false => PrimFloat.infinity
  | Infinity true => PrimFloat.neg_infinity
  end.

(** Template-literal rendering [`${n}`] of such a value. *)
Definition to_string (n : number) : string :=
  match n with
  | Int z => pretty z
  | NaN => "NaN"
  | Infinity false => "Infinity"
  | Infinity true => "-Infinity"
  end.

(** [String.prototype.includes]. *)
Fixpoint includes (needle hay : string) : bool :=
  String.prefix needle hay ||
  match hay with
  | EmptyString => false
  | String _ rest => includes needle rest
  end.

(** [s.replace(pattern, replacement)] with a string pattern: the first
    occurrence only. *)
Fixpoint replace (pattern replacement s : string) : string :=
  if String.prefix pattern s
  then replacement +:+ String.substring (String.length pattern)
                         (String.length s - String.length pattern) s
  else match s with
       | EmptyString => EmptyString
       | String c rest => String c (replace pattern replacement rest)
       end.

(** A [switch] over string cases with a [default] branch. *)
Fixpoint switch {A} (s : string) (cases : list (string * A)) (default : A) : A :=
  match cases with
  | [] => default
  | (c, v) :: rest => if String.eqb s c then v else switch s rest default
  end.

(** [path.join(dir, name)] for a directory and a plain file name. *)
Definition path_join (dir name : string) : string := dir +:+ "/" +:+ name.

(** [path.basename]: the text after the last separator. *)
Fixpoint basename_from (acc s : string) : string :=
  match s with
  | EmptyString => acc
  | String c rest =>
      if Ascii.eqb c "/"%char then basename_from "" rest
      else basename_from (acc +:+ String c "") rest
  end.
Definition path_basename (p : string) : string := basename_from "" p.

(** [path.extname]: from the last dot of the base name on; a leading
    dot does not start an extension. *)
Fixpoint from_last_dot (s : string) : option string :=
  match s with
  | EmptyString => None
  | String c rest =>
      match from_last_dot rest with
      | Some e => Some e
      | None => if Ascii.eqb c "."%char then Some (String c rest) else None
      end
  end.
Definition path_extname (p : string) : string :=
  match path_basename p with
  | EmptyString => ""
  | String _ rest => default "" (from_last_dot rest)
  end.

(** [String.prototype.toLowerCase] on ASCII text. *)
Definition lower (c : ascii) : ascii :=
  let n := nat_of_ascii c in
  if (65 <=? n)%nat && (n <=? 90)%nat then ascii_of_nat (n + 32) else c.
Fixpoint toLowerCase (s : string) : string :=
  match s with
  | EmptyString => EmptyString
  | String c rest => String (lower c) (toLowerCase rest)
  end.

End Js.

Coercion Js.Int : Z >-> Js.number.

(* ================================================================== *)
(** * Promises: results, exceptions and threaded state *)
(* ================================================================== *)

(** The outcome of an awaited promise or of a [try] block: a value, a
    thrown [Error] identified by its message, or an exception raised
    inside a plain callback, outside every promise chain and every
    [try]: nothing catches it and the Node process ends. *)
Inductive Res (A : Type) :=
| Ok (a : A)
| Throw (e : string)
| Uncaught (e : string).
Arguments Ok {A} a.
Arguments Throw {A} e.
Arguments Uncaught {A} e.

(** What an external program or library call answers: a value or an
    error message. *)
Inductive Answer (A : Type) :=
| answer (a : A)
| error (message : string).
Arguments answer {A} a.
Arguments error {A} message.

(** Computations over a state [S] that may throw. The state survives a
    throw, as the file system and local variables do in JS. *)
Definition M (S A : Type) : Type := S → Res A * S.

#[export] Instance M_ret {S} : MRet (M S) := λ A a s, (Ok a, s).
#[export] Instance M_bind {S} : MBind (M S) := λ A B f m s,
  match m s with
  | (Ok a, s') => f a s'
  | (Throw e, s') => (Throw e, s')
  | (Uncaught e, s') => (Uncaught e, s')
  end.

Definition throw {S A} (e : string) : M S A := λ s, (Throw e, s).
Definition uncaught {S A} (e : string) : M S A := λ s, (Uncaught e, s).

(** [try { body } catch (error) { handler(error) }]. *)
Definition try_catch {S A} (body : M S A) (handler : string → M S A) : M S A :=
  λ s, match body s with
       | (Ok a, s') => (Ok a, s')
       | (Throw e, s') => handler e s'
       | (Uncaught e, s') => (Uncaught e, s')
       end.

Definition get {S} : M S S := λ s, (Ok s, s).
Definition modify {S} (f : S → S) : M S unit := λ s, (Ok tt, f s).

(** Run a computation on a component of a larger state. *)
Definition zoom {S T A} (proj : T → S) (inj : S → T → T) (m : M S A) : M T A :=
  λ t, let '(r, s') := m (proj t) in (r, inj s' t).

(** The settled state of a promise, as [Promise.allSettled] reports it. *)
Inductive Settled (A : Type) :=
| fulfilled (value : A)
| rejected (reason : string).
Arguments fulfilled {A} value.
Arguments rejected {A} reason.

Definition settle {S A} (m : M S A) : M S (Settled A) :=
  λ s, match m s with
       | (Ok a, s') => (Ok (fulfilled a), s')
       | (Throw e, s') => (Ok (rejected e), s')
       | (Uncaught e, s') => (Uncaught e, s')
       end.

(** [downloadResults.filter(r => r.status === 'fulfilled').map(r => r.value)] *)
Definition fulfilled_values {A} (rs : list (Settled A)) : list A :=
  omap (λ r, match r with fulfilled v => Some v | rejected _ => None end) rs.

(** [Promise.allSettled(xs.map(async (x, index) => f(x, index)))]: every
    promise is run to its settlement; the results keep the order of [xs].
    The promises touch pairwise distinct files, so they are run here in
    index order. *)
Fixpoint allSettled_from {St A B} (f : A → nat → M St B) (index : nat) (xs : list A)
  : M St (list (Settled B)) :=
  match xs with
  | [] => mret []
  | x :: rest =>
      r ← settle (f x index);
      rs ← allSettled_from f (S index) rest;
      mret (r :: rs)
  end.
Definition allSettled_map {St A B} (f : A → nat → M St B) (xs : list A)
  : M St (list (Settled B)) := allSettled_from f 0 xs.

(* ================================================================== *)
(** * twitchClipDownloaderService.js *)
(* ================================================================== *)

Module TwitchClipDownloader.

(** One entry of [clip.videoQualities] in the GraphQL answer. *)
Record VideoQuality := {
  sourceURL : string;
  quality : string;
}.

(** [qualities.find(q => q.quality === label)] *)
Definition find_quality (label : string) (qualities : list VideoQuality)
  : option VideoQuality :=
  List.find (λ q, String.eqb (quality q) label) qualities.

(** [find('1080') || find('720') || qualities[0]] *)
Definition bestQuality (qualities : list VideoQuality) : option VideoQuality :=
  match find_quality "1080" qualities with
  | Some q => Some q
  | None =>
      match find_quality "720" qualities with
      | Some q => Some q
      | None => head qualities
      end
  end.

(** The first [try] block of [getClipVideoUrl]. [response] is the
    outcome of the POST; its value is
    [data?.data?.clip?.videoQualities], [None] when any link of that
    chain is missing. [None] as a result means that the block returned
    nothing and the next strategy runs. *)
Definition gqlStrategy (response : Answer (option (list VideoQuality))) : option string :=
  match response with
  | answer (Some qualities) =>
      if (0 <? length qualities)%nat
      then sourceURL <$> bestQuality qualities
      else None
  | answer None => None
  | error _ => None
  end.

(** What the page fetch yields: the first [https://...mp4] match, and
    the sources of [window.__clipData.quality_options] when that blob
    is present and parses ([error] when [JSON.parse] fails,
    [answer None] when the field is absent). *)
Record ClipPage := {
  videoUrlMatch : option string;
  clipDataMatch : option (Answer (option (list string)));
}.

(** The second [try] block of [getClipVideoUrl]. *)
Definition pageStrategy (response : Answer ClipPage) : option string :=
  match response with
  | answer page =>
      match videoUrlMatch page with
      | Some url => Some url
      | None =>
          match clipDataMatch page with
          | Some (answer (Some quality_options)) => head quality_options
          | _ => None
          end
      end
  | error _ => None
  end.

Definition getClipVideoUrl (clipId : string)
    (gql : Answer (option (list VideoQuality))) (page : Answer ClipPage) : Res string :=
  match gqlStrategy gql with
  | Some url => Ok url
  | None =>
      match pageStrategy page with
      | Some url => Ok url
      | None => Throw ("Could not extract video URL for clip " +:+ clipId)
      end
  end.

End TwitchClipDownloader.

(* ================================================================== *)
(** * ffmpeg commands: filter graphs as the services write them *)
(* ================================================================== *)

Module Ffmpeg.

(** A stream specifier or link label: [[i:v]], [[i:a]] or [[name]]. *)
Inductive Pad :=
| in_v (i : nat)
| in_a (i : nat)
| label (name : string).

(** Size expressions evaluated by ffmpeg inside a quoted [crop]. *)
Inductive SizeExpr :=
| iw
| ih
| min_ (a b : SizeExpr)
| muldiv (a : SizeExpr) (n d : Z).

Inductive Aspect := decrease | increase.

(** The filters the services use, with the arguments they pass. *)
Inductive Filter :=
| color (c : string) (w h : Js.number)
| scale (w h : Js.number) (force_original_aspect_ratio : option Aspect)
| crop (w h : Js.number) (xy : option (Js.number * Js.number))
| crop_expr (w h : SizeExpr)
| drawbox_frame (colour : string) (t : Z)
| overlay (x y : Js.number) (shortest : bool)
| vstack (inputs : nat)
| format (pix_fmt : string)
| geq (lum a : string)
| pad_center (w h : Js.number)
| setsar (r : Z)
| fps (rate : string)
| aevalsrc (expr : Z) (d : string)
| concat (n v a : nat).

#[global] Instance Pad_eq_dec : EqDecision Pad.
Proof. solve_decision. Defined.
#[global] Instance SizeExpr_eq_dec : EqDecision SizeExpr.
Proof. solve_decision. Defined.
#[global] Instance Aspect_eq_dec : EqDecision Aspect.
Proof. solve_decision. Defined.
#[global] Instance Filter_eq_dec : EqDecision Filter.
Proof. solve_decision. Defined.

(** One filter chain: input pads, filters joined by commas, output
    labels. *)
Record Chain := {
  chain_in : list Pad;
  chain_filters : list Filter;
  chain_out : list string;
}.

(** A filter graph: chains joined by semicolons. *)
Definition Graph := list Chain.

Inductive OutputOption :=
| map_ (p : Pad) (optional : bool)
| opt (key value : string).

(** [ffmpeg().input(..)...complexFilter(..).outputOptions(..).save(..)] *)
Record Command := {
  inputs : list string;
  complexFilter : Graph;
  outputOptions : list OutputOption;
  save : string;
}.

(** ** The text handed to the ffmpeg executable *)

Definition render_pad (p : Pad) : string :=
  match p with
  | in_v i => "[" +:+ pretty i +:+ ":v]"
  | in_a i => "[" +:+ pretty i +:+ ":a]"
  | label name => "[" +:+ name +:+ "]"
  end.

Fixpoint render_expr (e : SizeExpr) : string :=
  match e with
  | iw => "iw"
  | ih => "ih"
  | min_ a b => "min(" +:+ render_expr a +:+ "," +:+ render_expr b +:+ ")"
  | muldiv a n d => render_expr a +:+ "*" +:+ pretty n +:+ "/" +:+ pretty d
  end.

Definition render_aspect (a : Aspect) : string :=
  match a with
  | decrease => "decrease"
  | increase => "increase"
  end.

Definition render_filter (f : Filter) : string :=
  match f with
  | color c w h =>
      "color=c=" +:+ c +:+ ":s=" +:+ Js.to_string w +:+ "x" +:+ Js.to_string h
  | scale w h None => "scale=" +:+ Js.to_string w +:+ ":" +:+ Js.to_string h
  | scale w h (Some a) =>
      "scale=" +:+ Js.to_string w +:+ ":" +:+ Js.to_string h
      +:+ ":force_original_aspect_ratio=" +:+ render_aspect a
  | crop w h None => "crop=" +:+ Js.to_string w +:+ ":" +:+ Js.to_string h
  | crop w h (Some (x, y)) =>
      "crop=" +:+ Js.to_string w +:+ ":" +:+ Js.to_string h
      +:+ ":" +:+ Js.to_string x +:+ ":" +:+ Js.to_string y
  | crop_expr w h => "crop='" +:+ render_expr w +:+ ":" +:+ render_expr h +:+ "'"
  | drawbox_frame colour t =>
      "drawbox=x=0:y=0:w=iw:h=ih:color=" +:+ colour +:+ ":t=" +:+ pretty t
  | overlay x y shortest =>
      "overlay=" +:+ Js.to_string x +:+ ":" +:+ Js.to_string y
      +:+ (if shortest then ":shortest=1" else "")
  | vstack n => "vstack=inputs=" +:+ pretty n
  | format pix_fmt => "format=" +:+ pix_fmt
  | geq lum a => "geq=lum='" +:+ lum +:+ "':a='" +:+ a +:+ "'"
  | pad_center w h =>
      "pad=" +:+ Js.to_string w +:+ ":" +:+ Js.to_string h +:+ ":(ow-iw)/2:(oh-ih)/2"
  | setsar r => "setsar=" +:+ pretty r
  | fps rate => "fps=" +:+ rate
  | aevalsrc expr d => "aevalsrc=" +:+ pretty expr +:+ ":d=" +:+ d
  | concat n v a =>
      "concat=n=" +:+ pretty n +:+ ":v=" +:+ pretty v +:+ ":a=" +:+ pretty a
  end.

(** [Array.prototype.join]. *)
Fixpoint join (sep : string) (parts : list string) : string :=
  match parts with
  | [] => ""
  | [p] => p
  | p :: rest => p +:+ sep +:+ join sep rest
  end.

Definition render_chain (c : Chain) : string :=
  join "" (render_pad <$> chain_in c)
  +:+ join "," (render_filter <$> chain_filters c)
  +:+ join "" ((λ l, render_pad (label l)) <$> chain_out c).

Definition render_graph (g : Graph) : string := join ";" (render_chain <$> g).

Definition render_option (o : OutputOption) : list string :=
  match o with
  | map_ (label name) _ => ["-map"; "[" +:+ name +:+ "]"]
  | map_ (in_v i) optional => ["-map"; pretty i +:+ ":v" +:+ (if optional then "?" else "")]
  | map_ (in_a i) optional => ["-map"; pretty i +:+ ":a" +:+ (if optional then "?" else "")]
  | opt key value => [key; value]
  end.

(** ** What the engine makes of a graph: stream kinds and frame sizes *)

(** A stream is a video of some frame size, or an audio track. *)
Inductive Stream :=
| Video (w h : Z)
| Audio.

#[global] Instance Stream_eq_dec : EqDecision Stream.
Proof. solve_decision. Defined.

(** What ffprobe sees in an input file. *)
Record InputFile := {
  in_video : option (Z * Z);
  in_audio : bool;
}.

Definition dim (n : Js.number) : option Z :=
  match n with
  | Js.Int z => Some z
  | _ => None
  end.

(** The value of a size expression: a fraction, kept as numerator and
    denominator (the services divide by positive constants only). *)
Fixpoint eval_expr (e : SizeExpr) (in_w in_h : Z) : Z * Z :=
  match e with
  | iw => (in_w, 1%Z)
  | ih => (in_h, 1%Z)
  | min_ a b =>
      let '(n1, d1) := eval_expr a in_w in_h in
      let '(n2, d2) := eval_expr b in_w in_h in
      if bool_decide (n1 * d2 ≤ n2 * d1)%Z then (n1, d1) else (n2, d2)
  | muldiv a n d =>
      let '(n1, d1) := eval_expr a in_w in_h in (n1 * n, d1 * d)%Z
  end.

(** [lrint]: the nearest integer, a tie going to the even one. [crop]
    rounds the value of its size expressions this way. *)
Definition lrint (q : Z * Z) : Z :=
  let '(n, d) := q in
  let below := (n / d)%Z in
  let rest := (n mod d)%Z in
  if bool_decide (2 * rest < d)%Z then below
  else if bool_decide (d < 2 * rest)%Z then (below + 1)%Z
  else if Z.even below then below else (below + 1)%Z.

(** [av_rescale(a, b, c)]: a*b/c rounded to nearest. *)
Definition av_rescale (a b c : Z) : Z := (2 * a * b + c) / (2 * c).

(** The size [scale=w:h:force_original_aspect_ratio=..] produces: the
    requested box, shrunk ([decrease]) or grown ([increase]) along one
    axis to keep the input's aspect ratio. *)
Definition scale_size (a : Aspect) (w h in_w in_h : Z) : Z * Z :=
  let tmp_w := av_rescale h in_w in_h in
  let tmp_h := av_rescale w in_h in_w in
  match a with
  | decrease => (Z.min tmp_w w, Z.min tmp_h h)
  | increase => (Z.max tmp_w w, Z.max tmp_h h)
  end.

(** Split the inputs of [concat] into its segments. *)
Fixpoint segments (fuel size : nat) (l : list Stream) : list (list Stream) :=
  match fuel with
  | O => []
  | S fuel' => take size l :: segments fuel' size (drop size l)
  end.

Definition is_video (s : Stream) : bool :=
  match s with Video _ _ => true | Audio => false end.
Definition is_audio (s : Stream) : bool :=
  match s with Audio => true | Video _ _ => false end.

(** A segment of [concat=n:v:a] is [v] video streams followed by [a]
    audio streams. *)
Definition segment_ok (v a : nat) (seg : list Stream) : bool :=
  bool_decide (length seg = (v + a)%nat)
  && forallb is_video (take v seg) && forallb is_audio (drop v seg).

(** A video stream of the given size; no stream has an empty frame. *)
Definition sized (w h : Z) : option (list Stream) :=
  if bool_decide (0 < w ∧ 0 < h)%Z then Some [Video w h] else None.

(** [crop] refuses a size that is empty or larger than its input (it
    moves an offset that would put the window outside the frame). *)
Definition cropped (w h in_w in_h : Z) : option (list Stream) :=
  if bool_decide (w ≤ in_w ∧ h ≤ in_h)%Z then sized w h else None.

(** [pad] refuses a size smaller than its input. *)
Definition padded (w h in_w in_h : Z) : option (list Stream) :=
  if bool_decide (in_w ≤ w ∧ in_h ≤ h)%Z then sized w h else None.

(** The streams a filter produces from the streams on its input pads;
    [None] when the engine refuses the graph: wrong number or kind of
    inputs, mismatched sizes, an empty frame, a crop larger or a pad
    smaller than its input. The services pass [scale] positive sizes;
    the special meanings of zero and negative ones are not modelled.
    Frame sizes are exact: the rounding of a crop to the chroma grid
    of a subsampled pixel format is left out. *)
Definition apply_filter (f : Filter) (ins : list Stream) : option (list Stream) :=
  match f, ins with
  | color _ w h, [] => w' ← dim w; h' ← dim h; sized w' h'
  | scale w h None, [Video _ _] => w' ← dim w; h' ← dim h; sized w' h'
  | scale w h (Some a), [Video in_w in_h] =>
      w' ← dim w; h' ← dim h; _ ← sized w' h';
      let '(ow, oh) := scale_size a w' h' in_w in_h in sized ow oh
  | crop w h _, [Video in_w in_h] => w' ← dim w; h' ← dim h; cropped w' h' in_w in_h
  | crop_expr w h, [Video in_w in_h] =>
      cropped (lrint (eval_expr w in_w in_h)) (lrint (eval_expr h in_w in_h)) in_w in_h
  | drawbox_frame _ _, [Video w h] => Some [Video w h]
  | overlay _ _ _, [Video w h; Video _ _] => Some [Video w h]
  | vstack 2, [Video w1 h1; Video w2 h2] =>
      if bool_decide (w1 = w2) then Some [Video w1 (h1 + h2)] else None
  | format _, [Video w h] => Some [Video w h]
  | geq _ _, [Video w h] => Some [Video w h]
  | pad_center w h, [Video in_w in_h] => w' ← dim w; h' ← dim h; padded w' h' in_w in_h
  | setsar _, [Video w h] => Some [Video w h]
  | fps _, [Video w h] => Some [Video w h]
  | aevalsrc _ _, [] => Some [Audio]
  | concat n v a, _ =>
      let segs := segments n (v + a) ins in
      if bool_decide (length ins = (n * (v + a))%nat)
         && forallb (segment_ok v a) segs
         && forallb (λ seg, bool_decide (seg = default [] (head segs))) segs
      then Some (default [] (head segs))
      else None
  | _, _ => None
  end.

Definition lookup_pad (files : list InputFile) (env : gmap string Stream) (p : Pad)
  : option Stream :=
  match p with
  | in_v i => f ← files !! i; '(w, h) ← in_video f; Some (Video w h)
  | in_a i => f ← files !! i; if in_audio f then Some Audio else None
  | label name => env !! name
  end.

Fixpoint apply_filters (fs : list Filter) (ins : list Stream) : option (list Stream) :=
  match fs with
  | [] => Some ins
  | f :: rest => outs ← apply_filter f ins; apply_filters rest outs
  end.

Fixpoint bind_labels (names : list string) (streams : list Stream)
    (env : gmap string Stream) : option (gmap string Stream) :=
  match names, streams with
  | [], [] => Some env
  | name :: names', s :: streams' => bind_labels names' streams' (<[name := s]> env)
  | _, _ => None
  end.

Definition run_chain (files : list InputFile) (env : gmap string Stream) (c : Chain)
  : option (gmap string Stream) :=
  ins ← mapM (lookup_pad files env) (chain_in c);
  outs ← apply_filters (chain_filters c) ins;
  bind_labels (chain_out c) outs env.

Fixpoint run_graph (files : list InputFile) (env : gmap string Stream) (g : Graph)
  : option (gmap string Stream) :=
  match g with
  | [] => Some env
  | c :: rest => env' ← run_chain files env c; run_graph files env' rest
  end.

(** The streams of the output file: one per [-map], in order; an
    optional map ([0:a?]) of a missing stream is skipped. *)
Fixpoint mapped (files : list InputFile) (env : gmap string Stream)
    (opts : list OutputOption) : option (list Stream) :=
  match opts with
  | [] => Some []
  | map_ p optional :: rest =>
      tail ← mapped files env rest;
      match lookup_pad files env p with
      | Some s => Some (s :: tail)
      | None => if optional then Some tail else None
      end
  | opt _ _ :: rest => mapped files env rest
  end.

Definition output_streams (files : list InputFile) (c : Command) : option (list Stream) :=
  env ← run_graph files ∅ (complexFilter c);
  mapped files env (outputOptions c).

Definition count_video (l : list Stream) : nat := length (filter (λ s, is_video s = true) l).
Definition count_audio (l : list Stream) : nat := length (filter (λ s, is_audio s = true) l).

(** The frame size of the output file when it has exactly one video
    stream. *)
Definition output_resolution (files : list InputFile) (c : Command) : option (Z * Z) :=
  streams ← output_streams files c;
  match filter (λ s, is_video s = true) streams with
  | [Video w h] => Some (w, h)
  | _ => None
  end.

End Ffmpeg.

(* ================================================================== *)
(** * The world outside the services *)
(* ================================================================== *)

Module Sys.

(** One entry of [metadata.streams] as ffprobe reports it. *)
Record StreamInfo := {
  codec_type : string;
  width : Z;
  height : Z;
  r_frame_rate : string;
  duration : string;
}.

Record Metadata := { streams : list StreamInfo }.

(** [metadata.streams.find(s => s.codec_type === kind)] *)
Definition find_stream (kind : string) (m : Metadata) : option StreamInfo :=
  List.find (λ s, String.eqb (codec_type s) kind) (streams m).

(** How a run of [yt-dlp ... -o outputPath clipUrl] ends: with an
    error (message and stderr text), or with exit status 0, having
    written the output file or not. *)
Inductive YtdlpRun :=
| ytdlp_error (message stderr : string)
| ytdlp_exit0 (written : bool).

(** How the web-compatibility re-encode [ffmpeg -i filePath ... -y
    tempPath] ends. [written] tells whether [tempPath] exists
    afterwards. *)
Inductive RecodeRun :=
| recode_error (message : string) (written : bool)
| recode_exit0 (written : bool).

(** How a fluent-ffmpeg command ends: the [end] event, or the [error]
    event with its message; [written] tells whether a (partial) output
    file is left behind. *)
Inductive FfmpegRun :=
| ffmpeg_end
| ffmpeg_error (message : string) (written : bool).

(** Everything the services ask of their surroundings. *)
Record Oracle := {
  tempDir : string;
  outputDir : string;
  outroDir : string;
  uuidv4 : string;
  Date_now : nat → Z;
  ytdlp_version : bool;
  ytdlp : string → string → YtdlpRun;
  recode : string → string → RecodeRun;
  ffprobe : string → Answer Metadata;
  ffmpeg : Ffmpeg.Command → FfmpegRun;
  screenshots : string → string → string → FfmpegRun;
  eval_rate : string → Answer string;
  readdir : string → Answer (list string);
  thumbnail_slug : string → option string;
  unlink_error : string → option string;
}.

(** The calls that leave the process, the progress updates sent to
    the queue and the step announcements [createCompilation] writes
    with [console.log], in the order they are made. *)
Inductive Call :=
| console_log (message : string)
| call_ytdlp (clipUrl outputPath : string)
| call_recode (filePath tempPath : string)
| call_ffprobe (path : string)
| call_ffmpeg (c : Ffmpeg.Command)
| call_screenshots (videoPath filename timestamp : string)
| call_unlink (path : string)
| call_progress (percent : Z).

(** The file system (the set of paths that exist), the calls made so
    far and the number of clock readings taken. *)
Record World := {
  files : gset string;
  calls : list Call;
  ticks : nat;
}.

Definition log (c : Call) : M World unit :=
  modify (λ w, {| files := files w; calls := calls w ++ [c]; ticks := ticks w |}).

Definition write_file (p : string) : M World unit :=
  modify (λ w, {| files := {[p]} ∪ files w; calls := calls w; ticks := ticks w |}).

Definition remove_file (p : string) : M World unit :=
  modify (λ w, {| files := files w ∖ {[p]}; calls := calls w; ticks := ticks w |}).

Definition write_if (written : bool) (p : string) : M World unit :=
  if written then write_file p else mret tt.

(** [fs.existsSync] *)
Definition existsSync (p : string) : M World bool :=
  w ← get; mret (bool_decide (p ∈ files w)).

(** [fs.unlinkSync] and [fs.promises.unlink]: fail on a missing file,
    and on a file the system refuses to remove (no permission, file in
    use), with the error [unlink_error] gives. *)
Definition unlinkSync (o : Oracle) (p : string) : M World unit :=
  present ← existsSync p;
  if present : bool then
    match unlink_error o p with
    | None => remove_file p
    | Some e => throw e
    end
  else throw ("ENOENT: no such file or directory, unlink '" +:+ p +:+ "'").

Definition unlink (o : Oracle) (p : string) : M World unit :=
  log (call_unlink p);; unlinkSync o p.

(** [fs.renameSync] *)
Definition renameSync (from to : string) : M World unit :=
  present ← existsSync from;
  if present : bool then remove_file from;; write_file to
  else throw ("ENOENT: no such file or directory, rename '" +:+ from +:+ "'").

(** [Date.now()] *)
Definition now (o : Oracle) : M World Z :=
  w ← get;
  modify (λ w, {| files := files w; calls := calls w; ticks := S (ticks w) |});;
  mret (Date_now o (ticks w)).

(** [ffmpeg.ffprobe(path, callback)] *)
Definition getVideoMetadata (o : Oracle) (path : string) : M World Metadata :=
  log (call_ffprobe path);;
  match ffprobe o path with
  | answer m => mret m
  | error e => throw e
  end.

(** Running a fluent-ffmpeg command to its [end] or [error] event. *)
Definition run (o : Oracle) (c : Ffmpeg.Command) : M World string :=
  log (call_ffmpeg c);;
  match ffmpeg o c with
  | ffmpeg_end => write_file (Ffmpeg.save c);; mret (Ffmpeg.save c)
  | ffmpeg_error message written => write_if written (Ffmpeg.save c);; throw message
  end.

End Sys.

(* ================================================================== *)
(** * ytdlpDownloader.js *)
(* ================================================================== *)

Module YtdlpDownloader.
Import Sys.

(** [ensureWebCompatible(filePath)]: re-encode next to the file, then
    replace the original by the re-encoded file. *)
Definition ensureWebCompatible (o : Oracle) (filePath : string) : M World unit :=
  let tempPath := Js.replace ".mp4" "_temp.mp4" filePath in
  log (call_recode filePath tempPath);;
  match recode o filePath tempPath with
  | recode_error message written => write_if written tempPath;; throw message
  | recode_exit0 written =>
      write_if written tempPath;;
      try_catch
        (present ← existsSync tempPath;
         if present : bool
         then unlinkSync o filePath;; renameSync tempPath filePath
         else throw "Post-processed file not found")
        (λ err, throw err)
  end.

(** [downloadClip(clipId, outputPath)] *)
Definition downloadClip (o : Oracle) (clipId outputPath : string) : M World string :=
  let clipUrl := "https://clips.twitch.tv/" +:+ clipId in
  log (call_ytdlp clipUrl outputPath);;
  match ytdlp o clipUrl outputPath with
  | ytdlp_error message stderr =>
      if Js.includes "Unable to download" stderr
      then throw "Unable to download clip. The clip may be unavailable or private."
      else if Js.includes "HTTP Error 404" stderr
      then throw "Clip not found. Please check the clip URL."
      else if Js.includes "403" stderr
      then throw "Access forbidden. The clip may be private or geo-restricted."
      else throw ("Failed to download clip: " +:+ Js.or_else (Some stderr) message)
  | ytdlp_exit0 written =>
      write_if written outputPath;;
      present ← existsSync outputPath;
      if present : bool
      then try_catch (ensureWebCompatible o outputPath) (λ _, mret tt);;
           mret outputPath
      else throw "Download completed but file not found. Check yt-dlp output above."
  end.

(** [checkInstallation()]: whether [yt-dlp --version] runs. *)
Definition checkInstallation (o : Oracle) : M World bool := mret (ytdlp_version o).

End YtdlpDownloader.

(* ================================================================== *)
(** * videoService.js *)
(* ================================================================== *)

(** The camera rectangle sent by the editor, in source pixels. *)
Module CamRegion.
Record t := {
  x : Z;
  y : Z;
  width : Z;
  height : Z;
}.
End CamRegion.

(** A clip as the routes pass it around. *)
Module Clip.
Record t := {
  id : string;
  url : option string;
  thumbnail_url : option string;
  fallbackUrl : option string;
}.
End Clip.

(** The options stored with a compilation job. *)
Module JobOptions.
Record t := {
  convertToVertical : bool;
  cameraPosition : option string;
  addOutro : bool;
  outroPath : option string;
}.
End JobOptions.

Module JobMetadata.
Record t := {
  title : option string;
  createdAt : Z;
}.
End JobMetadata.

(** The object a worker returns. A field of a JS object may be absent. *)
Module CompilationResult.
Record t := {
  success : bool;
  compilationId : option string;
  videoPath : string;
  thumbnailPath : option string;
  filename : string;
  title : option string;
  metadata : option JobMetadata.t;
}.
End CompilationResult.

Module VideoService.
Import Sys Ffmpeg.
Local Open Scope Z_scope.

(** Target dimensions for vertical video (9:16). *)
Definition targetWidth : Z := 1080.
Definition targetHeight : Z := 1920.

(** [Math.floor(n * ratio)] for the constant sizes of the layouts. *)
Definition floor_Z (f : float) : Z :=
  match Js.Math_floor f with
  | Js.Int z => z
  | _ => 0
  end.

Definition encoding : list OutputOption :=
  [opt "-c:v" "libx264"; opt "-c:a" "aac"; opt "-preset" "fast"; opt "-crf" "23"].

(** ** mergeClips *)

Definition mergeClips_command (outputPath : string) (clipPaths : list string) : Command :=
  {| inputs := clipPaths;
     complexFilter :=
       [ {| chain_in := flat_map (λ index, [in_v index; in_a index])
                                 (seq 0 (length clipPaths));
            chain_filters := [concat (length clipPaths) 1 1];
            chain_out := ["outv"; "outa"] |} ];
     outputOptions := map_ (label "outv") false :: map_ (label "outa") false :: encoding;
     save := outputPath |}.

Definition mergeClips (o : Oracle) (clipPaths : list string) (outputFilename : string)
  : M World string :=
  let outputPath := Js.path_join (outputDir o) outputFilename in
  run o (mergeClips_command outputPath clipPaths).

(** ** convertToVertical: the layout without a camera region *)

Definition convertToVertical_filter (inputWidth inputHeight : Z) (cameraPosition : string)
  : Graph :=
  let gameplayHeight := floor_Z (Js.of_Z targetHeight * 0.5)%float in
  let gameplayWidth :=
    Js.Math_floor (Js.of_Z gameplayHeight * (Js.of_Z inputWidth / Js.of_Z inputHeight))%float in
  let gameplayX :=
    Js.Math_floor ((Js.of_Z targetWidth - Js.to_float gameplayWidth) / 2)%float in
  let gameplayY :=
    Js.switch cameraPosition [("top", targetHeight - gameplayHeight)] 0 in
  [ {| chain_in := [];
       chain_filters := [color "black" targetWidth targetHeight];
       chain_out := ["bg"] |};
    {| chain_in := [in_v 0];
       chain_filters := [scale gameplayWidth gameplayHeight (Some decrease)];
       chain_out := ["scaled"] |};
    {| chain_in := [label "bg"; label "scaled"];
       chain_filters := [overlay gameplayX gameplayY true];
       chain_out := ["final"] |} ].

Definition convertToVertical (o : Oracle) (inputPath outputFilename : string)
    (cameraPosition : option string) : M World string :=
  let outputPath := Js.path_join (outputDir o) outputFilename in
  let cameraPosition := default "bottom" cameraPosition in
  metadata ← getVideoMetadata o inputPath;
  match find_stream "video" metadata with
  | None =>
      (* thrown in the ffprobe callback, outside the promise *)
      uncaught "TypeError: Cannot read properties of undefined (reading 'width')"
  | Some videoStream =>
      run o {| inputs := [inputPath];
               complexFilter :=
                 convertToVertical_filter (width videoStream) (height videoStream)
                                          cameraPosition;
               outputOptions :=
                 map_ (label "final") false :: map_ (in_a 0) false
                 :: encoding ++ [opt "-r" "30"];
               save := outputPath |}
  end.

(** ** convertToVerticalWithExtractedCamera: the editor's layouts *)

Definition cameraWidth : Z := floor_Z (Js.of_Z targetWidth * 0.3)%float.
Definition cameraHeight : Z := floor_Z (Js.of_Z targetHeight * 0.3)%float.

(** For full width positions, camera takes 30% of height. *)
Definition fullCameraHeight : Z := floor_Z (Js.of_Z targetHeight * 0.3)%float.
Definition fullGameplayHeight : Z := targetHeight - fullCameraHeight.

(** The [switch] of the overlay branch: where the camera goes. *)
Definition extractedCameraXY (cameraPosition : string) : Z * Z :=
  Js.switch cameraPosition
    [ ("top", ((targetWidth - cameraWidth) / 2, 0));
      ("bottom", ((targetWidth - cameraWidth) / 2, targetHeight - cameraHeight));
      ("left", (0, (targetHeight - cameraHeight) / 2));
      ("right", (targetWidth - cameraWidth, (targetHeight - cameraHeight) / 2));
      ("center", ((targetWidth - cameraWidth) / 2, (targetHeight - cameraHeight) / 2));
      ("top left", (0, 0));
      ("top right", (targetWidth - cameraWidth, 0));
      ("bottom left", (0, targetHeight - cameraHeight));
      ("bottom right", (targetWidth - cameraWidth, targetHeight - cameraHeight)) ]
    (0, targetHeight - cameraHeight).

(** Crop the camera region, scale it to cover the box, crop to the box. *)
Definition camera_chain (camRegion : CamRegion.t) (w h : Z) : Chain :=
  {| chain_in := [in_v 0];
     chain_filters :=
       [ crop (CamRegion.width camRegion) (CamRegion.height camRegion)
              (Some (Js.Int (CamRegion.x camRegion), Js.Int (CamRegion.y camRegion)));
         scale w h (Some increase);
         crop w h None ];
     chain_out := ["cam"] |}.

(** Crop the main video to 9:16, then resize. *)
Definition main_chain (w h : Z) (name : string) : Chain :=
  {| chain_in := [in_v 0];
     chain_filters := [crop_expr (min_ iw (muldiv ih 9 16)) ih; scale w h None];
     chain_out := [name] |}.

Definition extractedCamera_filter (camRegion : CamRegion.t) (cameraPosition : string)
  : Graph :=
  if String.eqb cameraPosition "bottom full" then
    [ camera_chain camRegion targetWidth fullCameraHeight;
      main_chain targetWidth fullGameplayHeight "gameplay";
      {| chain_in := [label "gameplay"; label "cam"];
         chain_filters := [vstack 2];
         chain_out := ["final"] |} ]
  else if String.eqb cameraPosition "top full" then
    [ camera_chain camRegion targetWidth fullCameraHeight;
      main_chain targetWidth fullGameplayHeight "gameplay";
      {| chain_in := [label "cam"; label "gameplay"];
         chain_filters := [vstack 2];
         chain_out := ["final"] |} ]
  else
    let '(cameraX, cameraY) := extractedCameraXY cameraPosition in
    [ main_chain targetWidth targetHeight "main";
      camera_chain camRegion cameraWidth cameraHeight;
      {| chain_in := [label "cam"];
         chain_filters := [drawbox_frame "white@0.8" 2];
         chain_out := ["cam_bordered"] |};
      {| chain_in := [label "main"; label "cam_bordered"];
         chain_filters := [overlay cameraX cameraY false];
         chain_out := ["final"] |} ].

Definition extractedCamera_command (videoPath outputPath : string)
    (camRegion : CamRegion.t) (cameraPosition : string) : Command :=
  {| inputs := [videoPath];
     complexFilter := extractedCamera_filter camRegion cameraPosition;
     outputOptions :=
       map_ (label "final") false :: map_ (in_a 0) true :: encoding ++ [opt "-r" "30"];
     save := outputPath |}.

Definition convertToVerticalWithExtractedCamera (o : Oracle) (videoPath : string)
    (camRegion : CamRegion.t) (outputFilename : string) (cameraPosition : option string)
  : M World string :=
  let outputPath := Js.path_join (outputDir o) outputFilename in
  let cameraPosition := default "bottom" cameraPosition in
  _ ← getVideoMetadata o videoPath;
  run o (extractedCamera_command videoPath outputPath camRegion cameraPosition).

(** ** convertToVerticalWithCamera: a separate camera file *)

Definition padding : Z := 20.

Definition withCameraXY (cameraPosition : string) : Z * Z :=
  Js.switch cameraPosition
    [ ("top", ((targetWidth - cameraWidth) / 2, padding));
      ("bottom", ((targetWidth - cameraWidth) / 2, targetHeight - cameraHeight - padding));
      ("left", (padding, (targetHeight - cameraHeight) / 2));
      ("right", (targetWidth - cameraWidth - padding, (targetHeight - cameraHeight) / 2));
      ("center", ((targetWidth - cameraWidth) / 2, (targetHeight - cameraHeight) / 2));
      ("top left", (padding, padding));
      ("top right", (targetWidth - cameraWidth - padding, padding));
      ("bottom left", (padding, targetHeight - cameraHeight - padding));
      ("bottom right",
        (targetWidth - cameraWidth - padding, targetHeight - cameraHeight - padding)) ]
    (padding, targetHeight - cameraHeight - padding).

Definition withCamera_filter (cameraPosition : string) : Graph :=
  let '(cameraX, cameraY) := withCameraXY cameraPosition in
  [ {| chain_in := [in_v 0];
       chain_filters :=
         [scale targetWidth targetHeight (Some increase); crop targetWidth targetHeight None];
       chain_out := ["gameplay"] |};
    {| chain_in := [in_v 1];
       chain_filters := [scale cameraWidth cameraHeight None];
       chain_out := ["camera_scaled"] |};
    {| chain_in := [label "camera_scaled"];
       chain_filters :=
         [ format "yuva444p";
           geq "lum(X,Y)" "if(lt(abs(W/2-X),W/2-10)*lt(abs(H/2-Y),H/2-10),255,0)" ];
       chain_out := ["camera_rounded"] |};
    {| chain_in := [label "gameplay"; label "camera_rounded"];
       chain_filters := [overlay cameraX cameraY false];
       chain_out := ["final"] |} ].

Definition withCamera_command (gameplayPath cameraPath outputPath : string)
    (cameraPosition : string) : Command :=
  {| inputs := [gameplayPath; cameraPath];
     complexFilter := withCamera_filter cameraPosition;
     outputOptions :=
       map_ (label "final") false :: map_ (in_a 0) true :: encoding ++ [opt "-r" "30"];
     save := outputPath |}.

Definition convertToVerticalWithCamera (o : Oracle) (gameplayPath cameraPath : string)
    (outputFilename : string) (cameraPosition : option string) : M World string :=
  let outputPath := Js.path_join (outputDir o) outputFilename in
  let cameraPosition := default "bottom" cameraPosition in
  _ ← getVideoMetadata o gameplayPath;
  _ ← getVideoMetadata o cameraPath;
  run o (withCamera_command gameplayPath cameraPath outputPath cameraPosition).

(** ** addOutro *)

(** Scale and pad a video to the common size and frame rate. *)
Definition normalize_chain (input : nat) (width height : Z) (rate name : string) : Chain :=
  {| chain_in := [in_v input];
     chain_filters :=
       [ scale width height (Some decrease); pad_center width height; setsar 1; fps rate ];
     chain_out := [name] |}.

Definition concat_chain (ins : list Pad) (a : nat) (outs : list string) : Chain :=
  {| chain_in := ins; chain_filters := [concat 2 1 a]; chain_out := outs |}.

Definition silent_chain (d : string) : Chain :=
  {| chain_in := []; chain_filters := [aevalsrc 0 d]; chain_out := ["silentaudio"] |}.

Definition TypeError (property : string) : string :=
  "TypeError: Cannot read properties of undefined (reading '" +:+ property +:+ "')".

(** The command [addOutro] builds from the two probes. Reading a
    property of a missing video stream throws inside the promise
    chain. *)
Definition addOutro_command (o : Oracle) (mainMeta outroMeta : Metadata)
    (videoPath outroPath outputPath : string) : Answer Command :=
  let mainVideo := find_stream "video" mainMeta in
  let outroVideo := find_stream "video" outroMeta in
  let mainAudio := find_stream "audio" mainMeta in
  let outroAudio := find_stream "audio" outroMeta in
  match mainVideo with
  | None => error (TypeError "width")
  | Some mainVideo =>
      let width := Sys.width mainVideo in
      let height := Sys.height mainVideo in
      match eval_rate o (r_frame_rate mainVideo) with
      | error e => error e
      | answer rate =>
          let normalized :=
            [ normalize_chain 0 width height rate "v0";
              normalize_chain 1 width height rate "v1" ] in
          let audio : Answer (list Chain) :=
            match mainAudio, outroAudio with
            | Some _, Some _ =>
                answer [ concat_chain [label "v0"; in_a 0; label "v1"; in_a 1] 1
                                  ["outv"; "outa"] ]
            | Some _, None =>
                match outroVideo with
                | None => error (TypeError "duration")
                | Some outroVideo =>
                    answer [ silent_chain (duration outroVideo);
                         concat_chain [label "v0"; in_a 0; label "v1"; label "silentaudio"] 1
                                      ["outv"; "outa"] ]
                end
            | None, Some _ =>
                answer [ silent_chain (duration mainVideo);
                     concat_chain [label "v0"; label "silentaudio"; label "v1"; in_a 1] 1
                                  ["outv"; "outa"] ]
            | None, None =>
                answer [ concat_chain [label "v0"; label "v1"] 0 ["outv"] ]
            end in
          match audio with
          | error e => error e
          | answer audio =>
              answer {| inputs := [videoPath; outroPath];
                    complexFilter := normalized ++ audio;
                    outputOptions :=
                      [opt "-c:v" "libx264"; opt "-preset" "fast"; opt "-crf" "23"]
                      ++ (if Js.defined mainAudio || Js.defined outroAudio
                          then [ map_ (label "outv") false; map_ (label "outa") false;
                                 opt "-c:a" "aac" ]
                          else [ map_ (label "outv") false ]);
                    save := outputPath |}
          end
      end
  end.

Definition addOutro (o : Oracle) (videoPath outroPath outputFilename : string)
  : M World string :=
  let outputPath := Js.path_join (outputDir o) outputFilename in
  main ← settle (getVideoMetadata o videoPath);
  outro ← settle (getVideoMetadata o outroPath);
  match main, outro with
  | fulfilled mainMeta, fulfilled outroMeta =>
      match addOutro_command o mainMeta outroMeta videoPath outroPath outputPath with
      | answer command => run o command
      | error e => throw e
      end
  | rejected e, _ => throw e
  | _, rejected e => throw e
  end.

(** ** generateThumbnail *)

Definition generateThumbnail (o : Oracle) (videoPath outputFilename : string)
    (timestamp : option string) : M World string :=
  let timestamp := default "00:00:01" timestamp in
  let outputPath := Js.path_join (outputDir o) outputFilename in
  log (call_screenshots videoPath outputFilename timestamp);;
  match screenshots o videoPath outputFilename timestamp with
  | ffmpeg_end => write_file outputPath;; mret outputPath
  | ffmpeg_error message written => write_if written outputPath;; throw message
  end.

(** ** cleanup: unlink each path, ignoring failures *)

Fixpoint cleanup (o : Oracle) (filePaths : list string) : M World unit :=
  match filePaths with
  | [] => mret tt
  | filepath :: rest =>
      try_catch (unlink o filepath) (λ _, mret tt);;
      cleanup o rest
  end.

(** ** createCompilation *)

(** The local variable [tempFiles] lives next to the world: the
    [catch] block reads what the [try] block pushed. *)
Record Frame := {
  world : World;
  tempFiles : list string;
}.

Definition io {A} (m : M World A) : M Frame A :=
  zoom world (λ w f, {| world := w; tempFiles := tempFiles f |}) m.

Definition push_tempFiles (paths : list string) : M Frame unit :=
  modify (λ f, {| world := world f; tempFiles := tempFiles f ++ paths |}).

Definition clip_filepath (o : Oracle) (compilationId : string) (index : nat) : string :=
  Js.path_join (tempDir o) (compilationId +:+ "_clip_" +:+ pretty index +:+ ".mp4").

(** The body of [clips.map(async (clip, index) => ...)]. *)
Definition download (o : Oracle) (compilationId : string) (clip : Clip.t) (index : nat)
  : M World string :=
  let filepath := clip_filepath o compilationId index in
  try_catch
    (YtdlpDownloader.downloadClip o (Clip.id clip) filepath;; mret filepath)
    (λ error, throw error).

Definition createCompilation_try (o : Oracle) (compilationId : string)
    (clips : list Clip.t) (options : JobOptions.t) : M Frame CompilationResult.t :=
  ytdlpAvailable ← io (YtdlpDownloader.checkInstallation o);
  if negb ytdlpAvailable
  then throw "yt-dlp is not installed. Please install it to download Twitch clips."
  else
    (* 1. Download all clips *)
    io (log (console_log "Starting clip downloads..."));;
    downloadResults ← io (allSettled_map (download o compilationId) clips);
    let downloadedPaths := fulfilled_values downloadResults in
    if (length downloadedPaths =? 0)%nat
    then throw "Failed to download any clips"
    else
      io (log (console_log
                 ("Successfully downloaded " +:+ pretty (length downloadedPaths)
                  +:+ " out of " +:+ pretty (length clips) +:+ " clips")));;
      push_tempFiles downloadedPaths;;
      (* 2. Merge clips *)
      io (log (console_log "Merging clips..."));;
      mergedPath ← io (mergeClips o downloadedPaths (compilationId +:+ "_merged.mp4"));
      (* 3. Convert to vertical format if requested *)
      finalPath ←
        (if JobOptions.convertToVertical options
         then io (log (console_log "Converting to vertical format..."));;
              io (convertToVertical o mergedPath (compilationId +:+ "_vertical.mp4")
                                    (JobOptions.cameraPosition options))
         else mret mergedPath);
      (* 4. Add outro if provided *)
      finalPath ←
        (if Js.truthy (JobOptions.outroPath options)
         then io (log (console_log "Adding outro..."));;
              io (addOutro o finalPath (default "" (JobOptions.outroPath options))
                           (compilationId +:+ "_final.mp4"))
         else mret finalPath);
      (* 5. Generate thumbnail *)
      io (log (console_log "Generating thumbnail..."));;
      thumbnailPath ← io (generateThumbnail o finalPath (compilationId +:+ "_thumb.jpg") None);
      (* 6. Clean up temporary files *)
      frame ← get;
      io (cleanup o (tempFiles frame));;
      mret {| CompilationResult.success := true;
              CompilationResult.compilationId := Some compilationId;
              CompilationResult.videoPath := finalPath;
              CompilationResult.thumbnailPath := Some thumbnailPath;
              CompilationResult.filename := Js.path_basename finalPath;
              CompilationResult.title := None;
              CompilationResult.metadata := None |}.

Definition createCompilation (o : Oracle) (clips : list Clip.t) (options : JobOptions.t)
  : M World CompilationResult.t :=
  λ w,
    let compilationId := uuidv4 o in
    let '(result, frame) :=
      try_catch
        (createCompilation_try o compilationId clips options)
        (λ error,
           (* Clean up on error *)
           frame ← get;
           io (cleanup o (tempFiles frame));;
           throw error)
        {| world := w; tempFiles := [] |} in
    (result, world frame).

End VideoService.

(* ================================================================== *)
(** * The queue's side of the worker contract *)
(* ================================================================== *)

(** Bull is an external library. What the workers rely on: a job starts
    at progress 0; [job.progress(n)] stores [n]; a processor that
    returns completes the job, one that throws fails it with the error's
    message. A processor that dies on an uncaught exception leaves the
    job active. *)
Module Queue.
Import Sys.

Inductive JobState := waiting | active | completed | failed.

Definition progress_updates (calls : list Call) : list Z :=
  omap (λ c, match c with call_progress n => Some n | _ => None end) calls.

(** The progress values a poller can observe, oldest first. *)
Definition progress_history (w : World) : list Z := 0%Z :: progress_updates (calls w).

Definition state_after {A} (r : Res A) : JobState :=
  match r with
  | Ok _ => completed
  | Throw _ => failed
  | Uncaught _ => active
  end.

Definition returnvalue {A} (r : Res A) : option A :=
  match r with
  | Ok a => Some a
  | _ => None
  end.

Definition failedReason {A} (r : Res A) : option string :=
  match r with
  | Throw e => Some e
  | _ => None
  end.

End Queue.

(* ================================================================== *)
(** * compilationRoutes.js *)
(* ================================================================== *)

Module CompilationRoutes.
Import Sys.

(** [req.body.options]: every field may be missing. *)
Module RequestOptions.
Record t := {
  convertToVertical : option bool;
  cameraPosition : option string;
  addOutro : option bool;
  outroPath : option string;
  title : option string;
}.
Definition empty : t :=
  {| convertToVertical := None; cameraPosition := None; addOutro := None;
     outroPath := None; title := None |}.
End RequestOptions.

(** [req.body]; [clips] is [None] when missing or not an array. *)
Module RequestBody.
Record t := {
  clips : option (list Clip.t);
  options : option RequestOptions.t;
}.
End RequestBody.

(** [job.data] *)
Module JobData.
Record t := {
  clips : list Clip.t;
  options : JobOptions.t;
  metadata : option JobMetadata.t;
}.
End JobData.

Inductive Response :=
| status_400 (error : string)
| enqueued (data : JobData.t).

(** [router.post('/create', ...)]; [createdAt] is the time of the
    request. *)
Definition create (body : RequestBody.t) (createdAt : Z) : Response :=
  let options := default RequestOptions.empty (RequestBody.options body) in
  match RequestBody.clips body with
  | None | Some [] => status_400 "No clips provided"
  | Some clips =>
      enqueued
        {| JobData.clips := clips;
           JobData.options :=
             {| JobOptions.convertToVertical :=
                  Js.not_false (RequestOptions.convertToVertical options);
                JobOptions.cameraPosition :=
                  Some (Js.or_else (RequestOptions.cameraPosition options) "bottom");
                JobOptions.addOutro := Js.not_false (RequestOptions.addOutro options);
                JobOptions.outroPath := RequestOptions.outroPath options |};
           JobData.metadata :=
             Some {| JobMetadata.title :=
                       Some (Js.or_else (RequestOptions.title options)
                                        "Untitled Compilation");
                     JobMetadata.createdAt := createdAt |} |}
  end.

(** The body of the worker's loop over [clips]: attach the URLs. *)
Definition withUrls (o : Oracle) (clip : Clip.t) : Clip.t :=
  let videoUrl :=
    Js.or_else (Clip.url clip) ("https://clips.twitch.tv/" +:+ Clip.id clip) in
  let videoUrl :=
    if Js.truthy (Clip.thumbnail_url clip) then
      match thumbnail_slug o (default "" (Clip.thumbnail_url clip)) with
      | Some clipSlug =>
          "https://production.assets.clips.twitchcdn.net/" +:+ clipSlug +:+ ".mp4"
      | None => videoUrl
      end
    else videoUrl in
  {| Clip.id := Clip.id clip;
     Clip.url := Some videoUrl;
     Clip.thumbnail_url := Clip.thumbnail_url clip;
     Clip.fallbackUrl :=
       Js.replace "-preview-480x272.jpg" ".mp4" <$> Clip.thumbnail_url clip |}.

(** [videoQueue.process(async (job) => ...)] *)
Definition process (o : Oracle) (data : JobData.t) : M World CompilationResult.t :=
  try_catch
    (log (call_progress 10);;
     let clipsWithUrls := withUrls o <$> JobData.clips data in
     if (length clipsWithUrls =? 0)%nat
     then throw "No valid clips found to process"
     else
       log (call_progress 30);;
       result ← VideoService.createCompilation o clipsWithUrls (JobData.options data);
       let result :=
         {| CompilationResult.success := CompilationResult.success result;
            CompilationResult.compilationId := CompilationResult.compilationId result;
            CompilationResult.videoPath := CompilationResult.videoPath result;
            CompilationResult.thumbnailPath := CompilationResult.thumbnailPath result;
            CompilationResult.filename := CompilationResult.filename result;
            CompilationResult.title :=
              Some (Js.or_else (JobData.metadata data ≫= JobMetadata.title)
                               "Untitled Compilation");
            CompilationResult.metadata := JobData.metadata data |} in
       log (call_progress 100);;
       mret result)
    (λ error, throw error).

End CompilationRoutes.

(* ================================================================== *)
(** * editorRoutes.js *)
(* ================================================================== *)

Module EditorRoutes.
Import Sys.

Record Template := {
  aspectRatio : option string;
  hasIntro : bool;
  hasOutro : bool;
}.

Module JobData.
Record t := {
  videoPath : string;
  template : Template;
  cameraPosition : option string;
  camRegion : option CamRegion.t;
}.
End JobData.

(** [`${prefix}${Date.now()}${suffix}`] *)
Definition stamped (o : Oracle) (prefix suffix : string) : M World string :=
  t ← now o; mret (prefix +:+ pretty t +:+ suffix).

(** Filter for video files only. *)
Definition is_video_file (file : string) : bool :=
  let ext := Js.toLowerCase (Js.path_extname file) in
  bool_decide (ext ∈ [".mp4"; ".mov"; ".avi"; ".mkv"; ".webm"]).

(** The [if (template.hasOutro)] block. [readdir] stands for the
    [mkdir] and [readdir] of the outro directory together. *)
Definition outro_step (o : Oracle) (processedPath : string) : M World string :=
  log (call_progress 70);;
  try_catch
    (outroFiles ← (match readdir o (outroDir o) with
                   | answer l => mret l
                   | error e => throw e
                   end);
     let videoOutros := List.filter is_video_file outroFiles in
     match videoOutros with
     | first :: _ =>
         let outroPath := Js.path_join (outroDir o) first in
         withOutroFilename ← stamped o "with_outro_" ".mp4";
         try_catch
           (VideoService.addOutro o processedPath outroPath withOutroFilename)
           (λ outroError,
              (* Continue without outro instead of failing completely *)
              mret processedPath)
     | [] => mret processedPath
     end)
    (λ error, mret processedPath).

(** [editorQueue.process(async (job) => ...)] *)
Definition process (o : Oracle) (data : JobData.t) : M World CompilationResult.t :=
  let template := JobData.template data in
  let videoPath := JobData.videoPath data in
  let cameraPosition := JobData.cameraPosition data in
  try_catch
    (log (call_progress 10);;
     outputFilename ← stamped o "edited_" ".mp4";
     processedPath ←
       match bool_decide (aspectRatio template = Some "9:16"), JobData.camRegion data with
       | true, Some camRegion =>
           log (call_progress 30);;
           verticalFilename ← stamped o "vertical_" ".mp4";
           VideoService.convertToVerticalWithExtractedCamera
             o videoPath camRegion verticalFilename cameraPosition
       | true, None =>
           log (call_progress 30);;
           verticalFilename ← stamped o "vertical_" ".mp4";
           VideoService.convertToVertical o videoPath verticalFilename cameraPosition
       | false, _ => mret videoPath
       end;
     (if hasIntro template then log (call_progress 50) else mret tt);;
     processedPath ←
       (if hasOutro template then outro_step o processedPath else mret processedPath);
     log (call_progress 90);;
     thumbnailFilename ← stamped o "thumb_" ".jpg";
     thumbnailPath ← VideoService.generateThumbnail o processedPath thumbnailFilename None;
     log (call_progress 100);;
     mret {| CompilationResult.success := true;
             CompilationResult.compilationId := None;
             CompilationResult.videoPath := processedPath;
             CompilationResult.thumbnailPath := Some thumbnailPath;
             CompilationResult.filename := Js.path_basename processedPath;
             CompilationResult.title := None;
             CompilationResult.metadata := None |})
    (λ error, throw error).

End EditorRoutes.

(* ================================================================== *)
(** * Vocabulary of the properties *)
(* ================================================================== *)

Module Spec.
Import Sys.

(** ** The record of calls *)

(** The calls made between two worlds of one run. *)
Definition new_calls (w w' : World) : list Call := drop (length (calls w)) (calls w').

Definition ffmpeg_commands (l : list Call) : list Ffmpeg.Command :=
  omap (λ c, match c with call_ffmpeg cmd => Some cmd | _ => None end) l.

(** Whether a step announcement was written. *)
Definition announced (message : string) (l : list Call) : bool :=
  existsb (λ c, match c with console_log m => String.eqb m message | _ => false end) l.

(** Every ffmpeg command on the record ended well. *)
Definition stages_succeeded (o : Oracle) (l : list Call) : bool :=
  forallb (λ c, match ffmpeg o c with ffmpeg_end => true | _ => false end)
          (ffmpeg_commands l).

(** Some screenshot call on the record failed. *)
Definition thumbnail_failed (o : Oracle) (l : list Call) : bool :=
  existsb (λ c, match c with
                | call_screenshots video name timestamp =>
                    match screenshots o video name timestamp with
                    | ffmpeg_error _ _ => true
                    | ffmpeg_end => false
                    end
                | _ => false
                end) l.

Inductive Kind :=
| k_log | k_ytdlp | k_recode | k_ffprobe | k_ffmpeg | k_screenshots | k_unlink | k_progress.

Definition kind (c : Call) : Kind :=
  match c with
  | console_log _ => k_log
  | call_ytdlp _ _ => k_ytdlp
  | call_recode _ _ => k_recode
  | call_ffprobe _ => k_ffprobe
  | call_ffmpeg _ => k_ffmpeg
  | call_screenshots _ _ _ => k_screenshots
  | call_unlink _ => k_unlink
  | call_progress _ => k_progress
  end.

(** [P] admits every call of kind [k]. *)
Definition allows (P : Call → Prop) (k : Kind) : Prop := ∀ c, kind c = k → P c.

(** A computation only appends calls satisfying [P] to the record and,
    when [keeps] is set, deletes no file. *)
Definition Effects {A} (P : Call → Prop) (keeps : bool) (m : M World A) : Prop :=
  ∀ w, (∃ new, calls (m w).2 = calls w ++ new ∧ Forall P new)
       ∧ (keeps = true → files w ⊆ files (m w).2).

(** A computation removes no file but those [D] admits. *)
Definition Spares {A} (D : string → Prop) (m : M World A) : Prop :=
  ∀ w p, p ∈ files w → ¬ D p → p ∈ files (m w).2.

(** A computation always settles: it returns or throws. *)
Definition Settles {A} (m : M World A) : Prop :=
  ∀ w, ∀ e, (m w).1 ≠ Uncaught e.

(** A computation reports progress values taken, in order, from [l]. *)
Definition Reports {A} (l : list Z) (m : M World A) : Prop :=
  ∀ w, ∃ new, calls (m w).2 = calls w ++ new
              ∧ sublist (Queue.progress_updates new) l.

(** ** The batch of downloads of [createCompilation] *)

Definition batch (o : Oracle) (clips : list Clip.t) (w : World)
  : Res (list (Settled string)) * World :=
  (log (console_log "Starting clip downloads...");;
   allSettled_map (VideoService.download o (uuidv4 o)) clips) w.

(** The clip files a run of [createCompilation] acquires, in the
    order of the request. Without yt-dlp no download is attempted. *)
Definition acquired (o : Oracle) (clips : list Clip.t) (w : World) : list string :=
  if ytdlp_version o then
    match batch o clips w with
    | (Ok results, _) => fulfilled_values results
    | _ => []
    end
  else [].

(** The paths among [paths] that the file system lets go. *)
Definition removable (o : Oracle) (paths : list string) : list string :=
  filter (λ p, unlink_error o p = None) paths.

(** The paths [cleanup] asked the file system to unlink. *)
Definition unlinked (l : list Call) : list string :=
  omap (λ c, match c with call_unlink p => Some p | _ => None end) l.

(** The clip files of a compilation and the temp files of their
    re-encoding. *)
Definition scratch_file (o : Oracle) (p : string) : Prop :=
  ∃ index,
    p = VideoService.clip_filepath o (uuidv4 o) index
    ∨ p = Js.replace ".mp4" "_temp.mp4" (VideoService.clip_filepath o (uuidv4 o) index).

(** ** The steps of [createCompilation] after the downloads *)

Definition merged_path (o : Oracle) (compilationId : string) : string :=
  Js.path_join (outputDir o) (compilationId +:+ "_merged.mp4").

Definition merge_command (o : Oracle) (compilationId : string) (paths : list string)
  : Ffmpeg.Command :=
  VideoService.mergeClips_command (merged_path o compilationId) paths.

Definition vertical_path (o : Oracle) (compilationId : string) : string :=
  Js.path_join (outputDir o) (compilationId +:+ "_vertical.mp4").

(** The path of the video after steps 2 to 4. *)
Definition final_path (o : Oracle) (compilationId : string) (options : JobOptions.t)
  : string :=
  if Js.truthy (JobOptions.outroPath options)
  then Js.path_join (outputDir o) (compilationId +:+ "_final.mp4")
  else if JobOptions.convertToVertical options
       then Js.path_join (outputDir o) (compilationId +:+ "_vertical.mp4")
       else merged_path o compilationId.

(** Steps 2 to 4: merge, reframe, outro. *)
Definition compose (o : Oracle) (compilationId : string) (requested : nat)
    (downloadedPaths : list string) (options : JobOptions.t) : M World string :=
  log (console_log
         ("Successfully downloaded " +:+ pretty (length downloadedPaths)
          +:+ " out of " +:+ pretty requested +:+ " clips"));;
  log (console_log "Merging clips...");;
  mergedPath ← VideoService.mergeClips o downloadedPaths (compilationId +:+ "_merged.mp4");
  finalPath ←
    (if JobOptions.convertToVertical options
     then log (console_log "Converting to vertical format...");;
          VideoService.convertToVertical o mergedPath (compilationId +:+ "_vertical.mp4")
                                         (JobOptions.cameraPosition options)
     else mret mergedPath);
  (if Js.truthy (JobOptions.outroPath options)
   then log (console_log "Adding outro...");;
        VideoService.addOutro o finalPath (default "" (JobOptions.outroPath options))
                              (compilationId +:+ "_final.mp4")
   else mret finalPath).

(** Step 5: the thumbnail. *)
Definition thumbnail (o : Oracle) (compilationId finalPath : string) : M World string :=
  log (console_log "Generating thumbnail...");;
  VideoService.generateThumbnail o finalPath (compilationId +:+ "_thumb.jpg") None.

Definition result_of (compilationId finalPath thumbnailPath : string) : CompilationResult.t :=
  {| CompilationResult.success := true;
     CompilationResult.compilationId := Some compilationId;
     CompilationResult.videoPath := finalPath;
     CompilationResult.thumbnailPath := Some thumbnailPath;
     CompilationResult.filename := Js.path_basename finalPath;
     CompilationResult.title := None;
     CompilationResult.metadata := None |}.

(** Steps 2 to 6 and the [catch] block, once [tempFiles] holds the
    downloaded paths. *)
Definition finish (o : Oracle) (compilationId : string) (requested : nat)
    (downloadedPaths : list string) (options : JobOptions.t)
  : M World CompilationResult.t :=
  λ w,
    match compose o compilationId requested downloadedPaths options w with
    | (Ok finalPath, w1) =>
        match thumbnail o compilationId finalPath w1 with
        | (Ok thumbnailPath, w2) =>
            (Ok (result_of compilationId finalPath thumbnailPath),
             (VideoService.cleanup o downloadedPaths w2).2)
        | (Throw e, w2) => (Throw e, (VideoService.cleanup o downloadedPaths w2).2)
        | (Uncaught e, w2) => (Uncaught e, w2)
        end
    | (Throw e, w1) => (Throw e, (VideoService.cleanup o downloadedPaths w1).2)
    | (Uncaught e, w1) => (Uncaught e, w1)
    end.

(** ** The compilation worker *)

(** The result with the job's title and metadata attached. *)
Definition titled (data : CompilationRoutes.JobData.t) (result : CompilationResult.t)
  : CompilationResult.t :=
  {| CompilationResult.success := CompilationResult.success result;
     CompilationResult.compilationId := CompilationResult.compilationId result;
     CompilationResult.videoPath := CompilationResult.videoPath result;
     CompilationResult.thumbnailPath := CompilationResult.thumbnailPath result;
     CompilationResult.filename := CompilationResult.filename result;
     CompilationResult.title :=
       Some (Js.or_else (CompilationRoutes.JobData.metadata data ≫= JobMetadata.title)
                        "Untitled Compilation");
     CompilationResult.metadata := CompilationRoutes.JobData.metadata data |}.

(** The world once the worker has reported 10 and 30. *)
Definition started (w : World) : World :=
  {| files := files w;
     calls := calls w ++ [call_progress 10; call_progress 30];
     ticks := ticks w |}.

(** The job with its [addOutro] flag replaced. *)
Definition with_addOutro (b : bool) (data : CompilationRoutes.JobData.t)
  : CompilationRoutes.JobData.t :=
  {| CompilationRoutes.JobData.clips := CompilationRoutes.JobData.clips data;
     CompilationRoutes.JobData.options :=
       {| JobOptions.convertToVertical :=
            JobOptions.convertToVertical (CompilationRoutes.JobData.options data);
          JobOptions.cameraPosition :=
            JobOptions.cameraPosition (CompilationRoutes.JobData.options data);
          JobOptions.addOutro := b;
          JobOptions.outroPath :=
            JobOptions.outroPath (CompilationRoutes.JobData.options data) |};
     CompilationRoutes.JobData.metadata := CompilationRoutes.JobData.metadata data |}.

(** ** The statements of the specification that the code does not meet *)

(** A failed thumbnail leaves the job completing, its result lacking
    the thumbnail. *)
Definition thumbnail_nonfatal (o : Oracle) (data : CompilationRoutes.JobData.t) (w : World)
  : Prop :=
  let '(r, w') := CompilationRoutes.process o data w in
  stages_succeeded o (new_calls w w') = true →
  thumbnail_failed o (new_calls w w') = true →
  ∃ res, r = Ok res ∧ CompilationResult.thumbnailPath res = None.

(** After a completed run only the final video and the thumbnail are
    left of what the run wrote. *)
Definition only_final_outputs_remain (o : Oracle) (clips : list Clip.t)
    (options : JobOptions.t) (w : World) : Prop :=
  ∀ res, (VideoService.createCompilation o clips options w).1 = Ok res →
  ∀ p, p ∈ files (VideoService.createCompilation o clips options w).2 →
       p ∉ files w →
       p = CompilationResult.videoPath res ∨ CompilationResult.thumbnailPath res = Some p.

(** Whatever the request says, the jobs the create route enqueues never
    run the outro step. *)
Definition outro_never_runs (body : CompilationRoutes.RequestBody.t) (createdAt : Z)
    (o : Oracle) (w : World) : Prop :=
  ∀ data, CompilationRoutes.create body createdAt = CompilationRoutes.enqueued data →
          announced "Adding outro..."
                    (new_calls w (CompilationRoutes.process o data w).2) = false.

(** ** Quality selection *)

Section Quality.
Import TwitchClipDownloader.

(** [q] is the first entry of [qualities] labelled [label]. *)
Definition first_with (label : string) (q : VideoQuality) (qualities : list VideoQuality)
  : Prop :=
  ∃ before after,
    qualities = before ++ q :: after
    ∧ quality q = label
    ∧ Forall (λ x, quality x ≠ label) before.

Definition none_with (label : string) (qualities : list VideoQuality) : Prop :=
  Forall (λ x, quality x ≠ label) qualities.
End Quality.

(** ** Layouts and streams *)

Section Layout.
Import Ffmpeg VideoService.
Local Open Scope Z_scope.

(** What a probe tells about a file's streams. *)
Definition probed (m : Metadata) : InputFile :=
  {| in_video := (λ s, (width s, height s)) <$> find_stream "video" m;
     in_audio := Js.defined (find_stream "audio" m) |}.

(** What ffprobe tells about a file handed to ffmpeg; a file that
    cannot be probed has no streams. *)
Definition probe (o : Oracle) (path : string) : InputFile :=
  match ffprobe o path with
  | answer m => probed m
  | error _ => {| in_video := None; in_audio := false |}
  end.

(** The streams and the frame size of the file a command writes, its
    inputs being what ffprobe sees in the files it reads. *)
Definition streams_written (o : Oracle) (c : Command) : option (list Stream) :=
  output_streams (probe o <$> inputs c) c.

Definition frame_written (o : Oracle) (c : Command) : option (Z * Z) :=
  output_resolution (probe o <$> inputs c) c.

(** The camera region lies inside a frame of the given size. *)
Definition inside_frame (r : CamRegion.t) (w h : Z) : Prop :=
  0 ≤ CamRegion.x r ∧ 0 ≤ CamRegion.y r
  ∧ 0 < CamRegion.width r ∧ 0 < CamRegion.height r
  ∧ CamRegion.x r + CamRegion.width r ≤ w
  ∧ CamRegion.y r + CamRegion.height r ≤ h.

(** The frame size of a video after a run: what the engine makes of
    the last command of the run that wrote the file, or what ffprobe
    sees in a file the run did not write. *)
Definition frame_size (o : Oracle) (l : list Call) (path : string) : option (Z * Z) :=
  match last (filter (λ c, save c = path) (ffmpeg_commands l)) with
  | Some c => frame_written o c
  | None => in_video (probe o path)
  end.

(** Every editor job with this template and a camera region inside
    the source frame returns a video of the size [canvas]. *)
Definition reframes_to (canvas : Z * Z) (template : EditorRoutes.Template) : Prop :=
  ∀ (o : Oracle) (data : EditorRoutes.JobData.t) (w : World)
    (res : CompilationResult.t) (meta : Metadata) (source : StreamInfo)
    (region : CamRegion.t),
    EditorRoutes.JobData.template data = template →
    EditorRoutes.JobData.camRegion data = Some region →
    ffprobe o (EditorRoutes.JobData.videoPath data) = answer meta →
    find_stream "video" meta = Some source →
    inside_frame region (width source) (height source) →
    (EditorRoutes.process o data w).1 = Ok res →
    frame_size o (new_calls w (EditorRoutes.process o data w).2)
               (CompilationResult.videoPath res) = Some canvas.

(** The reframe as the specification words it: the template has a
    fixed target canvas, which is the size of the reframed video
    whatever the size of the source. *)
Definition reframes_to_canvas (template : EditorRoutes.Template) : Prop :=
  ∃ canvas, reframes_to canvas template.

(** Where a layer sits along one axis of the canvas. *)
Inductive Anchor := at_start | centred | at_end.

Definition anchored (a : Anchor) (canvas layer pad : Z) : Z :=
  match a with
  | at_start => pad
  | centred => (canvas - layer) / 2
  | at_end => canvas - layer - pad
  end.

(** The nine overlay positions: horizontal and vertical anchor. *)
Definition overlay_positions : list (string * (Anchor * Anchor)) :=
  [ ("top", (centred, at_start)); ("bottom", (centred, at_end));
    ("left", (at_start, centred)); ("right", (at_end, centred));
    ("center", (centred, centred));
    ("top left", (at_start, at_start)); ("top right", (at_end, at_start));
    ("bottom left", (at_start, at_end)); ("bottom right", (at_end, at_end)) ].

(** The offset a position gets with padding [pad] from the nearest
    edges. *)
Definition offset_with (pad : Z) (anchors : Anchor * Anchor) : Js.number * Js.number :=
  (Js.Int (anchored anchors.1 targetWidth cameraWidth pad),
   Js.Int (anchored anchors.2 targetHeight cameraHeight pad)).

Definition overlay_offset (g : Graph) : option (Js.number * Js.number) :=
  head (omap (λ f, match f with overlay x y _ => Some (x, y) | _ => None end)
             (g ≫= chain_filters)).

Definition has_border (g : Graph) : bool :=
  existsb (λ f, match f with drawbox_frame _ _ => true | _ => false end)
          (g ≫= chain_filters).

(** Some chain scales to cover the [w]x[h] box and crops to it. *)
Definition cover_cropped (w h : Z) (g : Graph) : bool :=
  existsb (λ c, bool_decide (drop 1 (chain_filters c)
                             = [scale w h (Some increase); crop w h None])
                || bool_decide (chain_filters c
                                = [scale w h (Some increase); crop w h None])) g.

(** The overlay layout as the specification words it: the camera
    layer cover-cropped to 30% of the canvas, some nonzero padding
    from the nearest edges, a border. *)
Definition padded_bordered_overlay (layout : string → Graph) : Prop :=
  ∃ pad, 0 < pad ∧
    Forall (λ '(name, anchors),
              overlay_offset (layout name) = Some (offset_with pad anchors)
              ∧ cover_cropped cameraWidth cameraHeight (layout name) = true
              ∧ has_border (layout name) = true)
           overlay_positions.
End Layout.

End Spec.

(* ================================================================== *)
(** * Concrete inputs *)
(* ================================================================== *)

Module Example.
Import Sys.

Definition video_stream : StreamInfo :=
  {| codec_type := "video"; width := 1920; height := 1080;
     r_frame_rate := "30/1"; duration := "30.000000" |}.
Definition audio_stream : StreamInfo :=
  {| codec_type := "audio"; width := 0; height := 0;
     r_frame_rate := "0/0"; duration := "30.000000" |}.
Definition outro_stream : StreamInfo :=
  {| codec_type := "video"; width := 1280; height := 720;
     r_frame_rate := "25/1"; duration := "4.000000" |}.

Definition with_audio : Metadata := {| streams := [video_stream; audio_stream] |}.
Definition silent_outro : Metadata := {| streams := [outro_stream] |}.

(** A machine on which every tool works. The clip "gone" cannot be
    downloaded and the file "outros/missing.mp4" cannot be probed. *)
Definition studio_with (shots : string → string → string → FfmpegRun)
    (outros : list string) : Oracle :=
  {| tempDir := "temp";
     outputDir := "uploads/compilations";
     outroDir := "outros";
     uuidv4 := "7f3c";
     Date_now := λ n, (1700000000000 + Z.of_nat n)%Z;
     ytdlp_version := true;
     ytdlp := λ clipUrl _,
       if String.eqb clipUrl "https://clips.twitch.tv/gone"
       then ytdlp_error "Command failed" "ERROR: HTTP Error 404: Not Found"
       else ytdlp_exit0 true;
     recode := λ _ _, recode_exit0 true;
     ffprobe := λ path,
       if String.eqb path "outros/missing.mp4"
       then error "ffprobe exited with code 1"
       else if String.eqb path "outros/outro.mp4" then answer silent_outro
       else answer with_audio;
     ffmpeg := λ _, ffmpeg_end;
     screenshots := shots;
     eval_rate := λ _, answer "30";
     readdir := λ _, answer outros;
     thumbnail_slug := λ _, None;
     unlink_error := λ _, None |}.

Definition studio : Oracle := studio_with (λ _ _ _, ffmpeg_end) ["notes.txt"; "outro.mp4"].

(** The same machine, on which taking the screenshot fails. *)
Definition no_screenshot : Oracle :=
  studio_with (λ _ _ _, ffmpeg_error "ffmpeg exited with code 1" false) ["outro.mp4"].

(** The same machine, whose only outro file cannot be read. *)
Definition broken_outro : Oracle := studio_with (λ _ _ _, ffmpeg_end) ["missing.mp4"].

Definition fresh : World := {| files := ∅; calls := []; ticks := 0 |}.

Definition clip (id : string) : Clip.t :=
  {| Clip.id := id; Clip.url := None; Clip.thumbnail_url := None;
     Clip.fallbackUrl := None |}.

Definition three_clips : list Clip.t := [clip "a"; clip "gone"; clip "c"].

(** A request for the three clips with the given outro options. *)
Definition request (addOutro : option bool) (outroPath : option string)
  : CompilationRoutes.RequestBody.t :=
  {| CompilationRoutes.RequestBody.clips := Some three_clips;
     CompilationRoutes.RequestBody.options :=
       Some {| CompilationRoutes.RequestOptions.convertToVertical := None;
               CompilationRoutes.RequestOptions.cameraPosition := None;
               CompilationRoutes.RequestOptions.addOutro := addOutro;
               CompilationRoutes.RequestOptions.outroPath := outroPath;
               CompilationRoutes.RequestOptions.title := Some "Best of" |} |}.

(** The job the create route enqueues for such a request. *)
Definition job (addOutro : option bool) (outroPath : option string)
  : CompilationRoutes.JobData.t :=
  match CompilationRoutes.create (request addOutro outroPath) 1700000000000 with
  | CompilationRoutes.enqueued data => data
  | CompilationRoutes.status_400 _ =>
      {| CompilationRoutes.JobData.clips := [];
         CompilationRoutes.JobData.options :=
           {| JobOptions.convertToVertical := false; JobOptions.cameraPosition := None;
              JobOptions.addOutro := false; JobOptions.outroPath := None |};
         CompilationRoutes.JobData.metadata := None |}
  end.

(** An editor job: a 9:16 template with an outro, camera at the bottom. *)
Definition edit : EditorRoutes.JobData.t :=
  {| EditorRoutes.JobData.videoPath := "uploads/editor/video-1.mp4";
     EditorRoutes.JobData.template :=
       {| EditorRoutes.aspectRatio := Some "9:16";
          EditorRoutes.hasIntro := false;
          EditorRoutes.hasOutro := true |};
     EditorRoutes.JobData.cameraPosition := Some "bottom full";
     EditorRoutes.JobData.camRegion :=
       Some {| CamRegion.x := 1500; CamRegion.y := 780;
               CamRegion.width := 400; CamRegion.height := 280 |} |}.

(** An editor job on the given upload: a 16:9 template, no intro, no
    outro, the camera in the top left corner of the source. *)
Definition widescreen (videoPath : string) : EditorRoutes.JobData.t :=
  {| EditorRoutes.JobData.videoPath := videoPath;
     EditorRoutes.JobData.template :=
       {| EditorRoutes.aspectRatio := Some "16:9";
          EditorRoutes.hasIntro := false;
          EditorRoutes.hasOutro := false |};
     EditorRoutes.JobData.cameraPosition := Some "bottom right";
     EditorRoutes.JobData.camRegion :=
       Some {| CamRegion.x := 0; CamRegion.y := 0;
               CamRegion.width := 320; CamRegion.height := 180 |} |}.

Definition sample_region : CamRegion.t :=
  {| CamRegion.x := 1500; CamRegion.y := 780;
     CamRegion.width := 400; CamRegion.height := 280 |}.

Definition sample_qualities : list TwitchClipDownloader.VideoQuality :=
  [ {| TwitchClipDownloader.sourceURL := "https://cdn/480.mp4";
       TwitchClipDownloader.quality := "480" |};
    {| TwitchClipDownloader.sourceURL := "https://cdn/720.mp4";
       TwitchClipDownloader.quality := "720" |};
    {| TwitchClipDownloader.sourceURL := "https://cdn/360.mp4";
       TwitchClipDownloader.quality := "360" |} ].

(** The options the create route gives a request that sets none. *)
Definition default_options : JobOptions.t :=
  CompilationRoutes.JobData.options (job None None).

End Example.

(** * Properties of the pipeline *)

Import Sys Spec.
Set Warnings "-clear-no-such-hyp".

Lemma io_bind {A B} (m : M World A) (f : A → M VideoService.Frame B) fr :
  (VideoService.io m ≫= f) fr =
    match m (VideoService.world fr) with
    | (Ok a, w') => f a {| VideoService.world := w'; VideoService.tempFiles := VideoService.tempFiles fr |}
    | (Throw e, w') => (Throw e, {| VideoService.world := w'; VideoService.tempFiles := VideoService.tempFiles fr |})
    | (Uncaught e, w') => (Uncaught e, {| VideoService.world := w'; VideoService.tempFiles := VideoService.tempFiles fr |})
    end.
Proof.
  unfold VideoService.io, zoom, mbind, M_bind.
  destruct (m (VideoService.world fr)) as [[a|e|e] w']; reflexivity.
Qed.

Lemma io_run {A} (m : M World A) fr :
  VideoService.io m fr =
    ((m (VideoService.world fr)).1,
     {| VideoService.world := (m (VideoService.world fr)).2;
        VideoService.tempFiles := VideoService.tempFiles fr |}).
Proof. unfold VideoService.io, zoom. destruct (m _); reflexivity. Qed.

Lemma bind_run {S A B} (m : M S A) (f : A → M S B) s :
  (m ≫= f) s = match m s with
               | (Ok a, s') => f a s'
               | (Throw e, s') => (Throw e, s')
               | (Uncaught e, s') => (Uncaught e, s')
               end.
Proof. reflexivity. Qed.


(** [cleanup] swallows every failure of [unlink]: a missing file, and a
    file the system refuses to remove, which then stays. *)
Lemma unlink_attempt o p w :
  try_catch (unlink o p) (λ _, mret tt) w =
    (Ok tt, {| files := files w ∖ list_to_set (removable o [p]);
               calls := calls w ++ [call_unlink p]; ticks := ticks w |}).
Proof.
  unfold removable. rewrite filter_cons, filter_nil.
  unfold try_catch, unlink, unlinkSync, existsSync, log, remove_file, modify, get, throw.
  rewrite !bind_run. simpl. case_bool_decide as Hin; simpl.
  - destruct (decide (unlink_error o p = None)) as [E|E].
    + rewrite E. simpl. f_equal. f_equal. apply leibniz_equiv. set_solver.
    + destruct (unlink_error o p); [|done]. simpl.
      f_equal. f_equal. apply leibniz_equiv. set_solver.
  - f_equal. f_equal. apply leibniz_equiv.
    destruct (decide (unlink_error o p = None)); set_solver.
Qed.

Lemma cleanup_cons o p rest w :
  VideoService.cleanup o (p :: rest) w =
    VideoService.cleanup o rest
      {| files := files w ∖ list_to_set (removable o [p]);
         calls := calls w ++ [call_unlink p]; ticks := ticks w |}.
Proof.
  change (VideoService.cleanup o (p :: rest)) with
    (try_catch (unlink o p) (λ _, mret tt) ≫= λ _, VideoService.cleanup o rest).
  rewrite bind_run, unlink_attempt. reflexivity.
Qed.

Lemma cleanup_run o paths w :
  VideoService.cleanup o paths w =
    (Ok tt, {| files := files w ∖ list_to_set (removable o paths);
               calls := calls w ++ (call_unlink <$> paths);
               ticks := ticks w |}).
Proof.
  revert w. induction paths as [|p rest IH]; intros w.
  - simpl. destruct w. unfold mret, M_ret. simpl. f_equal. f_equal.
    + apply leibniz_equiv. set_solver.
    + by rewrite app_nil_r.
  - rewrite cleanup_cons, IH. simpl. f_equal. f_equal.
    + apply leibniz_equiv. change (p :: rest) with ([p] ++ rest).
      unfold removable. rewrite filter_app, list_to_set_app_L. set_solver.
    + by rewrite <- app_assoc.
Qed.

#[local] Arguments VideoService.mergeClips : simpl never.
#[local] Arguments VideoService.convertToVertical : simpl never.
#[local] Arguments VideoService.addOutro : simpl never.
#[local] Arguments VideoService.generateThumbnail : simpl never.
#[local] Arguments VideoService.cleanup : simpl never.
#[local] Arguments VideoService.download : simpl never.
#[local] Arguments allSettled_map : simpl never.
#[local] Arguments VideoService.createCompilation : simpl never.

Ltac run_step :=
  first [ rewrite io_bind | rewrite io_run | rewrite bind_run | rewrite cleanup_run
        | progress simpl
        | match goal with H : ?m ?w = _ |- context [?m ?w] => rewrite H end ].

Ltac split_run :=
  match goal with
  | |- context [match ?m ?w with pair _ _ => _ end] =>
      lazymatch m with
      | mbind _ _ => fail
      | _ => destruct (m w) as [[?|?|?] ?] eqn:?
      end
  end.

Lemma createCompilation_unfold o clips options w :
  VideoService.createCompilation o clips options w =
    if ytdlp_version o then
      match batch o clips w with
      | (Ok results, w1) =>
          let got := fulfilled_values results in
          if (length got =? 0)%nat then (Throw "Failed to download any clips", w1)
          else finish o (uuidv4 o) (length clips) got options w1
      | (Throw e, w1) => (Throw e, w1)
      | (Uncaught e, w1) => (Uncaught e, w1)
      end
    else (Throw "yt-dlp is not installed. Please install it to download Twitch clips.", w).
Proof.
  unfold VideoService.createCompilation, VideoService.createCompilation_try, try_catch.
  rewrite io_bind. unfold YtdlpDownloader.checkInstallation at 1. simpl.
  destruct (ytdlp_version o); simpl; [|reflexivity].
  unfold batch. repeat run_step.
  split_run; simpl; try reflexivity.
  destruct (length (fulfilled_values _) =? 0)%nat; simpl; [reflexivity|].
  unfold VideoService.push_tempFiles, finish, compose, thumbnail.
  repeat run_step.
  split_run; repeat run_step; try reflexivity.
  destruct (JobOptions.convertToVertical options), (Js.truthy (JobOptions.outroPath options));
    repeat run_step;
    repeat (split_run; repeat run_step; try reflexivity).
Qed.

(** ** Effects of the services, compositionally *)

Section Effects.
Context (P : Call → Prop) (keeps : bool).

Lemma effects_pure {A} (m : M World A) :
  (∀ w, (m w).2 = w) → Effects P keeps m.
Proof.
  intros H w. rewrite H. split; [|done].
  exists []. by rewrite app_nil_r.
Qed.

Lemma effects_ret {A} (a : A) : Effects P keeps (mret a).
Proof. by apply effects_pure. Qed.

Lemma effects_throw {A} e : Effects P keeps (throw e : M World A).
Proof. by apply effects_pure. Qed.

Lemma effects_uncaught {A} e : Effects P keeps (uncaught e : M World A).
Proof. by apply effects_pure. Qed.

Lemma effects_get : Effects P keeps (get : M World World).
Proof. by apply effects_pure. Qed.

Lemma effects_seq {A B} (m : M World A) (k : World → Res B * World) :
  Effects P keeps m →
  (∀ w, (∃ new, calls (k w).2 = calls w ++ new ∧ Forall P new)
        ∧ (keeps = true → files w ⊆ files (k w).2)) →
  ∀ w, (∃ new, calls (k (m w).2).2 = calls w ++ new ∧ Forall P new)
       ∧ (keeps = true → files w ⊆ files (k (m w).2).2).
Proof.
  intros Hm Hk w. destruct (Hm w) as [(n1 & E1 & F1) K1].
  destruct (Hk (m w).2) as [(n2 & E2 & F2) K2]. split.
  - exists (n1 ++ n2). rewrite E2, E1, app_assoc. split; [done|].
    by apply Forall_app.
  - intros Hkeep. etrans; [by apply K1 | by apply K2].
Qed.

Lemma effects_bind {A B} (m : M World A) (f : A → M World B) :
  Effects P keeps m → (∀ a, Effects P keeps (f a)) → Effects P keeps (m ≫= f).
Proof.
  intros Hm Hf w. rewrite bind_run.
  destruct (m w) as [[a|e|e] w1] eqn:E.
  - replace w1 with (m w).2 by (by rewrite E).
    apply (effects_seq m (f a)); [done | apply Hf].
  - replace w1 with (m w).2 by (by rewrite E). apply Hm.
  - replace w1 with (m w).2 by (by rewrite E). apply Hm.
Qed.

Lemma effects_try_catch {A} (m : M World A) (h : string → M World A) :
  Effects P keeps m → (∀ e, Effects P keeps (h e)) → Effects P keeps (try_catch m h).
Proof.
  intros Hm Hh w. unfold try_catch.
  destruct (m w) as [[a|e|e] w1] eqn:E.
  - replace w1 with (m w).2 by (by rewrite E). apply Hm.
  - replace w1 with (m w).2 by (by rewrite E).
    apply (effects_seq m (h e)); [done | apply Hh].
  - replace w1 with (m w).2 by (by rewrite E). apply Hm.
Qed.

Lemma effects_settle {A} (m : M World A) :
  Effects P keeps m → Effects P keeps (settle m).
Proof.
  intros Hm w. unfold settle. specialize (Hm w).
  by destruct (m w) as [[a|e|e] w1].
Qed.

Lemma effects_log c : P c → Effects P keeps (log c).
Proof.
  intros Hc w. split; [|done]. exists [c]. split; [done|]. by constructor.
Qed.

Lemma effects_write_file p : Effects P keeps (write_file p).
Proof.
  intros w. split.
  - exists []. by rewrite app_nil_r.
  - intros _. simpl. set_solver.
Qed.

Lemma effects_write_if b p : Effects P keeps (write_if b p).
Proof. destruct b; [apply effects_write_file | apply effects_ret]. Qed.

Lemma effects_existsSync p : Effects P keeps (existsSync p).
Proof. by apply effects_pure. Qed.

Lemma effects_now o : Effects P keeps (now o).
Proof.
  intros w. split; [|done]. exists []. by rewrite app_nil_r.
Qed.

End Effects.

(** Deleting primitives: no promise about files. *)
Lemma effects_remove_file P p : Effects P false (remove_file p).
Proof.
  intros w. split; [|done]. exists []. by rewrite app_nil_r.
Qed.

Lemma effects_unlinkSync P o p : Effects P false (unlinkSync o p).
Proof.
  unfold unlinkSync. apply effects_bind; [apply effects_existsSync|].
  intros []; [|apply effects_throw].
  destruct (unlink_error o p); [apply effects_throw | apply effects_remove_file].
Qed.

Lemma effects_renameSync P a b : Effects P false (renameSync a b).
Proof.
  unfold renameSync. apply effects_bind; [apply effects_existsSync|].
  intros []; [|apply effects_throw].
  apply effects_bind; [apply effects_remove_file | intros; apply effects_write_file].
Qed.

Create HintDb effects.

Lemma allows_any k : allows (λ _, True) k.
Proof. by intros c _. Qed.
#[export] Hint Resolve allows_any : effects.

Ltac allowed :=
  match goal with
  | H : allows ?P _ |- ?P _ => apply H; reflexivity
  end.

Ltac effects_step :=
  lazymatch goal with
  | |- Effects _ _ (mbind _ _) => apply effects_bind; [|intros ?]
  | |- Effects _ _ (mret _) => apply effects_ret
  | |- Effects _ _ (throw _) => apply effects_throw
  | |- Effects _ _ (uncaught _) => apply effects_uncaught
  | |- Effects _ _ (try_catch _ _) => apply effects_try_catch; [|intros ?]
  | |- Effects _ _ (settle _) => apply effects_settle
  | |- Effects _ _ (log _) => apply effects_log; try allowed; try exact I
  | |- Effects _ _ (write_file _) => apply effects_write_file
  | |- Effects _ _ (write_if _ _) => apply effects_write_if
  | |- Effects _ _ (existsSync _) => apply effects_existsSync
  | |- Effects _ _ (now _) => apply effects_now
  | |- Effects _ _ get => apply effects_get
  | |- Effects _ false (unlinkSync _ _) => apply effects_unlinkSync
  | |- Effects _ false (renameSync _ _) => apply effects_renameSync
  | |- Effects _ _ (if ?b then _ else _) => destruct b
  | |- Effects _ _ (match ?x with _ => _ end) => destruct x
  | |- Effects _ _ _ => solve [eauto with effects]
  end.

Ltac effects := repeat effects_step.

Section Services.
Context (P : Call → Prop) (o : Oracle).

Lemma effects_getVideoMetadata keeps path :
  allows P k_ffprobe → Effects P keeps (getVideoMetadata o path).
Proof. intros. unfold getVideoMetadata. effects. Qed.

Lemma effects_run keeps c : allows P k_ffmpeg → Effects P keeps (run o c).
Proof. intros. unfold run. effects. Qed.

Hint Resolve effects_getVideoMetadata effects_run : effects.

Lemma effects_ensureWebCompatible filePath :
  allows P k_recode → Effects P false (YtdlpDownloader.ensureWebCompatible o filePath).
Proof. intros. unfold YtdlpDownloader.ensureWebCompatible. effects. Qed.

Hint Resolve effects_ensureWebCompatible : effects.

Lemma effects_downloadClip clipId outputPath :
  allows P k_ytdlp → allows P k_recode →
  Effects P false (YtdlpDownloader.downloadClip o clipId outputPath).
Proof. intros. unfold YtdlpDownloader.downloadClip. effects. Qed.

Hint Resolve effects_downloadClip : effects.

Lemma effects_download cid clip index :
  allows P k_ytdlp → allows P k_recode →
  Effects P false (VideoService.download o cid clip index).
Proof. intros. unfold VideoService.download. effects. Qed.

Lemma effects_allSettled {A B} (f : A → nat → M World B) keeps index xs :
  (∀ x i, Effects P keeps (f x i)) → Effects P keeps (allSettled_from f index xs).
Proof.
  intros Hf. revert index. induction xs as [|x rest IH]; intros index; simpl.
  - apply effects_ret.
  - apply effects_bind; [apply effects_settle, Hf|]. intros r.
    apply effects_bind; [apply IH|]. intros rs. apply effects_ret.
Qed.

Lemma effects_mergeClips keeps paths name :
  allows P k_ffmpeg → Effects P keeps (VideoService.mergeClips o paths name).
Proof. intros. unfold VideoService.mergeClips. effects. Qed.

Lemma effects_convertToVertical keeps input name position :
  allows P k_ffprobe → allows P k_ffmpeg →
  Effects P keeps (VideoService.convertToVertical o input name position).
Proof. intros. unfold VideoService.convertToVertical. effects. Qed.

Lemma effects_extractedCamera keeps input region name position :
  allows P k_ffprobe → allows P k_ffmpeg →
  Effects P keeps
    (VideoService.convertToVerticalWithExtractedCamera o input region name position).
Proof. intros. unfold VideoService.convertToVerticalWithExtractedCamera. effects. Qed.

Lemma effects_addOutro keeps video outro name :
  allows P k_ffprobe → allows P k_ffmpeg →
  Effects P keeps (VideoService.addOutro o video outro name).
Proof. intros. unfold VideoService.addOutro. effects. Qed.

Lemma effects_generateThumbnail keeps video name timestamp :
  allows P k_screenshots →
  Effects P keeps (VideoService.generateThumbnail o video name timestamp).
Proof. intros. unfold VideoService.generateThumbnail. effects. Qed.

Lemma effects_cleanup paths :
  allows P k_unlink → Effects P false (VideoService.cleanup o paths).
Proof.
  intros H w. rewrite cleanup_run. simpl. split; [|done].
  eexists. split; [done|]. apply Forall_fmap, Forall_true. intros p. by apply H.
Qed.

End Services.

#[export] Hint Resolve effects_getVideoMetadata effects_run effects_ensureWebCompatible
  effects_downloadClip effects_download effects_mergeClips effects_convertToVertical
  effects_extractedCamera effects_addOutro effects_generateThumbnail effects_cleanup
  : effects.


(** ** Effects of [createCompilation] *)

Section Compilation.
Context (P : Call → Prop) (o : Oracle) (options : JobOptions.t).
Hypothesis Hytdlp : allows P k_ytdlp.
Hypothesis Hrecode : allows P k_recode.
Hypothesis Hffprobe : allows P k_ffprobe.
Hypothesis Hffmpeg : allows P k_ffmpeg.
Hypothesis Hscreenshots : allows P k_screenshots.
Hypothesis Hunlink : allows P k_unlink.
Hypothesis Hlog :
  ∀ msg, (msg = "Adding outro..." → Js.truthy (JobOptions.outroPath options) = true) →
         P (console_log msg).

Lemma effects_batch clips : Effects P false (λ w, batch o clips w).
Proof.
  unfold batch. apply effects_bind.
  - apply effects_log, Hlog. intros [=].
  - intros _. apply effects_allSettled. intros. by apply effects_download.
Qed.

Lemma effects_compose keeps cid requested paths :
  Effects P keeps (compose o cid requested paths options).
Proof.
  unfold compose. destruct (Js.truthy (JobOptions.outroPath options)) eqn:Houtro;
    effects; apply Hlog; first [done | intros [=]].
Qed.

Lemma effects_thumbnail keeps cid finalPath : Effects P keeps (thumbnail o cid finalPath).
Proof. unfold thumbnail. effects. apply Hlog. intros [=]. Qed.

Lemma effects_finish cid requested paths :
  Effects P false (finish o cid requested paths options).
Proof.
  intros w. unfold finish.
  pose proof (effects_compose false cid requested paths) as Hc.
  destruct (compose o cid requested paths options w) as [[finalPath|e|e] w1] eqn:E1.
  - pose proof (effects_thumbnail false cid finalPath) as Ht.
    destruct (thumbnail o cid finalPath w1) as [[thumbnailPath|e|e] w2] eqn:E2; simpl.
    + replace w2 with (thumbnail o cid finalPath w1).2 by (by rewrite E2).
      replace w1 with (compose o cid requested paths options w).2 by (by rewrite E1).
      apply (effects_seq P false _ (λ w, VideoService.cleanup o paths (thumbnail o cid finalPath w).2));
        [done|].
      intros w'. apply (effects_seq P false _ (VideoService.cleanup o paths)); [done|].
      by apply effects_cleanup.
    + replace w2 with (thumbnail o cid finalPath w1).2 by (by rewrite E2).
      replace w1 with (compose o cid requested paths options w).2 by (by rewrite E1).
      apply (effects_seq P false _ (λ w, VideoService.cleanup o paths (thumbnail o cid finalPath w).2));
        [done|].
      intros w'. apply (effects_seq P false _ (VideoService.cleanup o paths)); [done|].
      by apply effects_cleanup.
    + replace w2 with (thumbnail o cid finalPath w1).2 by (by rewrite E2).
      replace w1 with (compose o cid requested paths options w).2 by (by rewrite E1).
      apply (effects_seq P false _ (thumbnail o cid finalPath)); [done|]. apply Ht.
  - simpl. replace w1 with (compose o cid requested paths options w).2 by (by rewrite E1).
    apply (effects_seq P false _ (VideoService.cleanup o paths)); [done|].
    by apply effects_cleanup.
  - simpl. replace w1 with (compose o cid requested paths options w).2 by (by rewrite E1).
    apply Hc.
Qed.

Lemma effects_createCompilation clips :
  Effects P false (VideoService.createCompilation o clips options).
Proof.
  intros w. rewrite createCompilation_unfold.
  destruct (ytdlp_version o).
  - pose proof (effects_batch clips w) as Hb.
    destruct (batch o clips w) as [[results|e|e] w1] eqn:E; try exact Hb.
    cbv zeta. destruct (length (fulfilled_values results) =? 0)%nat; [exact Hb|].
    replace w1 with (batch o clips w).2 by (by rewrite E).
    apply (effects_seq P false (λ w, batch o clips w)
             (finish o (uuidv4 o) (length clips) (fulfilled_values results) options)).
    + apply effects_batch.
    + apply effects_finish.
  - split; [|done]. exists []. by rewrite app_nil_r.
Qed.

End Compilation.

(** ** Reading the record of calls *)

Lemma new_calls_app w w' l : calls w' = calls w ++ l → new_calls w w' = l.
Proof. intros E. unfold new_calls. rewrite E. by rewrite drop_app_length. Qed.

Lemma progress_updates_app l1 l2 :
  Queue.progress_updates (l1 ++ l2) = Queue.progress_updates l1 ++ Queue.progress_updates l2.
Proof. apply omap_app. Qed.

Lemma progress_updates_quiet l :
  Forall (λ c, kind c ≠ k_progress) l → Queue.progress_updates l = [].
Proof.
  induction 1 as [|c l Hc _ IH]; [done|].
  change (Queue.progress_updates (c :: l)) with (Queue.progress_updates ([c] ++ l)).
  rewrite progress_updates_app, IH. by destruct c.
Qed.

Lemma createCompilation_quiet o clips options w :
  ∃ new, calls (VideoService.createCompilation o clips options w).2 = calls w ++ new
         ∧ Queue.progress_updates new = [].
Proof.
  destruct (effects_createCompilation (λ c, kind c ≠ k_progress) o options) with (clips := clips) (w := w)
    as [(new & E & Hnew) _]; try (by intros c Hc; rewrite Hc).
  - done.
  - exists new. split; [done|]. by apply progress_updates_quiet.
Qed.

(** The progress updates of one run of the compilation worker. *)
Lemma process_progress o data w :
  let '(r, w') := CompilationRoutes.process o data w in
  Queue.progress_updates (new_calls w w') =
    if (length (CompilationRoutes.JobData.clips data) =? 0)%nat then [10%Z]
    else match r with
         | Ok _ => [10; 30; 100]%Z
         | _ => [10; 30]%Z
         end.
Proof.
  unfold CompilationRoutes.process, try_catch. rewrite bind_run. simpl.
  rewrite length_fmap.
  destruct (length (CompilationRoutes.JobData.clips data) =? 0)%nat eqn:Hn; simpl.
  - by rewrite (new_calls_app _ _ [call_progress 10]).
  - rewrite bind_run. unfold log at 1, modify at 1. simpl. rewrite bind_run.
    match goal with |- context [VideoService.createCompilation o ?c ?op ?w2] =>
      destruct (createCompilation_quiet o c op w2) as (new & E & Hq);
      destruct (VideoService.createCompilation o c op w2) as [[res|e|e] w3]
    end; simpl in *.
    + rewrite (new_calls_app _ _ ([call_progress 10; call_progress 30] ++ new ++ [call_progress 100])).
      * by rewrite !progress_updates_app, Hq.
      * rewrite E. by rewrite <- !app_assoc.
    + rewrite (new_calls_app _ _ ([call_progress 10; call_progress 30] ++ new)).
      * by rewrite !progress_updates_app, Hq.
      * rewrite E. by rewrite <- !app_assoc.
    + rewrite (new_calls_app _ _ ([call_progress 10; call_progress 30] ++ new)).
      * by rewrite !progress_updates_app, Hq.
      * rewrite E. by rewrite <- !app_assoc.
Qed.

(** ** Progress reports, compositionally *)

Section Reports.

Lemma reports_quiet {A} keeps (m : M World A) :
Effects (λ c, kind c ≠ k_progress) keeps m → Reports [] m.
Proof.
intros He w. destruct (He w) as [(new & E & Hq) _]. exists new. split; [done|].
by rewrite progress_updates_quiet.
Qed.

Lemma reports_progress n : Reports [n] (log (call_progress n)).
Proof. intros w. by exists [call_progress n]. Qed.

Lemma reports_bind {A B} l1 l2 (m : M World A) (f : A → M World B) :
Reports l1 m → (∀ a, Reports l2 (f a)) → Reports (l1 ++ l2) (m ≫= f).
Proof.
intros Hm Hf w. rewrite bind_run. destruct (Hm w) as (n1 & E1 & S1).
destruct (m w) as [[a|e|e] w1]; simpl in *.
- destruct (Hf a w1) as (n2 & E2 & S2). exists (n1 ++ n2). split.
  + by rewrite E2, E1, app_assoc.
  + rewrite progress_updates_app. by apply sublist_app.
- exists n1. split; [done|]. by apply sublist_inserts_r.
- exists n1. split; [done|]. by apply sublist_inserts_r.
Qed.

Lemma reports_try_catch {A} l1 l2 (m : M World A) (h : string → M World A) :
Reports l1 m → (∀ e, Reports l2 (h e)) → Reports (l1 ++ l2) (try_catch m h).
Proof.
intros Hm Hh w. unfold try_catch. destruct (Hm w) as (n1 & E1 & S1).
destruct (m w) as [[a|e|e] w1]; simpl in *.
- exists n1. split; [done|]. by apply sublist_inserts_r.
- destruct (Hh e w1) as (n2 & E2 & S2). exists (n1 ++ n2). split.
  + by rewrite E2, E1, app_assoc.
  + rewrite progress_updates_app. by apply sublist_app.
- exists n1. split; [done|]. by apply sublist_inserts_r.
Qed.

Lemma reports_skip {A} l1 l2 (m : M World A) : Reports l2 m → Reports (l1 ++ l2) m.
Proof.
intros Hm w. destruct (Hm w) as (new & E & Hs). exists new. split; [done|].
by apply sublist_inserts_l.
Qed.

End Reports.

Lemma sublist_strongly_sorted {A} (R : A → A → Prop) (l k : list A) :
  sublist l k → StronglySorted R k → StronglySorted R l.
Proof.
  induction 1 as [|x l k Hs IH|x l k Hs IH]; intros Hk; [done| |].
  - apply StronglySorted_inv in Hk as [Hk Hx]. constructor; [by apply IH|].
    rewrite Forall_forall in *. intros y Hy. apply Hx. by eapply elem_of_sublist.
  - apply StronglySorted_inv in Hk as [Hk _]. by apply IH.
Qed.

(** The progress updates of one run of the editor worker come, in
    order, from its six checkpoints. *)
Section Editor.
Import EditorRoutes.
Context (o : Oracle).

Ltac quiet :=
eapply (reports_quiet true); effects;
try first [ apply effects_addOutro | apply effects_convertToVertical
          | apply effects_extractedCamera | apply effects_generateThumbnail ];
by intros c Hc; rewrite Hc.

Lemma reports_stamped prefix suffix : Reports [] (stamped o prefix suffix).
Proof. unfold stamped. quiet. Qed.

Lemma reports_outro_step processedPath : Reports [70%Z] (outro_step o processedPath).
Proof.
unfold outro_step. apply (reports_bind [70%Z] []); [apply reports_progress|intros _].
unfold stamped. quiet.
Qed.

Lemma reports_process data : Reports [10; 30; 50; 70; 90; 100]%Z (process o data).
Proof.
unfold process.
apply (reports_try_catch [10; 30; 50; 70; 90; 100]%Z []);
  [|intros e; quiet].
apply (reports_bind [10%Z] [30; 50; 70; 90; 100]%Z); [apply reports_progress|intros _].
apply (reports_bind [] _); [apply reports_stamped|intros _].
apply (reports_bind [30%Z] [50; 70; 90; 100]%Z).
{ destruct (bool_decide _); [destruct (JobData.camRegion data)|].
  - apply (reports_bind [30%Z] []); [apply reports_progress|intros _].
    apply (reports_bind [] []); [apply reports_stamped|intros ?].
    quiet.
  - apply (reports_bind [30%Z] []); [apply reports_progress|intros _].
    apply (reports_bind [] []); [apply reports_stamped|intros ?].
    quiet.
  - apply (reports_skip [30%Z] []). quiet. }
intros processedPath.
apply (reports_bind [50%Z] [70; 90; 100]%Z).
{ destruct (hasIntro _); [apply reports_progress|].
  apply (reports_skip [50%Z] []). quiet. }
intros _.
apply (reports_bind [70%Z] [90; 100]%Z).
{ destruct (hasOutro _); [apply reports_outro_step|].
  apply (reports_skip [70%Z] []). quiet. }
intros processedPath'.
apply (reports_bind [90%Z] [100%Z]); [apply reports_progress|intros _].
apply (reports_bind [] _); [apply reports_stamped|intros ?].
apply (reports_bind [] _).
{ quiet. }
intros thumbnailPath.
apply (reports_bind [100%Z] []); [apply reports_progress|intros _].
quiet.
Qed.

Lemma editor_progress data w :
Sorted Z.le (0%Z :: Queue.progress_updates (new_calls w (process o data w).2)).
Proof.
destruct (reports_process data w) as (new & E & Hs).
rewrite (new_calls_app _ _ _ E).
apply StronglySorted_Sorted.
apply (sublist_strongly_sorted _ _ [0; 10; 30; 50; 70; 90; 100]%Z).
- by constructor.
- repeat (constructor; [|repeat (constructor; try lia)]). constructor.
Qed.
End Editor.

(** C9: over the progress updates a run of a worker makes, starting from
    the job's initial progress 0, the reported value never decreases;
    this holds for the compilation worker and for the editor worker. *)
Theorem C9_progress_never_decreases (o : Oracle) :
  (∀ data w,
     Sorted Z.le (0%Z :: Queue.progress_updates
                           (new_calls w (CompilationRoutes.process o data w).2)))
  ∧ (∀ data w,
       Sorted Z.le (0%Z :: Queue.progress_updates
                             (new_calls w (EditorRoutes.process o data w).2))).
Proof.
  split; intros data w; [|apply editor_progress].
  pose proof (process_progress o data w) as H.
  destruct (CompilationRoutes.process o data w) as [r w']. simpl. rewrite H.
  destruct (length _ =? 0)%nat; [|destruct r];
    repeat (constructor; try lia).
Qed.



(** ** Computations that always settle *)

Section Settles.

Lemma settles_pure {A} (m : M World A) :
  (∀ w, ∃ r, (∀ e, r ≠ Uncaught e) ∧ (m w).1 = r) → Settles m.
Proof. intros H w e. destruct (H w) as (r & Hr & ->). apply Hr. Qed.

Lemma settles_ret {A} (a : A) : Settles (mret a : M World A).
Proof. by intros w e. Qed.

Lemma settles_throw {A} e : Settles (throw e : M World A).
Proof. by intros w e'. Qed.

Lemma settles_bind {A B} (m : M World A) (f : A → M World B) :
  Settles m → (∀ a, Settles (f a)) → Settles (m ≫= f).
Proof.
  intros Hm Hf w e. rewrite bind_run. specialize (Hm w).
  destruct (m w) as [[a|e'|e'] w1]; simpl in *; [apply Hf|done|by destruct (Hm e')].
Qed.

Lemma settles_try_catch {A} (m : M World A) (h : string → M World A) :
  Settles m → (∀ e, Settles (h e)) → Settles (try_catch m h).
Proof.
  intros Hm Hh w e. unfold try_catch. specialize (Hm w).
  destruct (m w) as [[a|e'|e'] w1]; simpl in *; [done|apply Hh|by destruct (Hm e')].
Qed.

Lemma settles_settle {A} (m : M World A) : Settles m → Settles (settle m).
Proof.
  intros Hm w e. unfold settle. specialize (Hm w).
  destruct (m w) as [[a|e'|e'] w1]; simpl in *; [done|done|by destruct (Hm e')].
Qed.

Lemma settles_modify (f : World → World) : Settles (modify f).
Proof. by intros w e. Qed.

Lemma settles_get : Settles (get : M World World).
Proof. by intros w e. Qed.

End Settles.

Ltac settles_step :=
  lazymatch goal with
  | |- Settles (mbind _ _) => apply settles_bind; [|intros ?]
  | |- Settles (mret _) => apply settles_ret
  | |- Settles (throw _) => apply settles_throw
  | |- Settles (try_catch _ _) => apply settles_try_catch; [|intros ?]
  | |- Settles (settle _) => apply settles_settle
  | |- Settles (modify _) => apply settles_modify
  | |- Settles get => apply settles_get
  | |- Settles (if ?b then _ else _) => destruct b
  | |- Settles (match ?x with _ => _ end) => destruct x
  | |- Settles _ => solve [eauto with settles]
  end.

Ltac settles := repeat settles_step.

Create HintDb settles.

Section SettlingServices.
Context (o : Oracle).

Lemma settles_log c : Settles (log c).
Proof. unfold log. settles. Qed.
Lemma settles_write_file p : Settles (write_file p).
Proof. unfold write_file. settles. Qed.
Lemma settles_remove_file p : Settles (remove_file p).
Proof. unfold remove_file. settles. Qed.
Hint Resolve settles_log settles_write_file settles_remove_file : settles.
Lemma settles_write_if b p : Settles (write_if b p).
Proof. unfold write_if. settles. Qed.
Lemma settles_existsSync p : Settles (existsSync p).
Proof. unfold existsSync. settles. Qed.
Hint Resolve settles_write_if settles_existsSync : settles.
Lemma settles_unlinkSync p : Settles (unlinkSync o p).
Proof. unfold unlinkSync. settles. Qed.
Lemma settles_renameSync a b : Settles (renameSync a b).
Proof. unfold renameSync. settles. Qed.
Lemma settles_now : Settles (now o).
Proof. unfold now. settles. Qed.
Hint Resolve settles_unlinkSync settles_renameSync settles_now : settles.
Lemma settles_getVideoMetadata path : Settles (getVideoMetadata o path).
Proof. unfold getVideoMetadata. settles. Qed.
Lemma settles_run c : Settles (run o c).
Proof. unfold run. settles. Qed.
Hint Resolve settles_getVideoMetadata settles_run : settles.
Lemma settles_ensureWebCompatible filePath :
  Settles (YtdlpDownloader.ensureWebCompatible o filePath).
Proof. unfold YtdlpDownloader.ensureWebCompatible. settles. Qed.
Hint Resolve settles_ensureWebCompatible : settles.
Lemma settles_downloadClip clipId outputPath :
  Settles (YtdlpDownloader.downloadClip o clipId outputPath).
Proof. unfold YtdlpDownloader.downloadClip. settles. Qed.
Hint Resolve settles_downloadClip : settles.
Lemma settles_download cid clip index : Settles (VideoService.download o cid clip index).
Proof. unfold VideoService.download. settles. Qed.
Lemma settles_addOutro video outro name : Settles (VideoService.addOutro o video outro name).
Proof. unfold VideoService.addOutro. settles. Qed.
Lemma settles_extractedCamera input region name position :
  Settles (VideoService.convertToVerticalWithExtractedCamera o input region name position).
Proof. unfold VideoService.convertToVerticalWithExtractedCamera. settles. Qed.
Lemma settles_generateThumbnail video name timestamp :
  Settles (VideoService.generateThumbnail o video name timestamp).
Proof. unfold VideoService.generateThumbnail. settles. Qed.

End SettlingServices.

#[export] Hint Resolve settles_log settles_write_file settles_remove_file settles_write_if
  settles_existsSync settles_unlinkSync settles_renameSync settles_now
  settles_getVideoMetadata settles_run settles_ensureWebCompatible settles_downloadClip
  settles_download settles_addOutro settles_extractedCamera settles_generateThumbnail
  : settles.

(** ** The batch of downloads *)

Section Batch.
Context (o : Oracle).

Lemma download_value cid clip index w v :
  (VideoService.download o cid clip index w).1 = Ok v →
  v = VideoService.clip_filepath o cid index.
Proof.
  unfold VideoService.download, try_catch. rewrite bind_run.
  destruct (YtdlpDownloader.downloadClip _ _ _ _) as [[a|e|e] w1]; simpl; congruence.
Qed.

Lemma allSettled_from_spec cid index clips w :
  ∃ results,
    (allSettled_from (VideoService.download o cid) index clips w).1 = Ok results
    ∧ length results = length clips
    ∧ sublist (fulfilled_values results)
              (imap (λ i _, VideoService.clip_filepath o cid (index + i)) clips).
Proof.
  revert index w. induction clips as [|clip rest IH]; intros index w.
  - exists []. by split_and!.
  - change (allSettled_from (VideoService.download o cid) index (clip :: rest)) with
      (settle (VideoService.download o cid clip index) ≫= λ r,
       allSettled_from (VideoService.download o cid) (S index) rest ≫= λ rs,
       mret (r :: rs)).
    rewrite bind_run. unfold settle.
    pose proof (settles_download o cid clip index w) as Hs.
    pose proof (download_value cid clip index w) as Hv.
    destruct (VideoService.download o cid clip index w) as [[v|e|e] w1]; simpl in *.
    + rewrite bind_run. destruct (IH (S index) w1) as (rs & E & Hlen & Hsub).
      destruct (allSettled_from _ _ _ w1) as [r' w2]. simpl in E. subst r'.
      exists (fulfilled v :: rs). split_and!; [done|by simpl; rewrite Hlen|].
      rewrite (Hv v eq_refl), Nat.add_0_r.
      apply sublist_skip. erewrite imap_ext; [exact Hsub|].
      intros i x _. simpl. f_equal. lia.
    + rewrite bind_run. destruct (IH (S index) w1) as (rs & E & Hlen & Hsub).
      destruct (allSettled_from _ _ _ w1) as [r' w2]. simpl in E. subst r'.
      exists (rejected e :: rs). split_and!; [done|by simpl; rewrite Hlen|].
      apply sublist_cons. erewrite imap_ext; [exact Hsub|].
      intros i x _. simpl. f_equal. lia.
    + by destruct (Hs e).
Qed.

(** The batch settles every download: one result per requested clip,
    and the fulfilled values are clip files in request order. *)
Lemma batch_spec clips w :
  ∃ results w1,
    batch o clips w = (Ok results, w1)
    ∧ length results = length clips
    ∧ sublist (fulfilled_values results)
              (imap (λ i _, VideoService.clip_filepath o (uuidv4 o) i) clips).
Proof.
  unfold batch. rewrite bind_run. simpl. unfold allSettled_map.
  match goal with |- context [allSettled_from ?f 0 clips ?w0] =>
    destruct (allSettled_from_spec (uuidv4 o) 0 clips w0) as (results & E & Hlen & Hsub);
    destruct (allSettled_from f 0 clips w0) as [r w1]
  end.
  simpl in E. subst r. by exists results, w1.
Qed.

End Batch.

(** ** Steps 2 to 6 *)

Lemma unlinked_unlinks (l : list string) : unlinked (call_unlink <$> l) = l.
Proof. induction l as [|p rest IH]; [done|]. simpl. by f_equal. Qed.

Section Finish.
Context (o : Oracle) (cid : string) (requested : nat) (paths : list string)
        (options : JobOptions.t).

Lemma compose_spec w :
  ∃ announce rest,
    calls (compose o cid requested paths options w).2 =
      calls w ++ [console_log announce; console_log "Merging clips...";
                  call_ffmpeg (merge_command o cid paths)] ++ rest
    ∧ (∀ p, (compose o cid requested paths options w).1 = Ok p →
            (merged_path o cid) ∈ files (compose o cid requested paths options w).2).
Proof.
  unfold compose. rewrite bind_run. simpl. rewrite bind_run. simpl. rewrite bind_run.
  unfold VideoService.mergeClips, run. rewrite bind_run. simpl.
  fold (merged_path o cid). fold (merge_command o cid paths).
  destruct (ffmpeg o (merge_command o cid paths)) as [|message written]; simpl.
  - match goal with |- context [calls (?m ?w4).2] =>
      assert (Effects (λ _, True) true m) as He by effects;
      destruct (He w4) as [(rest & E & _) Hk]; destruct (m w4) as [r w5]
    end.
    simpl in *. eexists _, rest. split.
    + rewrite E. by rewrite <- !app_assoc.
    + intros _ _. apply Hk; [done|]. set_solver.
  - rewrite bind_run. destruct written; simpl;
      (eexists _, []; split; [by rewrite <- !app_assoc|done]).
Qed.

Lemma compose_outro w :
  Js.truthy (JobOptions.outroPath options) = true →
  ∀ p, (compose o cid requested paths options w).1 = Ok p →
       ∃ before after,
         calls (compose o cid requested paths options w).2 =
           calls w ++ before ++ console_log "Adding outro..." :: after.
Proof.
  intros Houtro p. unfold compose. rewrite Houtro.
  rewrite bind_run. simpl. rewrite bind_run. simpl. rewrite bind_run.
  match goal with |- context [VideoService.mergeClips o ?a ?b ?w2] =>
    destruct (effects_mergeClips (λ _, True) o false a b (allows_any _) w2)
      as [(n3 & E3 & _) _];
    destruct (VideoService.mergeClips o a b w2) as [[mergedPath|e|e] w3]
  end; simpl in *; [|done|done].
  rewrite bind_run.
  match goal with |- context [match ?m w3 with _ => _ end] =>
    assert (Effects (λ _, True) false m) as H4 by effects;
    destruct (H4 w3) as [(n4 & E4 & _) _]; clear H4;
    destruct (m w3) as [[finalPath|e|e] w4]
  end; simpl in *; [|done|done].
  rewrite bind_run. simpl. intros _.
  match goal with |- context [VideoService.addOutro o ?a ?b ?c ?w5] =>
    destruct (effects_addOutro (λ _, True) o false a b c (allows_any _) (allows_any _) w5)
      as [(n5 & E5 & _) _];
    destruct (VideoService.addOutro o a b c w5) as [r w6]
  end; simpl in *.
  eexists (_ :: _ :: n3 ++ n4), n5. rewrite E5, E4, E3. simpl.
  by rewrite <- !app_assoc.
Qed.

Lemma thumbnail_run finalPath w :
  let name := cid +:+ "_thumb.jpg" in
  let w1 := {| files := files w;
               calls := calls w ++ [console_log "Generating thumbnail...";
                                    call_screenshots finalPath name "00:00:01"];
               ticks := ticks w |} in
  thumbnail o cid finalPath w =
    match screenshots o finalPath name "00:00:01" with
    | ffmpeg_end =>
        (Ok (Js.path_join (outputDir o) name),
         {| files := {[Js.path_join (outputDir o) name]} ∪ files w;
            calls := calls w1; ticks := ticks w |})
    | ffmpeg_error message written =>
        (Throw message, (write_if written (Js.path_join (outputDir o) name) w1).2)
    end.
Proof.
  unfold thumbnail, VideoService.generateThumbnail. rewrite bind_run. simpl.
  rewrite bind_run. simpl.
  destruct (screenshots o finalPath _ _) as [|message written]; simpl.
  - by rewrite <- !app_assoc.
  - rewrite bind_run. destruct written; simpl; by rewrite <- !app_assoc.
Qed.

Lemma finish_calls w :
  ∃ announce rest,
    calls (finish o cid requested paths options w).2 =
      calls w ++ [console_log announce; console_log "Merging clips...";
                  call_ffmpeg (merge_command o cid paths)] ++ rest.
Proof.
  unfold finish. destruct (compose_spec w) as (announce & rest & E & _).
  destruct (compose o cid requested paths options w) as [[finalPath|e|e] w1]; simpl in E.
  - rewrite thumbnail_run.
    destruct (screenshots o finalPath _ _) as [|message written];
      rewrite cleanup_run; [|destruct written]; simpl; rewrite E;
      eexists announce, _; rewrite <- !app_assoc; simpl; reflexivity.
  - rewrite cleanup_run. simpl. rewrite E.
    eexists announce, _. rewrite <- !app_assoc. simpl. reflexivity.
  - by exists announce, rest.
Qed.

Lemma removed_gone (X : gset string) p :
  p ∈ paths → unlink_error o p = None → p ∉ X ∖ list_to_set (removable o paths).
Proof.
  intros Hp Hu. apply not_elem_of_difference. right.
  apply elem_of_list_to_set, list_elem_of_filter. done.
Qed.

Lemma others_stay (X : gset string) p :
  p ∈ X → p ∉ paths → p ∈ X ∖ list_to_set (removable o paths).
Proof.
  intros Hp Hnot. apply elem_of_difference. split; [done|].
  rewrite elem_of_list_to_set. by intros [_ ?]%list_elem_of_filter.
Qed.

(** Whenever the run settles, [cleanup] has run on the downloaded
    paths, after everything else. *)
Lemma finish_cleanup w :
  (∀ e, (finish o cid requested paths options w).1 ≠ Uncaught e) →
  ∃ w2 steps,
    calls w2 = calls w ++ steps
    ∧ unlinked steps = []
    ∧ files w ⊆ files w2
    ∧ files (finish o cid requested paths options w).2
      = files w2 ∖ list_to_set (removable o paths)
    ∧ calls (finish o cid requested paths options w).2
      = calls w2 ++ (call_unlink <$> paths).
Proof.
  unfold finish.
  assert (Effects (λ c, kind c ≠ k_unlink) true (compose o cid requested paths options))
    as Hc.
  { apply effects_compose; try (by intros c Hk; rewrite Hk). by intros msg _. }
  destruct (Hc w) as [(n1 & E1 & H1) K1]. specialize (K1 eq_refl).
  assert (∀ l, Forall (λ c, kind c ≠ k_unlink) l → unlinked l = []) as Hquiet.
  { induction 1 as [|c l Hk _ IH]; [done|]. destruct c; try done. }
  destruct (compose o cid requested paths options w) as [[finalPath|e|e] w1]; simpl in *.
  - assert (Effects (λ c, kind c ≠ k_unlink) true (thumbnail o cid finalPath)) as Ht.
    { apply (effects_thumbnail _ o options); try (by intros c Hk; rewrite Hk).
      by intros msg _. }
    destruct (Ht w1) as [(n2 & E2 & H2) K2]. specialize (K2 eq_refl).
    destruct (thumbnail o cid finalPath w1) as [[thumbnailPath|e|e] w2]; simpl in *.
    + intros _. exists w2, (n1 ++ n2). rewrite cleanup_run. simpl.
      split_and!; [by rewrite E2, E1, app_assoc| |set_solver|done|done].
      apply Hquiet, Forall_app; done.
    + intros _. exists w2, (n1 ++ n2). rewrite cleanup_run. simpl.
      split_and!; [by rewrite E2, E1, app_assoc| |set_solver|done|done].
      apply Hquiet, Forall_app; done.
    + intros H. by destruct (H e).
  - intros _. exists w1, n1. rewrite cleanup_run. simpl.
    split_and!; [done|by apply Hquiet|done|done|done].
  - intros H. by destruct (H e).
Qed.

(** A failed merge fails the run. *)
Lemma finish_merge_error w message written :
  ffmpeg o (merge_command o cid paths) = ffmpeg_error message written →
  (finish o cid requested paths options w).1 = Throw message.
Proof.
  intros Hm. unfold finish, compose.
  rewrite bind_run. simpl. rewrite bind_run. simpl. rewrite bind_run.
  unfold VideoService.mergeClips, run. rewrite bind_run. simpl.
  fold (merged_path o cid). fold (merge_command o cid paths). rewrite Hm.
  rewrite bind_run. by destruct written.
Qed.

(** An exception that nothing catches leaves no time for [cleanup]. *)
Lemma finish_uncaught w e :
  (finish o cid requested paths options w).1 = Uncaught e →
  unlinked (new_calls w (finish o cid requested paths options w).2) = [].
Proof.
  unfold finish.
  assert (Effects (λ c, kind c ≠ k_unlink) true (compose o cid requested paths options))
    as Hc.
  { apply effects_compose; try (by intros c Hk; rewrite Hk). by intros msg _. }
  destruct (Hc w) as [(n1 & E1 & H1) _].
  assert (∀ l, Forall (λ c, kind c ≠ k_unlink) l → unlinked l = []) as Hquiet.
  { induction 1 as [|c l Hk _ IH]; [done|]. destruct c; try done. }
  destruct (compose o cid requested paths options w) as [[finalPath|e'|e'] w1]; simpl in *;
    [|done|].
  - assert (Effects (λ c, kind c ≠ k_unlink) true (thumbnail o cid finalPath)) as Ht.
    { apply (effects_thumbnail _ o options); try (by intros c Hk; rewrite Hk).
      by intros msg _. }
    destruct (Ht w1) as [(n2 & E2 & H2) _].
    destruct (thumbnail o cid finalPath w1) as [[thumbnailPath|e'|e'] w2]; simpl in *;
      [done|done|].
    intros _. erewrite new_calls_app; [|by rewrite E2, E1, <- app_assoc].
    apply Hquiet, Forall_app; done.
  - intros _. rewrite (new_calls_app _ _ _ E1). by apply Hquiet.
Qed.

Lemma finish_cleans w :
  (∀ e, (finish o cid requested paths options w).1 ≠ Uncaught e) →
  ∀ p, p ∈ paths → unlink_error o p = None →
       p ∉ files (finish o cid requested paths options w).2.
Proof.
  intros H p Hp Hu. destruct (finish_cleanup w H) as (w2 & steps & _ & _ & _ & -> & _).
  by apply removed_gone.
Qed.

Lemma finish_unlinks w :
  (∀ e, (finish o cid requested paths options w).1 ≠ Uncaught e) →
  unlinked (new_calls w (finish o cid requested paths options w).2) = paths.
Proof.
  intros H. destruct (finish_cleanup w H) as (w2 & steps & E & Hq & _ & _ & Ec).
  erewrite new_calls_app; [|by rewrite Ec, E, <- app_assoc].
  unfold unlinked in *. rewrite omap_app, Hq. apply unlinked_unlinks.
Qed.

(** The steps after the downloads remove nothing but the downloaded
    files. *)
Lemma finish_spares w p :
  p ∈ files w → p ∉ paths → p ∈ files (finish o cid requested paths options w).2.
Proof.
  intros Hp Hnot. unfold finish.
  destruct (effects_compose (λ _, True) o options) with
    (keeps := true) (cid := cid) (requested := requested) (paths := paths) (w := w)
    as [_ K1]; try apply allows_any; [done|]. specialize (K1 eq_refl).
  destruct (compose o cid requested paths options w) as [[finalPath|e|e] w1]; simpl in *.
  - destruct (effects_thumbnail (λ _, True) o options) with
      (keeps := true) (cid := cid) (finalPath := finalPath) (w := w1)
      as [_ K2]; try apply allows_any; [done|]. specialize (K2 eq_refl).
    destruct (thumbnail o cid finalPath w1) as [[thumbnailPath|e|e] w2]; simpl in *;
      rewrite ?cleanup_run; simpl; first [apply others_stay; [|done]|idtac]; set_solver.
  - rewrite cleanup_run. simpl. apply others_stay; [|done]. set_solver.
  - set_solver.
Qed.

Lemma finish_ok w res :
  (finish o cid requested paths options w).1 = Ok res →
  (merged_path o cid ∉ paths → merged_path o cid ∈ files (finish o cid requested paths options w).2)
  ∧ ∃ finalPath,
      res = result_of cid finalPath (Js.path_join (outputDir o) (cid +:+ "_thumb.jpg"))
      ∧ screenshots o finalPath (cid +:+ "_thumb.jpg") "00:00:01" = ffmpeg_end.
Proof.
  unfold finish. destruct (compose_spec w) as (announce & rest & _ & Hm).
  destruct (compose o cid requested paths options w) as [[finalPath|e|e] w1];
    simpl in *; [|done|done].
  rewrite thumbnail_run.
  destruct (screenshots o finalPath _ _) as [|message written] eqn:Hshot;
    rewrite ?cleanup_run; simpl; [|done].
  intros [= <-]. split.
  - intros Hnot. specialize (Hm finalPath eq_refl). apply others_stay; [set_solver|done].
  - by exists finalPath.
Qed.

Lemma finish_thumbnail w video name timestamp message written :
  call_screenshots video name timestamp
    ∈ new_calls w (finish o cid requested paths options w).2 →
  screenshots o video name timestamp = ffmpeg_error message written →
  (finish o cid requested paths options w).1 = Throw message.
Proof.
  unfold finish.
  assert (Effects (λ c, kind c ≠ k_screenshots) false
                  (compose o cid requested paths options)) as Hc.
  { apply effects_compose; try (by intros c Hk; rewrite Hk). by intros msg _. }
  destruct (Hc w) as [(new & E & Hnew) _].
  assert (call_screenshots video name timestamp ∉ new) as Hnot.
  { intros Hin. by apply (proj1 (Forall_forall _ _) Hnew) in Hin. }
  assert (call_screenshots video name timestamp ∉ (call_unlink <$> paths)) as Hnotu.
  { intros (p & [=] & _)%list_elem_of_fmap. }
  destruct (compose o cid requested paths options w) as [[finalPath|e|e] w1]; simpl in E.
  - rewrite thumbnail_run.
    destruct (screenshots o finalPath _ _) as [|message' written'] eqn:Hshot;
      rewrite cleanup_run; [|destruct written']; simpl;
      (erewrite new_calls_app; [|simpl; rewrite E, <- !app_assoc; reflexivity]);
      rewrite !elem_of_app, !elem_of_cons; intros Hin Herr;
      destruct Hin as [?|[[[=]|[[= -> -> ->]|[]%elem_of_nil]]|?]]; try done;
      congruence.
  - rewrite cleanup_run. simpl.
    erewrite new_calls_app; [|simpl; rewrite E, <- !app_assoc; reflexivity].
    rewrite elem_of_app. by intros [?|?].
  - simpl. erewrite new_calls_app; [|exact E]. done.
Qed.
End Finish.

Lemma ffmpeg_commands_app l1 l2 :
  ffmpeg_commands (l1 ++ l2) = ffmpeg_commands l1 ++ ffmpeg_commands l2.
Proof. apply omap_app. Qed.

Lemma ffmpeg_commands_quiet l :
  Forall (λ c, kind c ≠ k_ffmpeg) l → ffmpeg_commands l = [].
Proof.
  induction 1 as [|c l Hc _ IH]; [done|].
  change (ffmpeg_commands (c :: l)) with (ffmpeg_commands ([c] ++ l)).
  rewrite ffmpeg_commands_app, IH. by destruct c.
Qed.

Lemma effects_new_calls {A} P keeps (m : M World A) w :
  Effects P keeps m →
  calls (m w).2 = calls w ++ new_calls w (m w).2 ∧ Forall P (new_calls w (m w).2).
Proof.
  intros H. destruct (H w) as [(new & E & Hnew) _].
  by rewrite (new_calls_app _ _ new E).
Qed.

Lemma new_calls_trans w w1 w2 l1 l2 :
  calls w1 = calls w ++ l1 → calls w2 = calls w1 ++ l2 → new_calls w w2 = l1 ++ l2.
Proof. intros E1 E2. apply new_calls_app. by rewrite E2, E1, app_assoc. Qed.

Lemma new_calls_refl w : new_calls w w = [].
Proof. apply new_calls_app. by rewrite app_nil_r. Qed.

(** The calls of the download batch are yt-dlp runs and re-encodes,
    after the announcement. *)
Lemma batch_calls o clips w :
  ∃ dl, calls (batch o clips w).2 = calls w ++ dl
        ∧ Forall (λ c, kind c ∈ [k_log; k_ytdlp; k_recode]) dl.
Proof.
  destruct (effects_batch (λ c, kind c ∈ [k_log; k_ytdlp; k_recode]) o
              {| JobOptions.convertToVertical := false; JobOptions.cameraPosition := None;
                 JobOptions.addOutro := false; JobOptions.outroPath := None |})
    with (clips := clips) (w := w) as [(dl & E & Hdl) _].
  - intros c ->. set_solver.
  - intros c ->. set_solver.
  - intros msg _. set_solver.
  - by exists dl.
Qed.

(** ** The compilation worker *)

Section Worker.
Import CompilationRoutes.
Context (o : Oracle) (data : JobData.t).

Lemma process_run w :
  (length (JobData.clips data) =? 0)%nat = false →
  process o data w =
    match VideoService.createCompilation o (withUrls o <$> JobData.clips data)
                                         (JobData.options data) (started w) with
    | (Ok result, w') =>
        (Ok (titled data result),
         {| files := files w'; calls := calls w' ++ [call_progress 100];
            ticks := ticks w' |})
    | (Throw e, w') => (Throw e, w')
    | (Uncaught e, w') => (Uncaught e, w')
    end.
Proof.
  intros Hn. unfold process, try_catch. rewrite bind_run. simpl.
  rewrite length_fmap, Hn. rewrite bind_run. unfold log at 1, modify at 1. simpl.
  rewrite bind_run. unfold started. rewrite <- app_assoc. simpl.
  by destruct (VideoService.createCompilation _ _ _ _) as [[result|e|e] w'].
Qed.

Lemma process_empty w :
  (length (JobData.clips data) =? 0)%nat = true →
  process o data w =
    (Throw "No valid clips found to process",
     {| files := files w; calls := calls w ++ [call_progress 10]; ticks := ticks w |}).
Proof.
  intros Hn. unfold process, try_catch. rewrite bind_run. simpl.
  by rewrite length_fmap, Hn.
Qed.

(** The calls of a run: the two progress updates, the calls of
    [createCompilation], and the last update when it returned. *)
Lemma process_new_calls w :
  (length (JobData.clips data) =? 0)%nat = false →
  let cc := VideoService.createCompilation o (withUrls o <$> JobData.clips data)
                                           (JobData.options data) (started w) in
  new_calls w (process o data w).2 =
    [call_progress 10; call_progress 30] ++ new_calls (started w) cc.2
    ++ match cc.1 with Ok _ => [call_progress 100] | _ => [] end.
Proof.
  intros Hn. rewrite (process_run w Hn). cbv zeta.
  destruct (effects_new_calls (λ _, True) false
              (VideoService.createCompilation o (withUrls o <$> JobData.clips data)
                 (JobData.options data)) (started w)) as [E _].
  { apply effects_createCompilation; try apply allows_any. done. }
  destruct (VideoService.createCompilation _ _ _ _) as [[result|e|e] w']; simpl in *;
    apply new_calls_app; rewrite ?E; simpl; by rewrite <- ?app_assoc, ?app_nil_r.
Qed.

End Worker.

(** ** The outro step *)

Lemma announced_elem message l : announced message l = true ↔ console_log message ∈ l.
Proof.
  unfold announced. rewrite existsb_exists. split.
  - intros (c & Hc%list_elem_of_In & Hm). destruct c; try done.
    apply String.eqb_eq in Hm. by subst.
  - intros H. exists (console_log message). split; [by apply list_elem_of_In|].
    apply String.eqb_refl.
Qed.

Lemma announced_absent message l :
  Forall (λ c, c ≠ console_log message) l → announced message l = false.
Proof.
  intros H. destruct (announced message l) eqn:E; [|done].
  apply announced_elem in E. by apply (proj1 (Forall_forall _ _) H) in E.
Qed.

Section OutroStep.
Context (o : Oracle) (clips : list Clip.t) (options : JobOptions.t).

Lemma finish_outro cid requested paths w res :
  (finish o cid requested paths options w).1 = Ok res →
  Js.truthy (JobOptions.outroPath options) = true →
  console_log "Adding outro..." ∈ new_calls w (finish o cid requested paths options w).2.
Proof.
  unfold finish. intros Hok Houtro.
  pose proof (compose_outro o cid requested paths options w Houtro) as Hc.
  destruct (compose o cid requested paths options w) as [[finalPath|e|e] w1];
    simpl in *; [|done|done].
  destruct (Hc finalPath eq_refl) as (before & after & E).
  rewrite thumbnail_run in *.
  destruct (screenshots o finalPath _ _) as [|message written];
    rewrite cleanup_run in *; simpl in *; [|done].
  erewrite new_calls_app; [|simpl; rewrite E, <- !app_assoc; reflexivity].
  set_solver.
Qed.

Lemma createCompilation_outro w res :
  (VideoService.createCompilation o clips options w).1 = Ok res →
  Js.truthy (JobOptions.outroPath options) = true →
  console_log "Adding outro..."
    ∈ new_calls w (VideoService.createCompilation o clips options w).2.
Proof.
  rewrite createCompilation_unfold. destruct (ytdlp_version o); [|done].
  destruct (batch_spec o clips w) as (results & w1 & E & _).
  destruct (batch_calls o clips w) as (dl & Edl & _). rewrite E in *. simpl in Edl.
  cbv zeta. destruct (length (fulfilled_values results) =? 0)%nat; [done|].
  intros Hok Houtro.
  pose proof (finish_outro _ _ _ _ _ Hok Houtro) as Hin.
  destruct (effects_new_calls (λ _, True) false
              (finish o (uuidv4 o) (length clips) (fulfilled_values results) options) w1)
    as [Ef _].
  { apply effects_finish; try apply allows_any. done. }
  rewrite (new_calls_trans _ _ _ _ _ Edl Ef). set_solver.
Qed.

Lemma createCompilation_no_outro w :
  Js.truthy (JobOptions.outroPath options) = false →
  Forall (λ c, c ≠ console_log "Adding outro...")
         (new_calls w (VideoService.createCompilation o clips options w).2).
Proof.
  intros Houtro.
  apply (effects_new_calls (λ c, c ≠ console_log "Adding outro...") false).
  apply effects_createCompilation; try (by intros c Hk [= ->]).
  intros msg Hmsg [= ->]. rewrite Houtro in Hmsg. by specialize (Hmsg eq_refl).
Qed.

(** [createCompilation] never reads [options.addOutro]. *)
Lemma createCompilation_ignores_addOutro w (b : bool) :
  VideoService.createCompilation o clips
    {| JobOptions.convertToVertical := JobOptions.convertToVertical options;
       JobOptions.cameraPosition := JobOptions.cameraPosition options;
       JobOptions.addOutro := b;
       JobOptions.outroPath := JobOptions.outroPath options |} w
  = VideoService.createCompilation o clips options w.
Proof. by rewrite !createCompilation_unfold. Qed.

End OutroStep.

(** ** Concrete runs *)

(** The specification's reading of the thumbnail step fails on this run:
    merge and reframe succeed, the screenshot fails, and the worker
    throws instead of returning a result without thumbnail. *)
Lemma C2_counterexample :
  ¬ thumbnail_nonfatal Example.no_screenshot (Example.job None None) Example.fresh.
Proof.
  unfold thumbnail_nonfatal.
  destruct (CompilationRoutes.process _ _ _) as [r w'] eqn:E.
  vm_compute in E. injection E as <- <-.
  intros H. destruct H as (res & [=] & _); by vm_compute.
Qed.

Section Thumbnail.
Context (o : Oracle).

Lemma createCompilation_thumbnail clips options w video name timestamp message written :
  call_screenshots video name timestamp
    ∈ new_calls w (VideoService.createCompilation o clips options w).2 →
  screenshots o video name timestamp = ffmpeg_error message written →
  (VideoService.createCompilation o clips options w).1 = Throw message.
Proof.
  rewrite createCompilation_unfold. destruct (ytdlp_version o).
  - destruct (batch_spec o clips w) as (results & w1 & E & _).
    destruct (batch_calls o clips w) as (dl & Edl & Hdl). rewrite E in *. simpl in Edl.
    assert (call_screenshots video name timestamp ∉ dl) as Hnot.
    { intros Hin. apply (proj1 (Forall_forall _ _) Hdl) in Hin. simpl in Hin. set_solver. }
    cbv zeta. destruct (length (fulfilled_values results) =? 0)%nat.
    + simpl. by rewrite (new_calls_app _ _ dl Edl).
    + destruct (effects_new_calls (λ _, True) false
                  (finish o (uuidv4 o) (length clips) (fulfilled_values results) options) w1)
        as [Ef _].
      { apply effects_finish; try apply allows_any. done. }
      rewrite (new_calls_trans _ _ _ _ _ Edl Ef), elem_of_app.
      intros [?|Hin] Herr; [done|]. by eapply finish_thumbnail.
  - simpl. rewrite new_calls_refl. by intros ?%elem_of_nil.
Qed.

Lemma createCompilation_ok clips options w res :
  (VideoService.createCompilation o clips options w).1 = Ok res →
  ∃ finalPath,
    res = result_of (uuidv4 o) finalPath
                    (Js.path_join (outputDir o) (uuidv4 o +:+ "_thumb.jpg"))
    ∧ screenshots o finalPath (uuidv4 o +:+ "_thumb.jpg") "00:00:01" = ffmpeg_end.
Proof.
  rewrite createCompilation_unfold. destruct (ytdlp_version o); [|done].
  destruct (batch_spec o clips w) as (results & w1 & E & _). rewrite E.
  cbv zeta. destruct (length (fulfilled_values results) =? 0)%nat; [done|].
  intros Hok. by destruct (finish_ok _ _ _ _ _ _ _ Hok) as (_ & Hres).
Qed.

(** C2 (amended): a failure of the thumbnail step is fatal. If the
    screenshot call a run makes fails, the worker throws that error and
    the job is failed; and every completed job carries a thumbnail
    path. *)
Theorem C2_thumbnail_failure_fails_job (data : CompilationRoutes.JobData.t) (w : World) :
  let '(r, w') := CompilationRoutes.process o data w in
  (∀ video name timestamp message written,
      call_screenshots video name timestamp ∈ new_calls w w' →
      screenshots o video name timestamp = ffmpeg_error message written →
      r = Throw message ∧ Queue.state_after r = Queue.failed)
  ∧ (∀ res, r = Ok res → ∃ t, CompilationResult.thumbnailPath res = Some t).
Proof.
  destruct (length (CompilationRoutes.JobData.clips data) =? 0)%nat eqn:Hn.
  - rewrite (process_empty o data w Hn). split; [|done].
    intros video name timestamp message written.
    rewrite (new_calls_app _ _ [call_progress 10]) by done. set_solver.
  - pose proof (process_new_calls o data w Hn) as Hnew.
    rewrite (process_run o data w Hn) in *. cbv zeta in Hnew.
    pose proof (createCompilation_thumbnail
                  (CompilationRoutes.withUrls o <$> CompilationRoutes.JobData.clips data)
                  (CompilationRoutes.JobData.options data) (started w)) as Hth.
    pose proof (createCompilation_ok
                  (CompilationRoutes.withUrls o <$> CompilationRoutes.JobData.clips data)
                  (CompilationRoutes.JobData.options data) (started w)) as Hok.
    destruct (VideoService.createCompilation _ _ _ _) as [[result|e|e] w1];
      simpl in *; rewrite Hnew; split.
    + intros video name timestamp message written Hin Herr.
      assert (call_screenshots video name timestamp ∈ new_calls (started w) w1) as Hin'
        by set_solver.
      by specialize (Hth _ _ _ _ _ Hin' Herr).
    + intros res [= <-]. destruct (Hok result eq_refl) as (finalPath & -> & _).
      by eexists.
    + intros video name timestamp message written Hin Herr.
      assert (call_screenshots video name timestamp ∈ new_calls (started w) w1) as Hin'
        by set_solver.
      specialize (Hth _ _ _ _ _ Hin' Herr). by injection Hth as ->.
    + done.
    + intros video name timestamp message written Hin Herr.
      assert (call_screenshots video name timestamp ∈ new_calls (started w) w1) as Hin'
        by set_solver.
      by specialize (Hth _ _ _ _ _ Hin' Herr).
    + done.
Qed.
End Thumbnail.


Section Outro.
Import CompilationRoutes.

(** The editor worker wraps the same call in [try]/[catch]: its outro
    step never fails. *)
Lemma try_catch_returns {A} (m : M World A) (a : A) w :
  Settles m → ∃ p w', try_catch m (λ _, mret a) w = (Ok p, w').
Proof.
  intros Hs. unfold try_catch. specialize (Hs w).
  destruct (m w) as [[p|e|e] w']; [by eexists _, _ | by eexists _, _ | by destruct (Hs e)].
Qed.

Lemma editor_outro_step_returns o processedPath w :
  ∃ p w', EditorRoutes.outro_step o processedPath w = (Ok p, w').
Proof.
  unfold EditorRoutes.outro_step. rewrite bind_run. simpl.
  apply try_catch_returns. unfold EditorRoutes.stamped. settles.
Qed.

(** With an unreadable outro the editor job completes on the reframed
    video. *)
Lemma editor_outro_failure_nonfatal :
  let '(r, w') := EditorRoutes.process Example.broken_outro Example.edit Example.fresh in
  (CompilationResult.videoPath <$> Queue.returnvalue r)
    = Some "uploads/compilations/vertical_1700000000001.mp4"
  ∧ Queue.state_after r = Queue.completed.
Proof. by vm_compute. Qed.

(** The specification's reading of the create route fails on this
    request: it carries an [outroPath], the route copies it into the
    job, and the job runs the outro step although [addOutro] is
    [false]. *)
Lemma C10_counterexample :
  ¬ outro_never_runs (Example.request (Some false) (Some "outros/outro.mp4"))
                     1700000000000 Example.studio Example.fresh.
Proof. intros H. specialize (H _ eq_refl). by vm_compute in H. Qed.

(** C10 (amended): the create route copies [outroPath] from the
    request; a job runs the outro step only if its [outroPath] is set,
    and every job that completes with [outroPath] set has run it; the
    [addOutro] flag changes nothing. *)
Theorem C10_outro_runs_iff_outroPath (body : RequestBody.t) (createdAt : Z)
    (data : JobData.t) (o : Oracle) (w : World) :
  create body createdAt = enqueued data →
  let options := JobData.options data in
  let '(r, w') := process o data w in
  JobOptions.outroPath options = RequestBody.options body ≫= RequestOptions.outroPath
  ∧ (announced "Adding outro..." (new_calls w w') = true →
     Js.truthy (JobOptions.outroPath options) = true)
  ∧ (∀ res, r = Ok res → Js.truthy (JobOptions.outroPath options) = true →
            announced "Adding outro..." (new_calls w w') = true)
  ∧ (∀ b, process o (with_addOutro b data) w = process o data w).
Proof.
  intros Hcreate. cbv zeta.
  assert (JobOptions.outroPath (JobData.options data)
          = RequestBody.options body ≫= RequestOptions.outroPath) as Hpath.
  { unfold create in Hcreate.
    destruct (RequestBody.clips body) as [[|c l]|]; try done.
    injection Hcreate as <-. simpl. by destruct (RequestBody.options body). }
  assert (∀ b, process o (with_addOutro b data) w = process o data w) as Hflag.
  { intros b. destruct (length (JobData.clips data) =? 0)%nat eqn:Hn.
    - by rewrite !process_empty.
    - rewrite !process_run by done. simpl.
      by rewrite createCompilation_ignores_addOutro. }
  destruct (process o data w) as [r w'] eqn:E.
  split_and!; [done| | |done].
  - destruct (Js.truthy _) eqn:Ht; [done|]. intros Hann.
    rewrite announced_absent in Hann; [done|].
    destruct (length (JobData.clips data) =? 0)%nat eqn:Hn.
    + rewrite (process_empty o data w Hn) in E. injection E as <- <-.
      rewrite (new_calls_app _ _ [call_progress 10]) by done. by repeat constructor.
    + pose proof (process_new_calls o data w Hn) as Hnew. cbv zeta in Hnew.
      rewrite E in Hnew. simpl in Hnew. rewrite Hnew.
      do 2 (constructor; [done|]). apply Forall_app; split.
      * by apply createCompilation_no_outro.
      * destruct (_.1); by repeat constructor.
  - intros res -> Ht. apply announced_elem.
    destruct (length (JobData.clips data) =? 0)%nat eqn:Hn.
    + by rewrite (process_empty o data w Hn) in E.
    + pose proof (process_new_calls o data w Hn) as Hnew. cbv zeta in Hnew.
      rewrite E in Hnew. simpl in Hnew. rewrite Hnew.
      rewrite (process_run o data w Hn) in E.
      pose proof (createCompilation_outro o (withUrls o <$> JobData.clips data)
                    (JobData.options data) (started w)) as Hyes.
      destruct (VideoService.createCompilation _ _ _ _) as [[result|e|e] w1];
        simpl in *; [|done|done].
      specialize (Hyes result eq_refl Ht). set_solver.
Qed.
End Outro.

(** ** File names: no output file is a clip file *)

Section Names.

Lemma chars_app (s1 s2 : string) :
  String.list_ascii_of_string (s1 +:+ s2) = String.list_ascii_of_string s1 ++ String.list_ascii_of_string s2.
Proof. induction s1 as [|c s1 IH]; simpl; [done|]. by f_equal. Qed.

Lemma string_app_assoc (s1 s2 s3 : string) : (s1 +:+ s2) +:+ s3 = s1 +:+ (s2 +:+ s3).
Proof.
  induction s1 as [|c s1 IH]; [done|].
  change (String c ((s1 +:+ s2) +:+ s3) = String c (s1 +:+ (s2 +:+ s3))).
  by rewrite IH.
Qed.

Lemma pretty_N_go_app (x : N) (s : string) : ∃ p, pretty_N_go x s = p +:+ s.
Proof.
  revert s. induction (N.lt_wf_0 x) as [x _ IH]; intros s.
  destruct (decide (x = 0)%N) as [->|Hx].
  - exists "". by rewrite pretty_N_go_0.
  - rewrite pretty_N_go_step by lia.
    destruct (IH (x `div` 10)%N) with (s := String (pretty_N_char (x `mod` 10)) s)
      as (p & ->).
    { apply N.div_lt; lia. }
    exists (p +:+ String (pretty_N_char (x `mod` 10)) ""). by rewrite string_app_assoc.
Qed.

Lemma pretty_N_char_digit (x : N) :
  pretty_N_char x ≠ "d"%char ∧ pretty_N_char x ≠ "l"%char.
Proof. unfold pretty_N_char. by repeat case_match. Qed.

(** The decimal text of a number ends in a digit. *)
Lemma pretty_nat_last (i : nat) :
  ∃ p c, pretty i = p +:+ String c "" ∧ c ≠ "d"%char ∧ c ≠ "l"%char.
Proof.
  unfold pretty, pretty_nat, pretty, pretty_N.
  destruct (decide (N.of_nat i = 0)%N) as [_|Hi].
  - by exists "", "0"%char.
  - rewrite pretty_N_go_step by lia.
    destruct (pretty_N_go_app (N.of_nat i `div` 10)
                (String (pretty_N_char (N.of_nat i `mod` 10)) "")) as (p & ->).
    exists p, (pretty_N_char (N.of_nat i `mod` 10)). split; [done|].
    apply pretty_N_char_digit.
Qed.

(** Two texts that end differently differ. *)
Lemma ends_differ (a b tail : string) (x y : ascii) :
  x ≠ y → a +:+ String x tail ≠ b +:+ String y tail.
Proof.
  intros Hxy E. apply (f_equal String.list_ascii_of_string) in E.
  rewrite !chars_app in E. simpl in E.
  apply app_inj_2 in E; [|done]. destruct E as [_ E]. by injection E.
Qed.

(** A clip file is named after its index: its name ends in a digit
    and [.mp4]. *)
Lemma clip_filepath_end (o : Oracle) (cid : string) (index : nat) :
  ∃ body c, VideoService.clip_filepath o cid index = body +:+ String c ".mp4"
            ∧ c ≠ "d"%char ∧ c ≠ "l"%char.
Proof.
  unfold VideoService.clip_filepath, Js.path_join.
  destruct (pretty_nat_last index) as (p & c & -> & Hc).
  exists (tempDir o +:+ "/" +:+ cid +:+ "_clip_" +:+ p), c. split; [|done].
  rewrite !string_app_assoc. reflexivity.
Qed.

(** The files the composition steps write are named [..d.mp4] or
    [..l.mp4]. *)
Lemma output_not_clip (o : Oracle) (cid stem : string) (c : ascii) (index : nat) :
  c = "d"%char ∨ c = "l"%char →
  Js.path_join (outputDir o) (cid +:+ stem +:+ String c ".mp4")
  ≠ VideoService.clip_filepath o cid index.
Proof.
  intros Hc. destruct (clip_filepath_end o cid index) as (body & c' & -> & Hd & Hl).
  unfold Js.path_join.
  replace (outputDir o +:+ "/" +:+ cid +:+ stem +:+ String c ".mp4")
    with ((outputDir o +:+ "/" +:+ cid +:+ stem) +:+ String c ".mp4")
    by (rewrite !string_app_assoc; reflexivity).
  apply ends_differ. destruct Hc; congruence.
Qed.

Lemma merged_not_clip (o : Oracle) (cid : string) (index : nat) :
  merged_path o cid ≠ VideoService.clip_filepath o cid index.
Proof. apply (output_not_clip o cid "_merge" "d"). by left. Qed.

Lemma vertical_not_clip (o : Oracle) (cid : string) (index : nat) :
  vertical_path o cid ≠ VideoService.clip_filepath o cid index.
Proof. apply (output_not_clip o cid "_vertica" "l"). by right. Qed.

Lemma final_not_clip (o : Oracle) (cid : string) (options : JobOptions.t) (index : nat) :
  final_path o cid options ≠ VideoService.clip_filepath o cid index.
Proof.
  unfold final_path. destruct (Js.truthy _); [|destruct (JobOptions.convertToVertical _)].
  - apply (output_not_clip o cid "_fina" "l"). by right.
  - apply vertical_not_clip.
  - apply merged_not_clip.
Qed.

Lemma thumb_not_clip (o : Oracle) (cid : string) (index : nat) :
  Js.path_join (outputDir o) (cid +:+ "_thumb.jpg")
  ≠ VideoService.clip_filepath o cid index.
Proof.
  destruct (clip_filepath_end o cid index) as (body & c' & -> & _).
  unfold Js.path_join.
  replace (outputDir o +:+ "/" +:+ cid +:+ "_thumb.jpg")
    with ((outputDir o +:+ "/" +:+ cid +:+ "_thumb.jp") +:+ String "g" "")
    by (rewrite !string_app_assoc; reflexivity).
  replace (body +:+ String c' ".mp4") with ((body +:+ String c' ".mp") +:+ String "4" "")
    by (rewrite !string_app_assoc; reflexivity).
  by apply ends_differ.
Qed.

Lemma acquired_are_clips (o : Oracle) (clips : list Clip.t) (w : World) (p : string) :
  p ∈ acquired o clips w → ∃ index, p = VideoService.clip_filepath o (uuidv4 o) index.
Proof.
  unfold acquired. destruct (ytdlp_version o); [|by intros ?%elem_of_nil].
  destruct (batch_spec o clips w) as (results & w1 & E & _ & Hsub). rewrite E.
  intros Hp. eapply elem_of_sublist in Hp; [|exact Hsub].
  apply elem_of_lookup_imap in Hp as (index & clip & -> & _). by exists index.
Qed.

Lemma merged_not_acquired (o : Oracle) (clips : list Clip.t) (w : World) :
  merged_path o (uuidv4 o) ∉ acquired o clips w.
Proof.
  intros (index & E)%acquired_are_clips. by apply merged_not_clip in E.
Qed.

End Names.

(** ** The outcome of each download *)

Section Outcomes.
Context (o : Oracle) (cid : string).

Lemma string_app_inj_r (a b s : string) : a +:+ s = b +:+ s → a = b.
Proof.
  intros E. apply (f_equal String.list_ascii_of_string) in E.
  rewrite !chars_app in E. apply app_inv_tail in E.
  apply (f_equal String.string_of_list_ascii) in E.
  by rewrite !String.string_of_list_ascii_of_string in E.
Qed.

(** Clip files of different indexes have different names. *)
Lemma clip_filepath_inj (i j : nat) :
  VideoService.clip_filepath o cid i = VideoService.clip_filepath o cid j → i = j.
Proof.
  unfold VideoService.clip_filepath, Js.path_join.
  intros E%(inj _)%(inj _)%(inj _)%(inj _)%string_app_inj_r. by apply (inj pretty).
Qed.

(** A download is fulfilled when yt-dlp exits well having written its
    file, and rejected when yt-dlp fails. *)
Lemma download_outcome (clip : Clip.t) (index : nat) (w : World) :
  match ytdlp o ("https://clips.twitch.tv/" +:+ Clip.id clip)
              (VideoService.clip_filepath o cid index) with
  | ytdlp_exit0 true =>
      (VideoService.download o cid clip index w).1
      = Ok (VideoService.clip_filepath o cid index)
  | ytdlp_exit0 false => True
  | ytdlp_error _ _ => ∃ e, (VideoService.download o cid clip index w).1 = Throw e
  end.
Proof.
  unfold VideoService.download, try_catch, YtdlpDownloader.downloadClip.
  rewrite !bind_run. simpl.
  destruct (ytdlp o _ _) as [message stderr|[]]; [| |done].
  - repeat (destruct (Js.includes _ stderr)); simpl; by eexists.
  - rewrite !bind_run. simpl. rewrite bind_run. simpl.
    rewrite bool_decide_true by set_solver. rewrite bind_run.
    match goal with |- context [try_catch ?m ?h ?w1] =>
      pose proof (settles_ensureWebCompatible o (VideoService.clip_filepath o cid index) w1)
        as Hs;
      unfold try_catch; destruct (m w1) as [[[]|e|e] w2]
    end; simpl; [done|done|by destruct (Hs e)].
Qed.

Lemma allSettled_from_outcomes index clips w results :
  (allSettled_from (VideoService.download o cid) index clips w).1 = Ok results →
  ∀ i clip, clips !! i = Some clip →
    (∀ v, results !! i = Some (fulfilled v) →
          v = VideoService.clip_filepath o cid (index + i))
    ∧ match ytdlp o ("https://clips.twitch.tv/" +:+ Clip.id clip)
                  (VideoService.clip_filepath o cid (index + i)) with
      | ytdlp_exit0 true =>
          results !! i = Some (fulfilled (VideoService.clip_filepath o cid (index + i)))
      | ytdlp_exit0 false => True
      | ytdlp_error _ _ => ∃ e, results !! i = Some (rejected e)
      end.
Proof.
  revert index w results. induction clips as [|first rest IH]; intros index w results.
  { intros _ i clip Hi. by rewrite lookup_nil in Hi. }
  change (allSettled_from (VideoService.download o cid) index (first :: rest)) with
    (settle (VideoService.download o cid first index) ≫= λ r,
     allSettled_from (VideoService.download o cid) (S index) rest ≫= λ rs,
     mret (r :: rs)).
  rewrite bind_run. unfold settle.
  pose proof (download_outcome first index w) as Hout.
  pose proof (download_value o cid first index w) as Hv.
  destruct (VideoService.download o cid first index w) as [[v|e|e] w1]; simpl in *;
    [| |done].
  - rewrite bind_run. specialize (IH (S index) w1).
    destruct (allSettled_from _ _ _ w1) as [[rs|e|e] w2]; simpl in *; [|done|done].
    intros [= <-] [|i] clip Hi; simpl in *.
    + injection Hi as <-. rewrite Nat.add_0_r. split.
      * intros v' [= <-]. by apply Hv.
      * destruct (ytdlp o _ _) as [message stderr|[]]; [|by rewrite (Hv v eq_refl)|done].
        by destruct Hout.
    + replace (index + S i)%nat with (S index + i)%nat by lia. by apply (IH rs).
  - rewrite bind_run. specialize (IH (S index) w1).
    destruct (allSettled_from _ _ _ w1) as [[rs|e'|e'] w2]; simpl in *; [|done|done].
    intros [= <-] [|i] clip Hi; simpl in *.
    + injection Hi as <-. rewrite Nat.add_0_r. split; [done|].
      destruct (ytdlp o _ _) as [message stderr|[]]; [by eexists|done|done].
    + replace (index + S i)%nat with (S index + i)%nat by lia. by apply (IH rs).
Qed.
End Outcomes.

(** What was acquired follows the outcomes of yt-dlp, clip by clip. *)
Lemma acquired_outcomes o clips w i clip :
  ytdlp_version o = true →
  clips !! i = Some clip →
  match ytdlp o ("https://clips.twitch.tv/" +:+ Clip.id clip)
              (VideoService.clip_filepath o (uuidv4 o) i) with
  | ytdlp_exit0 true => VideoService.clip_filepath o (uuidv4 o) i ∈ acquired o clips w
  | ytdlp_exit0 false => True
  | ytdlp_error _ _ => VideoService.clip_filepath o (uuidv4 o) i ∉ acquired o clips w
  end.
Proof.
  intros Hv Hi. unfold acquired. rewrite Hv.
  destruct (batch_spec o clips w) as (results & w1 & E & Hlen & _). rewrite E.
  revert E. unfold batch. rewrite bind_run. simpl. unfold allSettled_map.
  match goal with |- context [allSettled_from ?f 0 clips ?w0] =>
    pose proof (allSettled_from_outcomes o (uuidv4 o) 0 clips w0) as Hall;
    destruct (allSettled_from f 0 clips w0) as [r w2]
  end.
  intros [= -> ->]. specialize (Hall results eq_refl).
  destruct (Hall i clip Hi) as [_ Hmine]. simpl in Hmine.
  destruct (ytdlp o _ _) as [message stderr|[]]; [| |done].
  - destruct Hmine as (e & Hr). unfold fulfilled_values.
    intros (r & Hin & Hf)%list_elem_of_omap.
    apply list_elem_of_lookup in Hin as (j & Hj).
    destruct r as [v|]; [|done]. injection Hf as ->.
    assert (is_Some (clips !! j)) as [clip' Hj'].
    { apply lookup_lt_is_Some. rewrite <- Hlen. by eapply lookup_lt_Some. }
    destruct (Hall j clip' Hj') as [Hval _]. simpl in Hval.
    pose proof (Hval _ Hj) as Hij. apply clip_filepath_inj in Hij. subst j. congruence.
  - unfold fulfilled_values. apply list_elem_of_omap.
    eexists. split; [by eapply list_elem_of_lookup_2|]. done.
Qed.

(** C1: a failed download does not stop the batch: every requested clip
    gets its settled result, a clip being acquired when yt-dlp exits
    well having written its file and not acquired when yt-dlp fails; the
    run goes on to the merge exactly when at least one clip was acquired, and then the first ffmpeg command reads
    exactly the acquired clip files, in request order, feeds the video
    and audio of each of them, in that order, to one [concat] of as many
    segments, and writes the result to the merged file; with no clip
    acquired the run throws and starts no ffmpeg command. *)
Theorem C1_batch_acquisition (o : Oracle) (clips : list Clip.t) (options : JobOptions.t)
    (w : World) :
  let '(r, w') := VideoService.createCompilation o clips options w in
  let got := acquired o clips w in
  (ytdlp_version o = true →
     ∃ results w1, batch o clips w = (Ok results, w1)
                   ∧ length results = length clips
                   ∧ got = fulfilled_values results)
  ∧ sublist got (imap (λ i _, VideoService.clip_filepath o (uuidv4 o) i) clips)
  ∧ (ytdlp_version o = true →
     ∀ i clip, clips !! i = Some clip →
       match ytdlp o ("https://clips.twitch.tv/" +:+ Clip.id clip)
                   (VideoService.clip_filepath o (uuidv4 o) i) with
       | ytdlp_exit0 true => VideoService.clip_filepath o (uuidv4 o) i ∈ got
       | ytdlp_exit0 false => True
       | ytdlp_error _ _ => VideoService.clip_filepath o (uuidv4 o) i ∉ got
       end)
  ∧ (got ≠ [] →
       ∃ command rest,
         ffmpeg_commands (new_calls w w') = command :: rest
         ∧ Ffmpeg.inputs command = got
         ∧ Ffmpeg.complexFilter command =
             [ {| Ffmpeg.chain_in :=
                    flat_map (λ index, [Ffmpeg.in_v index; Ffmpeg.in_a index])
                             (seq 0 (length got));
                  Ffmpeg.chain_filters := [Ffmpeg.concat (length got) 1 1];
                  Ffmpeg.chain_out := ["outv"; "outa"] |} ]
         ∧ take 2 (Ffmpeg.outputOptions command) =
             [ Ffmpeg.map_ (Ffmpeg.label "outv") false;
               Ffmpeg.map_ (Ffmpeg.label "outa") false ]
         ∧ Ffmpeg.save command = Js.path_join (outputDir o) (uuidv4 o +:+ "_merged.mp4")
         ∧ (ffmpeg o command ≠ ffmpeg_end → ∃ e, r = Throw e))
  ∧ (got = [] → (∃ e, r = Throw e) ∧ ffmpeg_commands (new_calls w w') = []).
Proof.
  pose proof (acquired_outcomes o clips w) as Hout. revert Hout.
  rewrite createCompilation_unfold. unfold acquired.
  destruct (ytdlp_version o); intros Hout.
  - destruct (batch_spec o clips w) as (results & w1 & E & Hlen & Hsub).
    destruct (batch_calls o clips w) as (dl & Edl & Hdl).
    rewrite E in *. simpl in Edl.
    assert (ffmpeg_commands dl = []) as Hq.
    { apply ffmpeg_commands_quiet. eapply Forall_impl; [exact Hdl|].
      intros c Hc Hk. simpl in Hc. rewrite Hk in Hc. set_solver. }
    cbv zeta. destruct (length (fulfilled_values results) =? 0)%nat eqn:Hn.
    + apply Nat.eqb_eq, nil_length_inv in Hn. rewrite Hn in Hout |- *.
      split_and!; try done; try (intros ? i clip; by apply Hout).
      * intros _. exists results, w1. by rewrite Hn.
      * apply sublist_nil_l.
      * intros _. split; [by eexists|]. by rewrite (new_calls_app _ _ dl Edl).
    + apply Nat.eqb_neq in Hn.
      destruct (finish_calls o (uuidv4 o) (length clips) (fulfilled_values results) options w1)
        as (announce & rest & Ef).
      destruct (finish _ _ _ _ _ w1) as [r w'] eqn:Efin. simpl in Ef.
      split_and!; try done; try (intros ? i clip; by apply Hout).
      * intros _. by exists results, w1.
      * intros _. exists (merge_command o (uuidv4 o) (fulfilled_values results)),
                         (ffmpeg_commands rest).
        rewrite (new_calls_trans _ _ _ _ _ Edl Ef), !ffmpeg_commands_app, Hq.
        split_and!; try reflexivity.
        intros Hfail.
        destruct (ffmpeg o (merge_command o (uuidv4 o) (fulfilled_values results)))
          as [|message written] eqn:Hm; [done|].
        exists message. apply (f_equal fst) in Efin. simpl in Efin. rewrite <- Efin.
        by eapply finish_merge_error.
      * intros Hnil. by rewrite Hnil in Hn.
  - split_and!; try done.
    + apply sublist_nil_l.
    + intros _. split; [by eexists|]. by rewrite new_calls_refl.
Qed.

(** ** The paths the steps return *)

Section Values.
Context (o : Oracle).

Lemma run_value c w p : (run o c w).1 = Ok p → p = Ffmpeg.save c.
Proof.
  unfold run. rewrite bind_run. simpl.
  destruct (ffmpeg o c) as [|message written]; simpl; [congruence|].
  rewrite bind_run. by destruct written.
Qed.

Lemma mergeClips_value paths name w p :
  (VideoService.mergeClips o paths name w).1 = Ok p → p = Js.path_join (outputDir o) name.
Proof. unfold VideoService.mergeClips. by intros ->%run_value. Qed.

Lemma convertToVertical_value input name position w p :
  (VideoService.convertToVertical o input name position w).1 = Ok p →
  p = Js.path_join (outputDir o) name.
Proof.
  unfold VideoService.convertToVertical, getVideoMetadata.
  rewrite !bind_run. simpl. destruct (ffprobe o input) as [m|e]; simpl; [|done].
  destruct (find_stream "video" m); [|done]. by intros ->%run_value.
Qed.

Lemma addOutro_command_save mainMeta outroMeta video outro output c :
  VideoService.addOutro_command o mainMeta outroMeta video outro output = answer c →
  Ffmpeg.save c = output.
Proof.
  unfold VideoService.addOutro_command. intros H.
  repeat (case_match; try done); by injection H as <-.
Qed.

Lemma addOutro_value video outro name w p :
  (VideoService.addOutro o video outro name w).1 = Ok p →
  p = Js.path_join (outputDir o) name.
Proof.
  unfold VideoService.addOutro, getVideoMetadata, settle.
  rewrite !bind_run. simpl. destruct (ffprobe o video) as [m1|e1]; simpl.
  - rewrite !bind_run. simpl. destruct (ffprobe o outro) as [m2|e2]; simpl; [|done].
    destruct (VideoService.addOutro_command _ _ _ _ _ _) as [c|e] eqn:E; [|done].
    intros ->%run_value. by apply addOutro_command_save in E.
  - rewrite !bind_run. simpl. by destruct (ffprobe o outro).
Qed.

Lemma compose_value cid requested paths options w p :
  (compose o cid requested paths options w).1 = Ok p → p = final_path o cid options.
Proof.
  unfold compose, final_path.
  rewrite bind_run. simpl. rewrite bind_run. simpl. rewrite bind_run.
  match goal with |- context [VideoService.mergeClips o ?a ?b ?w2] =>
    pose proof (mergeClips_value a b w2) as Hm;
    destruct (VideoService.mergeClips o a b w2) as [[mergedPath|e|e] w3]
  end; simpl in *; [|done|done].
  rewrite (Hm mergedPath eq_refl). fold (merged_path o cid). clear Hm.
  rewrite bind_run.
  destruct (JobOptions.convertToVertical options).
  - rewrite bind_run. simpl.
    match goal with |- context [VideoService.convertToVertical o ?a ?b ?c ?w4] =>
      pose proof (convertToVertical_value a b c w4) as Hv;
      destruct (VideoService.convertToVertical o a b c w4) as [[finalPath|e|e] w5]
    end; simpl in *; [|done|done].
    rewrite (Hv finalPath eq_refl).
    destruct (Js.truthy (JobOptions.outroPath options)); [|simpl; congruence].
    rewrite bind_run. simpl. by intros ->%addOutro_value.
  - simpl. destruct (Js.truthy (JobOptions.outroPath options)); [|simpl; congruence].
    rewrite bind_run. simpl. by intros ->%addOutro_value.
Qed.

(** A completed run returns the path of its last composition step. *)
Lemma createCompilation_videoPath clips options w res :
  (VideoService.createCompilation o clips options w).1 = Ok res →
  CompilationResult.videoPath res = final_path o (uuidv4 o) options.
Proof.
  rewrite createCompilation_unfold. destruct (ytdlp_version o); [|done].
  destruct (batch_spec o clips w) as (results & w1 & E & _). rewrite E.
  cbv zeta. destruct (length (fulfilled_values results) =? 0)%nat; [done|].
  unfold finish.
  pose proof (compose_value (uuidv4 o) (length clips) (fulfilled_values results) options w1)
    as Hc.
  destruct (compose _ _ _ _ _ w1) as [[finalPath|e|e] w2]; simpl in *; [|done|done].
  destruct (thumbnail o (uuidv4 o) finalPath w2) as [[t|e|e] w3]; simpl; [|done|done].
  intros [= <-]. simpl. by apply Hc.
Qed.

Lemma run_written c w p : (run o c w).1 = Ok p → p ∈ files (run o c w).2.
Proof.
  unfold run. rewrite bind_run. simpl.
  destruct (ffmpeg o c) as [|message written]; simpl.
  - intros [= <-]. set_solver.
  - rewrite bind_run. by destruct written.
Qed.

Lemma convertToVertical_written input name position w p :
  (VideoService.convertToVertical o input name position w).1 = Ok p →
  p ∈ files (VideoService.convertToVertical o input name position w).2.
Proof.
  unfold VideoService.convertToVertical, getVideoMetadata.
  rewrite !bind_run. simpl. destruct (ffprobe o input) as [m|e]; simpl; [|done].
  destruct (find_stream "video" m); [|done]. apply run_written.
Qed.

Lemma addOutro_written video outro name w p :
  (VideoService.addOutro o video outro name w).1 = Ok p →
  p ∈ files (VideoService.addOutro o video outro name w).2.
Proof.
  unfold VideoService.addOutro, getVideoMetadata, settle.
  rewrite !bind_run. simpl. destruct (ffprobe o video) as [m1|e1]; simpl.
  - rewrite !bind_run. simpl. destruct (ffprobe o outro) as [m2|e2]; simpl; [|done].
    destruct (VideoService.addOutro_command _ _ _ _ _ _) as [c|e] eqn:E; [|done].
    apply run_written.
  - rewrite !bind_run. simpl. by destruct (ffprobe o outro).
Qed.

(** What the composition steps leave in the output directory. *)
Lemma compose_outputs cid requested paths options w p :
  (compose o cid requested paths options w).1 = Ok p →
  p ∈ files (compose o cid requested paths options w).2
  ∧ merged_path o cid ∈ files (compose o cid requested paths options w).2
  ∧ (JobOptions.convertToVertical options = true →
     vertical_path o cid ∈ files (compose o cid requested paths options w).2).
Proof.
  unfold compose.
  rewrite bind_run. simpl. rewrite bind_run. simpl. rewrite bind_run.
  match goal with |- context [VideoService.mergeClips o ?a ?b ?w2] =>
    pose proof (mergeClips_value a b w2) as Hm;
    pose proof (run_written (VideoService.mergeClips_command
                               (Js.path_join (outputDir o) b) a) w2) as Hmw;
    change (run o (VideoService.mergeClips_command (Js.path_join (outputDir o) b) a))
      with (VideoService.mergeClips o a b) in Hmw;
    destruct (VideoService.mergeClips o a b w2) as [[mergedPath|e|e] w3]
  end; simpl in *; [|done|done].
  rewrite (Hm mergedPath eq_refl) in *. fold (merged_path o cid) in *.
  specialize (Hmw _ eq_refl). clear Hm.
  rewrite bind_run.
  destruct (JobOptions.convertToVertical options).
  - rewrite bind_run. simpl.
    match goal with |- context [VideoService.convertToVertical o ?a ?b ?c ?w4] =>
      pose proof (convertToVertical_value a b c w4) as Hv;
      pose proof (convertToVertical_written a b c w4) as Hvw;
      destruct (effects_convertToVertical (λ _, True) o true a b c
                  (allows_any _) (allows_any _) w4) as [_ Hk];
      destruct (VideoService.convertToVertical o a b c w4) as [[finalPath|e|e] w5]
    end; simpl in *; [|done|done].
    rewrite (Hv finalPath eq_refl) in *. fold (vertical_path o cid) in *.
    specialize (Hvw _ eq_refl). specialize (Hk eq_refl). clear Hv.
    destruct (Js.truthy (JobOptions.outroPath options)).
    + rewrite bind_run. simpl.
      match goal with |- context [VideoService.addOutro o ?a ?b ?c ?w6] =>
        pose proof (addOutro_written a b c w6) as How;
        destruct (effects_addOutro (λ _, True) o true a b c
                    (allows_any _) (allows_any _) w6) as [_ Hk'];
        destruct (VideoService.addOutro o a b c w6) as [[q|e|e] w7]
      end; simpl in *; [|done|done].
      intros [= <-]. specialize (Hk' eq_refl). split_and!; [by apply How|set_solver|set_solver].
    + simpl. intros [= <-]. split_and!; [done|set_solver|done].
  - simpl. destruct (Js.truthy (JobOptions.outroPath options)).
    + rewrite bind_run. simpl.
      match goal with |- context [VideoService.addOutro o ?a ?b ?c ?w6] =>
        pose proof (addOutro_written a b c w6) as How;
        destruct (effects_addOutro (λ _, True) o true a b c
                    (allows_any _) (allows_any _) w6) as [_ Hk'];
        destruct (VideoService.addOutro o a b c w6) as [[q|e|e] w7]
      end; simpl in *; [|done|done].
      intros [= <-]. specialize (Hk' eq_refl). split_and!; [by apply How|set_solver|done].
    + simpl. intros [= <-]. split_and!; [done|done|done].
Qed.

(** What a completed run leaves behind: its outputs, unless [cleanup]
    was handed them. *)
Lemma finish_outputs cid requested paths options w res :
  (finish o cid requested paths options w).1 = Ok res →
  CompilationResult.videoPath res = final_path o cid options
  ∧ CompilationResult.thumbnailPath res
    = Some (Js.path_join (outputDir o) (cid +:+ "_thumb.jpg"))
  ∧ ∀ q, q = final_path o cid options
         ∨ q = Js.path_join (outputDir o) (cid +:+ "_thumb.jpg")
         ∨ q = merged_path o cid
         ∨ (JobOptions.convertToVertical options = true ∧ q = vertical_path o cid) →
         q ∉ paths →
         q ∈ files (finish o cid requested paths options w).2.
Proof.
  unfold finish.
  pose proof (compose_value cid requested paths options w) as Hv.
  pose proof (compose_outputs cid requested paths options w) as Hout.
  destruct (compose o cid requested paths options w) as [[finalPath|e|e] w1];
    simpl in *; [|done|done].
  rewrite (Hv finalPath eq_refl) in *. clear Hv.
  destruct (Hout _ eq_refl) as (Hfinal & Hmerged & Hvertical). clear Hout.
  rewrite thumbnail_run.
  destruct (screenshots o _ _ _) as [|message written]; rewrite ?cleanup_run; simpl;
    [|done].
  intros [= <-]. simpl. split_and!; [done|done|].
  intros q Hq Hnot. apply others_stay; [|done].
  destruct Hq as [->|[->|[->|[Hc ->]]]]; set_solver.
Qed.

(** The merged file is an intermediate as soon as a later step writes
    the final video. *)
Lemma merged_not_final cid options :
  JobOptions.convertToVertical options = true
  ∨ Js.truthy (JobOptions.outroPath options) = true →
  merged_path o cid ≠ final_path o cid options.
Proof.
  unfold final_path, merged_path, Js.path_join.
  intros [H|H]; rewrite H; [destruct (Js.truthy _)|]; by intros [=]%(inj _)%(inj _)%(inj _).
Qed.
End Values.


(** ** What a run removes *)

Section Scratch.
Context (D : string → Prop).

Lemma spares_keeps {A} (m : M World A) : Effects (λ _, True) true m → Spares D m.
Proof. intros H w p Hp _. destruct (H w) as [_ Hk]. by apply Hk. Qed.

Lemma spares_bind {A B} (m : M World A) (f : A → M World B) :
  Spares D m → (∀ a, Spares D (f a)) → Spares D (m ≫= f).
Proof.
  intros Hm Hf w p Hp Hd. rewrite bind_run. specialize (Hm w p Hp Hd).
  destruct (m w) as [[a|e|e] w1]; simpl in *; [by apply Hf|done|done].
Qed.

Lemma spares_try_catch {A} (m : M World A) (h : string → M World A) :
  Spares D m → (∀ e, Spares D (h e)) → Spares D (try_catch m h).
Proof.
  intros Hm Hh w p Hp Hd. unfold try_catch. specialize (Hm w p Hp Hd).
  destruct (m w) as [[a|e|e] w1]; simpl in *; [done|by apply Hh|done].
Qed.

Lemma spares_settle {A} (m : M World A) : Spares D m → Spares D (settle m).
Proof.
  intros Hm w p Hp Hd. unfold settle. specialize (Hm w p Hp Hd).
  by destruct (m w) as [[a|e|e] w1].
Qed.

Lemma spares_remove_file p : D p → Spares D (remove_file p).
Proof.
  intros Hd w q Hq Hn. simpl. apply elem_of_difference. split; [done|].
  by intros ->%elem_of_singleton.
Qed.

Lemma spares_unlinkSync o p : D p → Spares D (unlinkSync o p).
Proof.
  intros Hd. unfold unlinkSync.
  apply spares_bind; [apply spares_keeps, effects_existsSync|].
  intros []; [|apply spares_keeps, effects_throw].
  destruct (unlink_error o p); [apply spares_keeps, effects_throw|].
  by apply spares_remove_file.
Qed.

Lemma spares_renameSync a b : D a → Spares D (renameSync a b).
Proof.
  intros Hd. unfold renameSync.
  apply spares_bind; [apply spares_keeps, effects_existsSync|].
  intros []; [|apply spares_keeps, effects_throw].
  apply spares_bind; [by apply spares_remove_file|].
  intros _. apply spares_keeps, effects_write_file.
Qed.

Lemma spares_ensureWebCompatible o filePath :
  D filePath → D (Js.replace ".mp4" "_temp.mp4" filePath) →
  Spares D (YtdlpDownloader.ensureWebCompatible o filePath).
Proof.
  intros Hf Ht. unfold YtdlpDownloader.ensureWebCompatible.
  apply spares_bind; [apply spares_keeps; effects|]. intros _.
  destruct (recode o filePath _) as [message written|written].
  - apply spares_keeps. effects.
  - apply spares_bind; [apply spares_keeps; effects|]. intros _.
    apply spares_try_catch; [|intros e; apply spares_keeps; effects].
    apply spares_bind; [apply spares_keeps; effects|].
    intros []; [|apply spares_keeps; effects].
    apply spares_bind; [by apply spares_unlinkSync|].
    intros _. by apply spares_renameSync.
Qed.

Lemma spares_downloadClip o clipId outputPath :
  D outputPath → D (Js.replace ".mp4" "_temp.mp4" outputPath) →
  Spares D (YtdlpDownloader.downloadClip o clipId outputPath).
Proof.
  intros Hf Ht. unfold YtdlpDownloader.downloadClip.
  apply spares_bind; [apply spares_keeps; effects|]. intros _.
  destruct (ytdlp o _ outputPath) as [message stderr|written].
  - apply spares_keeps. effects.
  - apply spares_bind; [apply spares_keeps; effects|]. intros _.
    apply spares_bind; [apply spares_keeps; effects|].
    intros []; [|apply spares_keeps; effects].
    apply spares_bind; [|intros _; apply spares_keeps; effects].
    apply spares_try_catch; [|intros e; apply spares_keeps; effects].
    by apply spares_ensureWebCompatible.
Qed.

Lemma spares_allSettled {A B} (f : A → nat → M World B) index xs :
  (∀ x i, Spares D (f x i)) → Spares D (allSettled_from f index xs).
Proof.
  intros Hf. revert index. induction xs as [|x rest IH]; intros index; simpl.
  - apply spares_keeps, effects_ret.
  - apply spares_bind; [apply spares_settle, Hf|]. intros r.
    apply spares_bind; [apply IH|]. intros rs. apply spares_keeps, effects_ret.
Qed.
End Scratch.

(** The downloads remove nothing but clip files and the temp files of
    their re-encoding. *)
Lemma batch_spares o clips w p :
  p ∈ files w → ¬ scratch_file o p → p ∈ files (batch o clips w).2.
Proof.
  assert (Spares (scratch_file o)
            (log (console_log "Starting clip downloads...");;
             allSettled_map (VideoService.download o (uuidv4 o)) clips)) as H.
  { apply spares_bind; [apply spares_keeps; effects|]. intros _.
    apply spares_allSettled. intros clip index. unfold VideoService.download.
    apply spares_try_catch; [|intros e; apply spares_keeps; effects].
    apply spares_bind; [|intros _; apply spares_keeps; effects].
    apply spares_downloadClip; exists index; [by left|by right]. }
  apply H.
Qed.

Lemma batch_unlinks o clips w : unlinked (new_calls w (batch o clips w).2) = [].
Proof.
  destruct (batch_calls o clips w) as (dl & E & Hdl). rewrite (new_calls_app _ _ _ E).
  clear E. induction Hdl as [|c l Hc _ IH]; [done|].
  destruct c; try done. simpl in Hc. set_solver.
Qed.

(** C8 (amended): whenever [createCompilation] returns or throws,
    [cleanup] has asked the file system to unlink exactly the clip files
    the run acquired, and each of them is gone unless the file system
    refused (an error [cleanup] swallows). Of the files that were there
    before the run none is removed, clip files and the temp files of
    their re-encoding apart; on an exception that
    nothing catches (a probe of the merged file without video stream)
    [cleanup] does not run at all. After a completed run
    the final video and the thumbnail are there, and so are the
    intermediate outputs: the merged file, and the reframed file when a
    reframe was asked for, also when a later step wrote the final
    video. *)
Theorem C8_cleanup_scope (o : Oracle) (clips : list Clip.t) (options : JobOptions.t)
    (w : World) :
  let '(r, w') := VideoService.createCompilation o clips options w in
  let got := acquired o clips w in
  let merged := Js.path_join (outputDir o) (uuidv4 o +:+ "_merged.mp4") in
  let reframed := Js.path_join (outputDir o) (uuidv4 o +:+ "_vertical.mp4") in
  ((∀ e, r ≠ Uncaught e) →
     unlinked (new_calls w w') = got
     ∧ ∀ p, p ∈ got → unlink_error o p = None → p ∉ files w')
  ∧ (∀ e, r = Uncaught e → unlinked (new_calls w w') = [])
  ∧ (∀ p, p ∈ files w → ¬ scratch_file o p → p ∈ files w')
  ∧ (∀ res, r = Ok res →
       CompilationResult.videoPath res ∈ files w'
       ∧ (∃ thumbnail, CompilationResult.thumbnailPath res = Some thumbnail
                       ∧ thumbnail ∈ files w')
       ∧ merged ∈ files w'
       ∧ (JobOptions.convertToVertical options = true → reframed ∈ files w')
       ∧ (JobOptions.convertToVertical options = true
          ∨ Js.truthy (JobOptions.outroPath options) = true →
          merged ≠ CompilationResult.videoPath res
          ∧ CompilationResult.thumbnailPath res ≠ Some merged)
       ∧ (JobOptions.convertToVertical options = true →
          Js.truthy (JobOptions.outroPath options) = true →
          reframed ≠ CompilationResult.videoPath res
          ∧ CompilationResult.thumbnailPath res ≠ Some reframed)).
Proof.
  pose proof (acquired_are_clips o clips w) as Hclips.
  pose proof (batch_spares o clips w) as Hbatch.
  pose proof (batch_unlinks o clips w) as Hquiet.
  pose proof (batch_calls o clips w) as (dl & Edl & _).
  revert Hclips Hbatch Hquiet Edl.
  rewrite createCompilation_unfold. unfold acquired.
  destruct (ytdlp_version o).
  - destruct (batch_spec o clips w) as (results & w1 & E & _). rewrite E.
    cbv zeta. simpl. destruct (length (fulfilled_values results) =? 0)%nat eqn:Hn.
    + apply Nat.eqb_eq, nil_length_inv in Hn. rewrite Hn. intros _ Hbatch Hquiet _.
      split_and!; [|done|done|done].
      intros _. split; [done|]. intros p Hp. by apply elem_of_nil in Hp.
    + intros Hclips Hbatch Hquiet Edl.
      assert (∀ q, (∀ index, q ≠ VideoService.clip_filepath o (uuidv4 o) index) →
                   q ∉ fulfilled_values results) as Hout.
      { intros q Hq Hin. destruct (Hclips q Hin) as (index & Hi). by apply (Hq index). }
      pose proof (finish_cleans o (uuidv4 o) (length clips) (fulfilled_values results)
                    options w1) as Hc.
      pose proof (finish_unlinks o (uuidv4 o) (length clips) (fulfilled_values results)
                    options w1) as Hu.
      pose proof (finish_spares o (uuidv4 o) (length clips) (fulfilled_values results)
                    options w1) as Hs.
      pose proof (finish_uncaught o (uuidv4 o) (length clips) (fulfilled_values results)
                    options w1) as Hun.
      pose proof (finish_outputs o (uuidv4 o) (length clips) (fulfilled_values results)
                    options w1) as Ho.
      destruct (effects_finish (λ _, True) o options) with
        (cid := uuidv4 o) (requested := length clips)
        (paths := fulfilled_values results) (w := w1) as [(fl & Efl & _) _];
        try apply allows_any; [done|].
      destruct (finish _ _ _ _ _ w1) as [r w']. simpl in *.
      split_and!.
      * intros Hr. split; [|by apply Hc].
        specialize (Hu Hr). rewrite (new_calls_app _ _ _ Efl) in Hu.
        rewrite (new_calls_app _ _ _ Edl) in Hquiet.
        rewrite (new_calls_trans _ _ _ _ _ Edl Efl).
        unfold unlinked in *. by rewrite omap_app, Hquiet, Hu.
      * intros e ->. specialize (Hun e eq_refl). rewrite (new_calls_app _ _ _ Efl) in Hun.
        rewrite (new_calls_app _ _ _ Edl) in Hquiet.
        rewrite (new_calls_trans _ _ _ _ _ Edl Efl).
        unfold unlinked in *. by rewrite omap_app, Hquiet, Hun.
      * intros p Hp Hd. apply Hs; [by apply Hbatch|].
        intros Hin. destruct (Hclips p Hin) as (index & ->). apply Hd. exists index. by left.
      * intros res ->. destruct (Ho res eq_refl) as (Hv & Ht & Hfiles).
        rewrite Hv, Ht.
        split_and!.
        -- apply Hfiles; [by left|]. apply Hout. intros index. apply final_not_clip.
        -- eexists. split; [done|]. apply Hfiles; [by right; left|].
           apply Hout. intros index. apply thumb_not_clip.
        -- apply Hfiles; [by right; right; left|].
           apply Hout. intros index. apply merged_not_clip.
        -- intros Hvert. apply Hfiles; [by right; right; right|].
           apply Hout. intros index. apply vertical_not_clip.
        -- intros Hlater. split; [by apply merged_not_final|].
           unfold Js.path_join. by intros [= [=]%(inj _)%(inj _)%(inj _)].
        -- intros Hvert Houtro. unfold final_path. rewrite Houtro.
           unfold Js.path_join.
           split; [by intros [=]%(inj _)%(inj _)%(inj _)|].
           by intros [= [=]%(inj _)%(inj _)%(inj _)].
  - intros _ _ _ _. simpl. split_and!; [|done|done|done].
    intros _. split; [by rewrite new_calls_refl|]. intros p Hp. by apply elem_of_nil in Hp.
Qed.

(** ** An outro that cannot be read *)

Section Unreadable.
Import CompilationRoutes.
Context (o : Oracle).

(** [addOutro] probes both files before it builds its command: with an
  outro file that cannot be probed it never returns a path. *)
Lemma addOutro_unreadable video outro name w message p :
ffprobe o outro = error message →
(VideoService.addOutro o video outro name w).1 ≠ Ok p.
Proof.
intros Hprobe. unfold VideoService.addOutro, getVideoMetadata, settle.
rewrite !bind_run. simpl. destruct (ffprobe o video) as [m1|e1]; simpl;
  rewrite !bind_run; simpl; by rewrite Hprobe.
Qed.

Lemma compose_unreadable cid requested paths options w outro message p :
JobOptions.outroPath options = Some outro → outro ≠ "" →
ffprobe o outro = error message →
(compose o cid requested paths options w).1 ≠ Ok p.
Proof.
intros Hpath Hne Hprobe. unfold compose. rewrite Hpath. simpl.
assert (negb (String.eqb outro "") = true) as ->.
{ apply negb_true_iff, String.eqb_neq, Hne. }
rewrite bind_run. simpl. rewrite bind_run. simpl. rewrite bind_run.
destruct (VideoService.mergeClips o _ _ _) as [[mergedPath|e|e] w3]; simpl; [|done|done].
rewrite bind_run.
match goal with |- context [match ?m w3 with _ => _ end] =>
  destruct (m w3) as [[finalPath|e|e] w4]
end; simpl; [|done|done].
rewrite bind_run. simpl. by eapply addOutro_unreadable.
Qed.

Lemma createCompilation_unreadable clips options w outro message res :
JobOptions.outroPath options = Some outro → outro ≠ "" →
ffprobe o outro = error message →
(VideoService.createCompilation o clips options w).1 ≠ Ok res.
Proof.
intros Hpath Hne Hprobe. rewrite createCompilation_unfold.
destruct (ytdlp_version o); [|done].
destruct (batch o clips w) as [[results|e|e] w1]; [|done|done].
cbv zeta. destruct (length (fulfilled_values results) =? 0)%nat; [done|].
unfold finish.
pose proof (compose_unreadable (uuidv4 o) (length clips) (fulfilled_values results)
              options w1 outro message) as Hc.
destruct (compose _ _ _ _ _ w1) as [[finalPath|e|e] w2]; simpl in *; [|done|done].
by destruct (Hc finalPath).
Qed.

Lemma process_unreadable data w outro message :
JobOptions.outroPath (JobData.options data) = Some outro → outro ≠ "" →
ffprobe o outro = error message →
Queue.state_after (process o data w).1 ≠ Queue.completed.
Proof.
intros Hpath Hne Hprobe.
destruct (length (JobData.clips data) =? 0)%nat eqn:Hn.
- by rewrite (process_empty o data w Hn).
- rewrite (process_run o data w Hn).
  pose proof (createCompilation_unreadable (withUrls o <$> JobData.clips data)
                (JobData.options data) (started w) outro message) as Hc.
  destruct (VideoService.createCompilation _ _ _ _) as [[result|e|e] w1]; simpl in *;
    [|done|done].
  by destruct (Hc result).
Qed.

Lemma process_videoPath data w res :
(process o data w).1 = Ok res →
CompilationResult.videoPath res = final_path o (uuidv4 o) (JobData.options data).
Proof.
destruct (length (JobData.clips data) =? 0)%nat eqn:Hn.
- by rewrite (process_empty o data w Hn).
- rewrite (process_run o data w Hn).
  pose proof (createCompilation_videoPath o (withUrls o <$> JobData.clips data)
                (JobData.options data) (started w)) as Hc.
  destruct (VideoService.createCompilation _ _ _ _) as [[result|e|e] w1]; simpl in *;
    [|done|done].
  intros [= <-]. simpl. by apply Hc.
Qed.
End Unreadable.

(** C3: the specification has a job whose outro step fails complete on
    the pre-outro output. The compilation worker does not: with an outro
    file that cannot be probed no job completes, and a job that
    completes with an outro configured always returns the outro step's
    output. In the run below every earlier stage has succeeded and the
    outro step has been announced, yet the worker's promise rejects and
    the queue marks the job failed. *)
Theorem C3_outro_failure_fails_job :
  (∀ o data w outro message,
     JobOptions.outroPath (CompilationRoutes.JobData.options data) = Some outro →
     outro ≠ "" →
     ffprobe o outro = error message →
     Queue.state_after (CompilationRoutes.process o data w).1 ≠ Queue.completed)
  ∧ (∀ o data w res,
       Js.truthy (JobOptions.outroPath (CompilationRoutes.JobData.options data)) = true →
       (CompilationRoutes.process o data w).1 = Ok res →
       CompilationResult.videoPath res
       = Js.path_join (outputDir o) (uuidv4 o +:+ "_final.mp4"))
  ∧ let '(r, w') := CompilationRoutes.process Example.studio
                      (Example.job None (Some "outros/missing.mp4")) Example.fresh in
    announced "Adding outro..." (new_calls Example.fresh w') = true
    ∧ stages_succeeded Example.studio (new_calls Example.fresh w') = true
    ∧ r = Throw "ffprobe exited with code 1"
    ∧ Queue.state_after r = Queue.failed.
Proof.
  split_and!.
  - intros o data w outro message. apply process_unreadable.
  - intros o data w res Houtro Hok. rewrite (process_videoPath o data w res Hok).
    unfold final_path. by rewrite Houtro.
  - by vm_compute.
Qed.

Section Quality.
Import TwitchClipDownloader.

Lemma find_quality_Some label qualities q :
  find_quality label qualities = Some q → first_with label q qualities.
Proof.
  unfold find_quality. induction qualities as [|x rest IH]; simpl; [done|].
  destruct (String.eqb (quality x) label) eqn:E.
  - intros [= ->]. exists [], rest. split_and!; [done| |done].
    by apply String.eqb_eq.
  - intros H. destruct (IH H) as (before & after & -> & Hq & Hb).
    exists (x :: before), after. split_and!; [done|done|].
    constructor; [|done]. by apply String.eqb_neq.
Qed.

Lemma find_quality_None label qualities :
  find_quality label qualities = None → none_with label qualities.
Proof.
  unfold find_quality, none_with. induction qualities as [|x rest IH]; simpl; [done|].
  destruct (String.eqb (quality x) label) eqn:E; [done|].
  intros H. constructor; [by apply String.eqb_neq | by apply IH].
Qed.

(** C6: from a non-empty list of qualities the GraphQL strategy picks
    the (first) entry labelled "1080"; if there is none, the (first)
    entry labelled "720"; otherwise the first entry of the list; and it
    returns that entry's source URL. *)
Theorem C6_best_quality_selection (qualities : list VideoQuality) :
  qualities ≠ [] →
  ∃ q, bestQuality qualities = Some q
       ∧ gqlStrategy (answer (Some qualities)) = Some (sourceURL q)
       ∧ (first_with "1080" q qualities
          ∨ (none_with "1080" qualities ∧ first_with "720" q qualities)
          ∨ (none_with "1080" qualities ∧ none_with "720" qualities
             ∧ head qualities = Some q)).
Proof.
  intros Hne.
  assert (∃ q, bestQuality qualities = Some q
               ∧ (first_with "1080" q qualities
                  ∨ (none_with "1080" qualities ∧ first_with "720" q qualities)
                  ∨ (none_with "1080" qualities ∧ none_with "720" qualities
                     ∧ head qualities = Some q))) as (q & Hq & Hsel).
  { unfold bestQuality.
    destruct (find_quality "1080" qualities) as [q|] eqn:E1.
    { exists q. split; [done|]. left. by apply find_quality_Some. }
    apply find_quality_None in E1.
    destruct (find_quality "720" qualities) as [q|] eqn:E2.
    { exists q. split; [done|]. right; left. split; [done|]. by apply find_quality_Some. }
    apply find_quality_None in E2.
    destruct qualities as [|q rest]; [done|].
    exists q. split; [done|]. right; right. done. }
  exists q. split_and!; [done| |done].
  unfold gqlStrategy. destruct qualities; [done|]. simpl. by rewrite Hq.
Qed.

(** The statement at a list whose second entry is labelled 720 and
    that has no entry labelled 1080. *)
Lemma C6_witness :
  ∃ q, bestQuality Example.sample_qualities = Some q
       ∧ gqlStrategy (answer (Some Example.sample_qualities)) = Some (sourceURL q)
       ∧ (first_with "1080" q Example.sample_qualities
          ∨ (none_with "1080" Example.sample_qualities ∧ first_with "720" q Example.sample_qualities)
          ∨ (none_with "1080" Example.sample_qualities ∧ none_with "720" Example.sample_qualities
             ∧ head Example.sample_qualities = Some q)).
Proof. apply (C6_best_quality_selection Example.sample_qualities). discriminate. Defined.
End Quality.
(** ** Frame sizes *)

Section Frames.
Import Ffmpeg VideoService.
Local Open Scope Z_scope.

Lemma sized_positive (w h : Z) : 0 < w → 0 < h → sized w h = Some [Video w h].
Proof. intros. unfold sized. by rewrite bool_decide_true. Qed.

Lemma cropped_inside (w h in_w in_h : Z) :
  0 < w ≤ in_w → 0 < h ≤ in_h → cropped w h in_w in_h = Some [Video w h].
Proof.
  intros. unfold cropped. rewrite bool_decide_true by lia. apply sized_positive; lia.
Qed.

Lemma padded_around (w h in_w in_h : Z) :
  0 < in_w ≤ w → 0 < in_h ≤ h → padded w h in_w in_h = Some [Video w h].
Proof.
  intros. unfold padded. rewrite bool_decide_true by lia. apply sized_positive; lia.
Qed.

(** Rescaling to the nearest integer is monotone enough: a product of
    at least half the divisor gives at least 1. *)
Lemma av_rescale_positive (a b c : Z) : 0 < c → c ≤ 2 * a * b → 1 ≤ av_rescale a b c.
Proof.
  intros Hc Hab. unfold av_rescale.
  apply Z.div_le_lower_bound; lia.
Qed.

Lemma av_rescale_same (a c : Z) : 0 < c → av_rescale a c c = a.
Proof.
  intros Hc. unfold av_rescale.
  replace (2 * a * c + c) with (c + a * (2 * c)) by lia.
  rewrite Z.div_add by lia. rewrite Z.div_small by lia. lia.
Qed.

(** [crop='min(iw,ih*9/16):ih'] keeps the height and takes a width
    between 1 and the input's. *)
Lemma lrint_whole (n : Z) : lrint (n, 1) = n.
Proof.
  unfold lrint. rewrite Z.div_1_r, Z.mod_1_r. by rewrite bool_decide_true by lia.
Qed.

Lemma lrint_bounds (n d m : Z) :
  0 < d → d < 2 * n → n < m * d → 1 ≤ lrint (n, d) ≤ m.
Proof.
  intros Hd Hlow Hup. unfold lrint.
  pose proof (Z.div_mod n d ltac:(lia)) as Hdm.
  pose proof (Z.mod_pos_bound n d Hd) as Hr.
  assert (n / d < m) as Hq by (apply Z.div_lt_upper_bound; lia).
  assert (0 ≤ n / d) as Hq0 by (apply Z.div_pos; lia).
  repeat case_bool_decide; [nia|lia|].
  destruct (Z.even (n / d)) eqn:He; [|lia].
  assert (n / d ≠ 0); [|lia].
  intros Hzero. rewrite Hzero in Hdm. lia.
Qed.

Lemma portrait_width (in_w in_h : Z) :
  0 < in_w → 0 < in_h →
  0 < lrint (eval_expr (min_ iw (muldiv ih 9 16)) in_w in_h) ≤ in_w.
Proof.
  intros Hw Hh. simpl. case_bool_decide.
  - rewrite lrint_whole. lia.
  - pose proof (lrint_bounds (in_h * 9) (1 * 16) in_w). lia.
Qed.

(** The main layer: cropped to 9:16, then resized to the box. *)
Lemma main_layer (in_w in_h w h : Z) :
  0 < in_w → 0 < in_h → 0 < w → 0 < h →
  apply_filters [crop_expr (min_ iw (muldiv ih 9 16)) ih; scale w h None]
                [Video in_w in_h]
  = Some [Video w h].
Proof.
  intros Hw Hh Hbw Hbh.
  pose proof (portrait_width in_w in_h Hw Hh) as Hp.
  cbn [apply_filters apply_filter mbind option_bind].
  change (eval_expr ih in_w in_h) with (in_h, 1). rewrite lrint_whole.
  rewrite cropped_inside by lia. cbn [mbind option_bind dim].
  rewrite sized_positive by lia. done.
Qed.

(** The camera layer: the region, scaled to cover the box, cropped to
    the box. *)
Lemma camera_layer (region : CamRegion.t) (in_w in_h w h : Z) :
  inside_frame region in_w in_h → 0 < w → 0 < h →
  apply_filters
    [ crop (CamRegion.width region) (CamRegion.height region)
           (Some (Js.Int (CamRegion.x region), Js.Int (CamRegion.y region)));
      scale w h (Some increase);
      crop w h None ]
    [Video in_w in_h]
  = Some [Video w h].
Proof.
  intros (Hx & Hy & Hrw & Hrh & Hxw & Hyh) Hw Hh.
  cbn [apply_filters apply_filter mbind option_bind dim].
  rewrite cropped_inside by lia. cbn [mbind option_bind].
  rewrite sized_positive by lia. cbn [mbind option_bind].
  unfold scale_size. rewrite sized_positive by lia. cbn [mbind option_bind].
  rewrite cropped_inside by lia. done.
Qed.

Lemma camera_layer_refused (region : CamRegion.t) (in_w in_h : Z) :
  in_w < CamRegion.width region ∨ in_h < CamRegion.height region →
  ∀ w h,
    apply_filters
      [ crop (CamRegion.width region) (CamRegion.height region)
             (Some (Js.Int (CamRegion.x region), Js.Int (CamRegion.y region)));
        scale w h (Some increase);
        crop w h None ]
      [Video in_w in_h]
    = None.
Proof.
  intros Hout w h. cbn [apply_filters apply_filter mbind option_bind dim].
  unfold cropped. by rewrite bool_decide_false by lia.
Qed.

(** A video scaled to fit the box and padded to it. *)
Lemma normalized_layer (in_w in_h w h : Z) (rate : string) :
  0 < in_w → 0 < in_h → 0 < w → 0 < h →
  in_h ≤ 2 * h * in_w → in_w ≤ 2 * w * in_h →
  apply_filters [scale w h (Some decrease); pad_center w h; setsar 1; fps rate]
                [Video in_w in_h]
  = Some [Video w h].
Proof.
  intros Hiw Hih Hw Hh Hfw Hfh.
  pose proof (av_rescale_positive h in_w in_h Hih Hfw).
  pose proof (av_rescale_positive w in_h in_w Hiw Hfh).
  cbn [apply_filters apply_filter mbind option_bind dim].
  rewrite sized_positive by lia. cbn [mbind option_bind].
  unfold scale_size. rewrite sized_positive by lia. cbn [mbind option_bind].
  rewrite padded_around by lia. done.
Qed.
End Frames.

Section Reframe.
Import Ffmpeg VideoService.
Local Open Scope Z_scope.

#[local] Arguments apply_filters : simpl never.

Lemma layout_constants :
  cameraWidth = 324 ∧ cameraHeight = 576 ∧ fullCameraHeight = 576 ∧ fullGameplayHeight = 1344.
Proof. by vm_compute. Qed.

(** The halvings of the overlay offsets are exact. *)
Lemma layout_halves_exact :
  (targetWidth - cameraWidth) mod 2 = 0 ∧ (targetHeight - cameraHeight) mod 2 = 0.
Proof. by vm_compute. Qed.

(** Whatever the position and the size of the source, the graph of the
    extracted-camera layouts ends in one 1080x1920 video. *)
Lemma extractedCamera_frame (region : CamRegion.t) (position videoPath outputPath : string)
    (in_w in_h : Z) (audio : bool) :
  inside_frame region in_w in_h →
  output_resolution [ {| in_video := Some (in_w, in_h); in_audio := audio |} ]
    (extractedCamera_command videoPath outputPath region position)
  = Some (1080, 1920).
Proof.
  intros Hin.
  assert (0 < in_w ∧ 0 < in_h) as [Hw Hh] by (unfold inside_frame in Hin; lia).
  destruct layout_constants as (Hcw & Hch & Hfc & Hfg).
  unfold output_resolution, output_streams, extractedCamera_command, extractedCamera_filter.
  cbn [complexFilter outputOptions].
  destruct (String.eqb position "bottom full");
    [|destruct (String.eqb position "top full");
      [|destruct (extractedCameraXY position) as [cameraX cameraY]]].
  all: unfold run_graph, run_chain, camera_chain, main_chain; simpl.
  all: rewrite ?Hcw, ?Hch, ?Hfc, ?Hfg.
  all: rewrite (camera_layer region in_w in_h) by (done || by vm_compute).
  all: rewrite (main_layer in_w in_h) by (done || by vm_compute).
  all: simpl.
  all: repeat (progress (repeat (rewrite lookup_insert_ne by done);
                         rewrite ?lookup_insert_eq; simpl)).
  all: unfold apply_filters, apply_filter; simpl.
  all: rewrite ?bool_decide_true by done; simpl.
  all: repeat (progress (repeat (rewrite lookup_insert_ne by done);
                         rewrite ?lookup_insert_eq; simpl)).
  all: by destruct audio.
Qed.
(** A region wider or higher than the source frame makes the engine
    refuse the graph. *)
Lemma extractedCamera_refused (region : CamRegion.t) (position videoPath outputPath : string)
    (in_w in_h : Z) (audio : bool) :
  in_w < CamRegion.width region ∨ in_h < CamRegion.height region →
  output_resolution [ {| in_video := Some (in_w, in_h); in_audio := audio |} ]
    (extractedCamera_command videoPath outputPath region position)
  = None.
Proof.
  intros Hout.
  pose proof (camera_layer_refused region in_w in_h Hout) as Hcam.
  unfold output_resolution, output_streams, extractedCamera_command, extractedCamera_filter.
  cbn [complexFilter outputOptions].
  destruct (String.eqb position "bottom full");
    [|destruct (String.eqb position "top full");
      [|destruct (extractedCameraXY position) as [cameraX cameraY]]].
  all: unfold run_graph, run_chain, camera_chain, main_chain; simpl.
  all: rewrite !Hcam; try done.
  by destruct (apply_filters _ _) as [[|? []]|].
Qed.
End Reframe.

Section EditorReframe.
Import Ffmpeg VideoService EditorRoutes.
Context (o : Oracle).

Lemma run_spec c w :
  run o c w =
    let w1 := {| files := files w; calls := calls w ++ [call_ffmpeg c]; ticks := ticks w |} in
    match ffmpeg o c with
    | ffmpeg_end =>
        (Ok (save c), {| files := {[save c]} ∪ files w; calls := calls w1; ticks := ticks w |})
    | ffmpeg_error message written => (Throw message, (write_if written (save c) w1).2)
    end.
Proof.
  unfold run. rewrite bind_run. simpl.
  destruct (ffmpeg o c) as [|message written]; simpl; [done|].
  rewrite bind_run. by destruct written.
Qed.

Lemma extractedCamera_run videoPath region name position w meta :
  ffprobe o videoPath = answer meta →
  convertToVerticalWithExtractedCamera o videoPath region name position w
  = run o (extractedCamera_command videoPath (Js.path_join (outputDir o) name) region
                                   (default "bottom" position))
        {| files := files w; calls := calls w ++ [call_ffprobe videoPath];
           ticks := ticks w |}.
Proof.
  intros Hprobe. unfold convertToVerticalWithExtractedCamera, getVideoMetadata.
  rewrite !bind_run. simpl. by rewrite Hprobe.
Qed.

Lemma stamped_quiet prefix suffix w :
  ∃ name w1, stamped o prefix suffix w = (Ok name, w1)
             ∧ calls w1 = calls w ∧ files w1 = files w.
Proof. unfold stamped, now. rewrite !bind_run. simpl. by eexists _, _. Qed.

Lemma generateThumbnail_quiet video name timestamp w :
  ∃ shot, calls (generateThumbnail o video name timestamp w).2 = calls w ++ [shot]
          ∧ ffmpeg_commands [shot] = [].
Proof.
  unfold generateThumbnail. rewrite bind_run. simpl.
  destruct (screenshots o video name _) as [|message written]; simpl.
  - by eexists.
  - rewrite bind_run. destruct written; simpl; by eexists.
Qed.

(** The editor worker without an outro: what its reframe step
    returns is the job's video, and no later step runs ffmpeg. *)
Lemma editor_no_outro data w res :
  hasOutro (JobData.template data) = false →
  (process o data w).1 = Ok res →
  ∃ w1 w2 after,
    calls w1 = calls w ++ [call_progress 10]
    ∧ match bool_decide (aspectRatio (JobData.template data) = Some "9:16"),
            JobData.camRegion data with
      | true, Some camRegion =>
          log (call_progress 30);;
          verticalFilename ← stamped o "vertical_" ".mp4";
          convertToVerticalWithExtractedCamera
            o (JobData.videoPath data) camRegion verticalFilename
            (JobData.cameraPosition data)
      | true, None =>
          log (call_progress 30);;
          verticalFilename ← stamped o "vertical_" ".mp4";
          convertToVertical o (JobData.videoPath data) verticalFilename
                            (JobData.cameraPosition data)
      | false, _ => mret (JobData.videoPath data)
      end w1 = (Ok (CompilationResult.videoPath res), w2)
    ∧ calls (process o data w).2 = calls w2 ++ after
    ∧ ffmpeg_commands after = [].
Proof.
  intros Houtro Hres. destruct (process o data w) as [r w'] eqn:Hrun.
  simpl in Hres. subst r. revert Hrun.
  unfold process, try_catch. rewrite Houtro.
  rewrite bind_run. simpl. rewrite bind_run.
  match goal with |- context [stamped o "edited_" ".mp4" ?w0] =>
    destruct (stamped_quiet "edited_" ".mp4" w0) as (n1 & w1 & E1 & Ec1 & _)
  end.
  rewrite E1. simpl in Ec1. rewrite bind_run.
  match goal with |- context [match ?m w1 with _ => _ end] =>
    destruct (m w1) as [[p|e|e] w2] eqn:Em
  end; [|done|done].
  assert (∃ w3, calls w3 = calls w2 ++ (if hasIntro (JobData.template data)
                                        then [call_progress 50] else [])
                ∧ (if hasIntro (JobData.template data)
                   then log (call_progress 50) else mret ()) w2 = (Ok tt, w3))
    as (w3 & Ec3 & E3).
  { destruct (hasIntro _); eexists; (split; [|reflexivity]); simpl; [done|].
    by rewrite app_nil_r. }
  rewrite bind_run, E3. simpl. rewrite bind_run. simpl. rewrite bind_run.
  unfold log at 1, modify at 1. cbv beta iota. rewrite bind_run.
  match goal with |- context [stamped o "thumb_" ".jpg" ?w0] =>
    destruct (stamped_quiet "thumb_" ".jpg" w0) as (n2 & w4 & E4 & Ec4 & _)
  end.
  rewrite E4. simpl in Ec4. rewrite bind_run.
  destruct (generateThumbnail_quiet p n2 None w4) as (shot & Ec5 & Hshot).
  destruct (generateThumbnail o p n2 None w4) as [[t|e|e] w5]; simpl in *; [|done|done].
  intros [= <- <-]. simpl.
  exists w1, w2. eexists. split_and!; [done|done| |].
  - rewrite Ec5, Ec4, Ec3, <- !app_assoc. reflexivity.
  - rewrite !ffmpeg_commands_app. simpl. rewrite Hshot. by destruct (hasIntro _).
Qed.


Lemma extractedCamera_unwritten videoPath outputPath region position meta source :
  ffprobe o videoPath = answer meta →
  find_stream "video" meta = Some source →
  (width source < CamRegion.width region ∨ height source < CamRegion.height region)%Z →
  frame_written o (extractedCamera_command videoPath outputPath region position) = None.
Proof.
  intros Hprobe Hfind Hout. unfold frame_written, probe. simpl.
  rewrite Hprobe. unfold probed. rewrite Hfind. simpl.
  by apply extractedCamera_refused.
Qed.

Lemma extractedCamera_written videoPath outputPath region position meta source :
  ffprobe o videoPath = answer meta →
  find_stream "video" meta = Some source →
  inside_frame region (width source) (height source) →
  frame_written o (extractedCamera_command videoPath outputPath region position)
  = Some (1080, 1920)%Z.
Proof.
  intros Hprobe Hfind Hin. unfold frame_written, probe. simpl.
  rewrite Hprobe. unfold probed. rewrite Hfind. simpl.
  by apply extractedCamera_frame.
Qed.

(** An editor job with a 9:16 template, a camera region and no outro
    returns the reframed video, made by the one ffmpeg command of the
    run. *)
Lemma editor_reframed data w res region meta :
  aspectRatio (JobData.template data) = Some "9:16" →
  hasOutro (JobData.template data) = false →
  JobData.camRegion data = Some region →
  ffprobe o (JobData.videoPath data) = answer meta →
  (process o data w).1 = Ok res →
  ∃ name,
    let command :=
      extractedCamera_command (JobData.videoPath data) (Js.path_join (outputDir o) name)
        region (default "bottom" (JobData.cameraPosition data)) in
    CompilationResult.videoPath res = save command
    ∧ ffmpeg_commands (new_calls w (process o data w).2) = [command].
Proof.
  intros Hratio Houtro Hregion Hprobe Hok.
  destruct (editor_no_outro data w res Houtro Hok) as (w1 & w2 & after & Ec1 & Em & Ec & Hq).
  rewrite Hratio, Hregion in Em. rewrite bool_decide_true in Em by done.
  revert Em. rewrite bind_run. simpl. rewrite bind_run.
  match goal with |- context [stamped o "vertical_" ".mp4" ?w0] =>
    destruct (stamped_quiet "vertical_" ".mp4" w0) as (name & w3 & E3 & Ec3 & _)
  end.
  rewrite E3. simpl in Ec3. rewrite (extractedCamera_run _ _ _ _ _ meta Hprobe), run_spec.
  cbv zeta. destruct (ffmpeg o _) as [|message written]; [|done].
  intros [= Hpath Hw2]. exists name. cbv zeta. split; [done|].
  erewrite new_calls_app;
    [|rewrite Ec, <- Hw2; simpl; rewrite Ec3, Ec1, <- !app_assoc; reflexivity].
  rewrite !ffmpeg_commands_app, Hq. reflexivity.
Qed.

(** An editor job with another template and no outro returns the
    upload as it is; no ffmpeg command is run. *)
Lemma editor_passthrough data w res :
  aspectRatio (JobData.template data) ≠ Some "9:16" →
  hasOutro (JobData.template data) = false →
  (process o data w).1 = Ok res →
  CompilationResult.videoPath res = JobData.videoPath data
  ∧ ffmpeg_commands (new_calls w (process o data w).2) = [].
Proof.
  intros Hratio Houtro Hok.
  destruct (editor_no_outro data w res Houtro Hok) as (w1 & w2 & after & Ec1 & Em & Ec & Hq).
  rewrite bool_decide_false in Em by done. injection Em as <- <-. split; [done|].
  erewrite new_calls_app; [|rewrite Ec, Ec1, <- !app_assoc; reflexivity].
  by rewrite !ffmpeg_commands_app, Hq.
Qed.
End EditorReframe.

Section ReframeClaim.
Import Ffmpeg VideoService EditorRoutes.
Local Open Scope Z_scope.

(** C5 (amended): the editor's reframe, [convertToVerticalWithExtractedCamera],
    run on a source that ffprobe can read and with a camera region
    inside the source frame, probes the source and runs one ffmpeg
    command on it, whose output is 1080x1920 for every camera position
    and every source size; a region wider or higher than the source
    frame makes the engine refuse the command, whatever the position.
    The stack layouts scale the camera to a band
    of 576 lines (30%) and the gameplay to a band of 1344 lines (70%),
    which add up to the 1920 lines of the canvas. The editor worker
    reframes only for the 9:16 template: without outro, such a job
    returns a 1080x1920 video, and a job with any other template runs
    no ffmpeg command and returns the upload as it is. *)
Theorem C5_reframe_resolution (o : Oracle) (videoPath : string) (camRegion : CamRegion.t)
    (outputFilename : string) (cameraPosition : option string)
    (meta : Metadata) (source : StreamInfo) (w : World) :
  ffprobe o videoPath = answer meta →
  find_stream "video" meta = Some source →
  inside_frame camRegion (width source) (height source) →
  let '(r, w') :=
    convertToVerticalWithExtractedCamera o videoPath camRegion outputFilename
                                         cameraPosition w in
  (∃ command,
     new_calls w w' = [call_ffprobe videoPath; call_ffmpeg command]
     ∧ inputs command = [videoPath]
     ∧ save command = Js.path_join (outputDir o) outputFilename
     ∧ frame_written o command = Some (1080, 1920)
     ∧ (ffmpeg o command = ffmpeg_end → r = Ok (save command) ∧ save command ∈ files w')
     ∧ (∀ p, r = Ok p → ffmpeg o command = ffmpeg_end))
  ∧ (∀ region position outputPath,
       width source < CamRegion.width region ∨ height source < CamRegion.height region →
       frame_written o (extractedCamera_command videoPath outputPath region position)
       = None)
  ∧ (targetWidth, targetHeight) = (1080, 1920)
  ∧ fullGameplayHeight + fullCameraHeight = targetHeight
  ∧ 10 * fullCameraHeight = 3 * targetHeight
  ∧ 10 * fullGameplayHeight = 7 * targetHeight
  ∧ (∀ position first second,
       (position, first, second) ∈ [ ("bottom full", "gameplay", "cam");
                                      ("top full", "cam", "gameplay") ] →
       extractedCamera_filter camRegion position =
         [ {| chain_in := [in_v 0];
              chain_filters :=
                [ crop (CamRegion.width camRegion) (CamRegion.height camRegion)
                       (Some (Js.Int (CamRegion.x camRegion),
                              Js.Int (CamRegion.y camRegion)));
                  scale 1080 576 (Some increase);
                  crop 1080 576 None ];
              chain_out := ["cam"] |};
           {| chain_in := [in_v 0];
              chain_filters :=
                [ crop_expr (min_ iw (muldiv ih 9 16)) ih; scale 1080 1344 None ];
              chain_out := ["gameplay"] |};
           {| chain_in := [label first; label second];
              chain_filters := [vstack 2];
              chain_out := ["final"] |} ])
  ∧ (∀ intro, reframes_to (1080, 1920)
                {| aspectRatio := Some "9:16"; hasIntro := intro; hasOutro := false |})
  ∧ (∀ data w0 res,
       aspectRatio (JobData.template data) ≠ Some "9:16" →
       hasOutro (JobData.template data) = false →
       (process o data w0).1 = Ok res →
       CompilationResult.videoPath res = JobData.videoPath data
       ∧ ffmpeg_commands (new_calls w0 (process o data w0).2) = []).
Proof.
  intros Hprobe Hfind Hin.
  rewrite (extractedCamera_run o _ _ _ _ _ meta Hprobe), run_spec. cbv zeta.
  set (command := extractedCamera_command videoPath _ camRegion _).
  assert (frame_written o command = Some (1080, 1920)) as Hframe
    by (by eapply extractedCamera_written).
  assert (∀ r w', (r, w') = match ffmpeg o command with
                            | ffmpeg_end =>
                                (Ok (save command),
                                 {| files := {[save command]} ∪ files w;
                                    calls := (calls w ++ [call_ffprobe videoPath])
                                             ++ [call_ffmpeg command];
                                    ticks := ticks w |})
                            | ffmpeg_error message written =>
                                (Throw message,
                                 (write_if written (save command)
                                    {| files := files w;
                                       calls := (calls w ++ [call_ffprobe videoPath])
                                                ++ [call_ffmpeg command];
                                       ticks := ticks w |}).2)
                            end →
          ∃ command,
            new_calls w w' = [call_ffprobe videoPath; call_ffmpeg command]
            ∧ inputs command = [videoPath]
            ∧ save command = Js.path_join (outputDir o) outputFilename
            ∧ frame_written o command = Some (1080, 1920)
            ∧ (ffmpeg o command = ffmpeg_end
               → r = Ok (save command) ∧ save command ∈ files w')
            ∧ (∀ p, r = Ok p → ffmpeg o command = ffmpeg_end)) as Hrun.
  { intros r w' E. exists command.
    destruct (ffmpeg o command) as [|message written]; injection E as -> ->.
    - split_and!; try done.
      + apply new_calls_app. simpl. by rewrite <- !app_assoc.
      + intros _. simpl. split; [done|]. set_solver.
    - split_and!; try done.
      apply new_calls_app. destruct written; simpl; by rewrite <- !app_assoc. }
  simpl in Hrun.
  match goal with |- context [let '(_, _) := ?x in _] => destruct x as [r w'] eqn:E end.
  split; [by apply Hrun|]. clear Hrun E.
  split; [intros region position outputPath; by eapply extractedCamera_unwritten|].
  split; [done|]. split; [done|]. split; [done|]. split; [done|].
  split_and!.
  - intros position first second Hpos.
    repeat (apply elem_of_cons in Hpos as [[= -> -> ->]|Hpos]; [by vm_compute|]).
    by apply elem_of_nil in Hpos.
  - intros intro o' data w0 res meta' source' region Ht Hr Hp Hf Hi Hok.
    destruct (editor_reframed o' data w0 res region meta') as (name & Hv & Hc);
      try done; try (by rewrite Ht).
    cbv zeta in Hv, Hc. unfold frame_size. rewrite Hc, Hv.
    rewrite filter_cons_True by done. rewrite filter_nil. simpl.
    by eapply extractedCamera_written.
  - intros data w0 res. apply editor_passthrough.
Qed.

(** The reframe of a 1920x1080 upload with the camera in its lower
    right corner, stacked below the gameplay. *)
Lemma C5_witness :
  ∃ command,
    new_calls Example.fresh
      (convertToVerticalWithExtractedCamera Example.studio "uploads/editor/video-1.mp4"
         Example.sample_region "vertical_1.mp4" (Some "bottom full") Example.fresh).2
    = [call_ffprobe "uploads/editor/video-1.mp4"; call_ffmpeg command]
    ∧ frame_written Example.studio command = Some (1080, 1920).
Proof.
  pose proof (C5_reframe_resolution Example.studio "uploads/editor/video-1.mp4"
                Example.sample_region "vertical_1.mp4" (Some "bottom full")
                Example.with_audio Example.video_stream Example.fresh
                eq_refl eq_refl) as H.
  destruct (convertToVerticalWithExtractedCamera _ _ _ _ _ _) as [r w'].
  destruct H as ((command & Hcalls & _ & _ & Hframe & _) & _).
  { unfold inside_frame. simpl. lia. }
  by exists command.
Defined.

(** The specification's reading fails for the 16:9 template: the two
    jobs below differ in their upload only, and each returns its
    upload, at the upload's own size. *)
Lemma C5_counterexample :
  ¬ reframes_to_canvas
      {| aspectRatio := Some "16:9"; hasIntro := false; hasOutro := false |}.
Proof.
  intros (canvas & H).
  assert (inside_frame {| CamRegion.x := 0; CamRegion.y := 0;
                          CamRegion.width := 320; CamRegion.height := 180 |} 1920 1080)
    as Hbig by (unfold inside_frame; simpl; lia).
  assert (inside_frame {| CamRegion.x := 0; CamRegion.y := 0;
                          CamRegion.width := 320; CamRegion.height := 180 |} 1280 720)
    as Hsmall by (unfold inside_frame; simpl; lia).
  pose proof (H Example.studio (Example.widescreen "uploads/editor/video-1.mp4")
                Example.fresh _ Example.with_audio Example.video_stream _
                eq_refl eq_refl eq_refl eq_refl Hbig eq_refl) as H1.
  pose proof (H Example.studio (Example.widescreen "outros/outro.mp4")
                Example.fresh _ Example.silent_outro Example.outro_stream _
                eq_refl eq_refl eq_refl eq_refl Hsmall eq_refl) as H2.
  vm_compute in H1, H2. congruence.
Qed.
End ReframeClaim.

Section Overlay.
Import Ffmpeg VideoService.
Local Open Scope Z_scope.

(** With a source that can be probed, the reframe runs exactly one
    ffmpeg command: the one built from the region and the position. *)
Lemma extractedCamera_commands o videoPath region name position w meta :
  ffprobe o videoPath = answer meta →
  ffmpeg_commands
    (new_calls w (convertToVerticalWithExtractedCamera o videoPath region name position w).2)
  = [extractedCamera_command videoPath (Js.path_join (outputDir o) name) region
                             (default "bottom" position)].
Proof.
  intros Hprobe. rewrite (extractedCamera_run o _ _ _ _ _ meta Hprobe), run_spec. cbv zeta.
  destruct (ffmpeg o _) as [|message written]; [|destruct written]; simpl;
    (erewrite new_calls_app; [|simpl; rewrite <- !app_assoc; reflexivity]); done.
Qed.

(** Neither overlay plan is the one the specification describes: for
    no nonzero padding does the extracted-camera plan place the camera
    at the padded offsets, and the separate-camera plan draws no
    border. *)
Lemma C7_counterexample :
  ¬ padded_bordered_overlay (extractedCamera_filter Example.sample_region)
  ∧ ¬ padded_bordered_overlay withCamera_filter.
Proof.
  split; intros (pad & Hpad & Hall).
  - apply Forall_forall with (x := ("top left", (at_start, at_start))) in Hall;
      [|set_solver].
    destruct Hall as (Hoff & _). vm_compute in Hoff.
    injection Hoff as <-. lia.
  - apply Forall_forall with (x := ("top left", (at_start, at_start))) in Hall;
      [|set_solver].
    destruct Hall as (_ & _ & Hborder). by vm_compute in Hborder.
Qed.

(** C7 (amended): for every overlay position the command the
    extracted-camera reframe runs crops the main layer to 9:16 and
    scales it to the 1080x1920 canvas, crops the camera region out of
    the source, scales it to cover 324x576 (30% of the canvas each way)
    and crops it to that size, frames it with a 2-pixel white border
    and overlays it flush with the nearest edges (padding 0), centred
    along the other axis. The 20-pixel padding belongs to the
    separate-camera plan, which neither crops the camera nor draws a
    border. *)
Theorem C7_overlay_layout (camRegion : CamRegion.t) :
  Forall (λ '(name, anchors),
            let graph :=
              [ {| chain_in := [in_v 0];
                   chain_filters :=
                     [ crop_expr (min_ iw (muldiv ih 9 16)) ih; scale 1080 1920 None ];
                   chain_out := ["main"] |};
                {| chain_in := [in_v 0];
                   chain_filters :=
                     [ crop (CamRegion.width camRegion) (CamRegion.height camRegion)
                            (Some (Js.Int (CamRegion.x camRegion),
                                   Js.Int (CamRegion.y camRegion)));
                       scale 324 576 (Some increase);
                       crop 324 576 None ];
                   chain_out := ["cam"] |};
                {| chain_in := [label "cam"];
                   chain_filters := [drawbox_frame "white@0.8" 2];
                   chain_out := ["cam_bordered"] |};
                {| chain_in := [label "main"; label "cam_bordered"];
                   chain_filters :=
                     [overlay (offset_with 0 anchors).1 (offset_with 0 anchors).2 false];
                   chain_out := ["final"] |} ] in
            extractedCamera_filter camRegion name = graph
            ∧ (∀ o videoPath outputFilename w meta,
                 ffprobe o videoPath = answer meta →
                 ∃ command,
                   ffmpeg_commands
                     (new_calls w
                        (convertToVerticalWithExtractedCamera
                           o videoPath camRegion outputFilename (Some name) w).2)
                   = [command]
                   ∧ inputs command = [videoPath]
                   ∧ complexFilter command = graph
                   ∧ take 1 (outputOptions command) = [map_ (label "final") false])
            ∧ overlay_offset graph = Some (offset_with 0 anchors)
            ∧ cover_cropped cameraWidth cameraHeight graph = true
            ∧ has_border graph = true)
         overlay_positions
  ∧ 10 * cameraWidth = 3 * targetWidth
  ∧ 10 * cameraHeight = 3 * targetHeight
  ∧ Forall (λ '(name, anchors),
              overlay_offset (withCamera_filter name) = Some (offset_with padding anchors)
              ∧ cover_cropped cameraWidth cameraHeight (withCamera_filter name) = false
              ∧ has_border (withCamera_filter name) = false)
           overlay_positions
  ∧ padding = 20.
Proof.
  split_and!; try by vm_compute.
  - repeat (constructor;
            [cbv zeta; split_and!; try (by vm_compute);
             intros o videoPath outputFilename w meta Hprobe;
             eexists; split_and!;
             [by apply (extractedCamera_commands o videoPath camRegion outputFilename
                          (Some _) w meta)
             |reflexivity|reflexivity|reflexivity]|]).
    constructor.
  - repeat constructor.
Qed.
End Overlay.

Section Outro.
Import Ffmpeg VideoService.
Local Open Scope Z_scope.

#[local] Arguments apply_filters : simpl never.

(** With both files probed, [addOutro] runs the command built from
    the two probes. *)
Lemma addOutro_run o videoPath outroPath name w mainMeta outroMeta command :
  ffprobe o videoPath = answer mainMeta →
  ffprobe o outroPath = answer outroMeta →
  addOutro_command o mainMeta outroMeta videoPath outroPath
                   (Js.path_join (outputDir o) name) = answer command →
  addOutro o videoPath outroPath name w
  = run o command
        {| files := files w;
           calls := calls w ++ [call_ffprobe videoPath; call_ffprobe outroPath];
           ticks := ticks w |}.
Proof.
  intros Hmain Houtro Hcommand. unfold addOutro, getVideoMetadata, settle.
  rewrite !bind_run. simpl. rewrite Hmain. simpl.
  rewrite !bind_run. simpl. rewrite Houtro. simpl. rewrite Hcommand.
  by rewrite <- !app_assoc.
Qed.

(** C4: run on two files that ffprobe can read, both with a video
    stream of positive size, the outro's frame not so flat or narrow
    that fitting it into the main frame leaves less than a pixel,
    [addOutro] probes them and runs one ffmpeg command on the two of
    them, in that order.
    Its graph scales and pads both videos to the main video's size and
    rate; with audio on both sides it concatenates video and audio of
    the two segments; with audio on one side only it first generates a
    silent track lasting as long as the video stream of the side
    without audio and concatenates with it; with no audio it
    concatenates the videos only. The output has exactly one video
    stream, of the main video's size, and one audio stream unless
    neither input has audio. *)
Theorem C4_outro_streams (o : Oracle) (videoPath outroPath outputFilename : string)
    (mainMeta outroMeta : Metadata) (mainVideo outroVideo : StreamInfo) (rate : string)
    (w : World) :
  ffprobe o videoPath = answer mainMeta →
  ffprobe o outroPath = answer outroMeta →
  find_stream "video" mainMeta = Some mainVideo →
  find_stream "video" outroMeta = Some outroVideo →
  eval_rate o (r_frame_rate mainVideo) = answer rate →
  0 < width mainVideo → 0 < height mainVideo →
  0 < width outroVideo → 0 < height outroVideo →
  height outroVideo ≤ 2 * height mainVideo * width outroVideo →
  width outroVideo ≤ 2 * width mainVideo * height outroVideo →
  let mainAudio := Js.defined (find_stream "audio" mainMeta) in
  let outroAudio := Js.defined (find_stream "audio" outroMeta) in
  let normalized (input : nat) (name : string) :=
    {| chain_in := [in_v input];
       chain_filters :=
         [ scale (width mainVideo) (height mainVideo) (Some decrease);
           pad_center (width mainVideo) (height mainVideo);
           setsar 1;
           fps rate ];
       chain_out := [name] |} in
  let silence (d : string) :=
    {| chain_in := []; chain_filters := [aevalsrc 0 d]; chain_out := ["silentaudio"] |} in
  let '(r, w') := addOutro o videoPath outroPath outputFilename w in
  ∃ command,
    new_calls w w' = [call_ffprobe videoPath; call_ffprobe outroPath; call_ffmpeg command]
    ∧ inputs command = [videoPath; outroPath]
    ∧ save command = Js.path_join (outputDir o) outputFilename
    ∧ (ffmpeg o command = ffmpeg_end → r = Ok (save command))
    ∧ complexFilter command =
        normalized 0%nat "v0" :: normalized 1%nat "v1" ::
        match mainAudio, outroAudio with
        | true, true =>
            [ {| chain_in := [label "v0"; in_a 0; label "v1"; in_a 1];
                 chain_filters := [concat 2 1 1];
                 chain_out := ["outv"; "outa"] |} ]
        | true, false =>
            [ silence (duration outroVideo);
              {| chain_in := [label "v0"; in_a 0; label "v1"; label "silentaudio"];
                 chain_filters := [concat 2 1 1];
                 chain_out := ["outv"; "outa"] |} ]
        | false, true =>
            [ silence (duration mainVideo);
              {| chain_in := [label "v0"; label "silentaudio"; label "v1"; in_a 1];
                 chain_filters := [concat 2 1 1];
                 chain_out := ["outv"; "outa"] |} ]
        | false, false =>
            [ {| chain_in := [label "v0"; label "v1"];
                 chain_filters := [concat 2 1 0];
                 chain_out := ["outv"] |} ]
        end
    ∧ ∃ streams,
        streams_written o command = Some streams
        ∧ streams = Video (width mainVideo) (height mainVideo)
                    :: (if mainAudio || outroAudio then [Audio] else [])
        ∧ count_video streams = 1%nat
        ∧ count_audio streams = (if mainAudio || outroAudio then 1 else 0)%nat.
Proof.
  intros Hmain Houtro Hmv Hov Hrate Hmw Hmh How Hoh Hfw Hfh.
  intros mainAudio outroAudio normalized silence.
  assert (∃ command,
            addOutro_command o mainMeta outroMeta videoPath outroPath
                             (Js.path_join (outputDir o) outputFilename) = answer command
            ∧ inputs command = [videoPath; outroPath]
            ∧ save command = Js.path_join (outputDir o) outputFilename
            ∧ complexFilter command =
                normalized 0%nat "v0" :: normalized 1%nat "v1" ::
                match mainAudio, outroAudio with
                | true, true =>
                    [ {| chain_in := [label "v0"; in_a 0; label "v1"; in_a 1];
                         chain_filters := [concat 2 1 1];
                         chain_out := ["outv"; "outa"] |} ]
                | true, false =>
                    [ silence (duration outroVideo);
                      {| chain_in := [label "v0"; in_a 0; label "v1"; label "silentaudio"];
                         chain_filters := [concat 2 1 1];
                         chain_out := ["outv"; "outa"] |} ]
                | false, true =>
                    [ silence (duration mainVideo);
                      {| chain_in := [label "v0"; label "silentaudio"; label "v1"; in_a 1];
                         chain_filters := [concat 2 1 1];
                         chain_out := ["outv"; "outa"] |} ]
                | false, false =>
                    [ {| chain_in := [label "v0"; label "v1"];
                         chain_filters := [concat 2 1 0];
                         chain_out := ["outv"] |} ]
                end
            ∧ outputOptions command =
                [opt "-c:v" "libx264"; opt "-preset" "fast"; opt "-crf" "23"]
                ++ (if mainAudio || outroAudio
                    then [ map_ (label "outv") false; map_ (label "outa") false;
                           opt "-c:a" "aac" ]
                    else [ map_ (label "outv") false ]))
    as (command & Hcommand & Hinputs & Hsave & Hgraph & Hopts).
  { unfold addOutro_command. rewrite Hmv, Hov, Hrate.
    subst mainAudio outroAudio normalized silence.
    destruct (find_stream "audio" mainMeta), (find_stream "audio" outroMeta);
      eexists; (split; [reflexivity|]); by split_and!. }
  rewrite (addOutro_run o _ _ _ _ _ _ _ Hmain Houtro Hcommand), run_spec. cbv zeta.
  assert (∃ streams,
            streams_written o command = Some streams
            ∧ streams = Video (width mainVideo) (height mainVideo)
                        :: (if mainAudio || outroAudio then [Audio] else [])
            ∧ count_video streams = 1%nat
            ∧ count_audio streams = (if mainAudio || outroAudio then 1 else 0)%nat)
    as Hstreams.
  { eexists. split; [|split; [reflexivity|]].
    - unfold streams_written, output_streams. rewrite Hinputs, Hgraph, Hopts.
      simpl fmap. unfold probe. rewrite Hmain, Houtro. unfold probed. rewrite Hmv, Hov.
      fold mainAudio. fold outroAudio. simpl option_fmap.
      unfold run_graph, run_chain. subst normalized silence. simpl.
      rewrite (normalized_layer (width mainVideo) (height mainVideo)) by (try done; nia).
      simpl.
      rewrite (normalized_layer (width outroVideo) (height outroVideo)) by done.
      destruct mainAudio, outroAudio; simpl.
      all: repeat (progress (repeat (rewrite lookup_insert_ne by done);
                             rewrite ?lookup_insert_eq; simpl)).
      all: unfold apply_filters, apply_filter; simpl.
      all: rewrite ?bool_decide_true by done; simpl.
      all: repeat (progress (repeat (rewrite lookup_insert_ne by done);
                             rewrite ?lookup_insert_eq; simpl)).
      all: done.
    - by destruct mainAudio, outroAudio. }
  destruct (ffmpeg o command) as [|message written] eqn:Hend.
  - exists command. split_and!; try done.
    apply new_calls_app. simpl. by rewrite <- !app_assoc.
  - exists command. split_and!; try done; [|congruence].
    apply new_calls_app. destruct written; simpl; by rewrite <- !app_assoc.
Qed.
End Outro.


(** ** The text the services hand to ffmpeg *)

Section Rendering.
Import Ffmpeg VideoService.

Example render_stack :
  render_graph (extractedCamera_filter Example.sample_region "bottom full") =
    "[0:v]crop=400:280:1500:780,scale=1080:576:force_original_aspect_ratio=increase,crop=1080:576[cam];[0:v]crop='min(iw,ih*9/16):ih',scale=1080:1344[gameplay];[gameplay][cam]vstack=inputs=2[final]".
Proof. by vm_compute. Qed.

Example render_overlay :
  render_graph (extractedCamera_filter Example.sample_region "top right") =
    "[0:v]crop='min(iw,ih*9/16):ih',scale=1080:1920[main];[0:v]crop=400:280:1500:780,scale=324:576:force_original_aspect_ratio=increase,crop=324:576[cam];[cam]drawbox=x=0:y=0:w=iw:h=ih:color=white@0.8:t=2[cam_bordered];[main][cam_bordered]overlay=756:0[final]".
Proof. by vm_compute. Qed.

Example render_merge :
  render_graph (complexFilter (mergeClips_command "out/m.mp4" ["a.mp4"; "b.mp4"])) =
    "[0:v][0:a][1:v][1:a]concat=n=2:v=1:a=1[outv][outa]".
Proof. by vm_compute. Qed.

Example render_vertical :
  render_graph (convertToVertical_filter 1920 1080 "bottom") =
    "color=c=black:s=1080x1920[bg];[0:v]scale=1706:960:force_original_aspect_ratio=decrease[scaled];[bg][scaled]overlay=-313:0:shortest=1[final]".
Proof. by vm_compute. Qed.

Example render_outro :
  match addOutro_command Example.studio Example.with_audio Example.silent_outro
                         "main.mp4" "outro.mp4" "out.mp4" with
  | answer c => Some (render_graph (complexFilter c), outputOptions c ≫= render_option)
  | error _ => None
  end
  = Some
      ("[0:v]scale=1920:1080:force_original_aspect_ratio=decrease,pad=1920:1080:(ow-iw)/2:(oh-ih)/2,setsar=1,fps=30[v0];[1:v]scale=1920:1080:force_original_aspect_ratio=decrease,pad=1920:1080:(ow-iw)/2:(oh-ih)/2,setsar=1,fps=30[v1];aevalsrc=0:d=4.000000[silentaudio];[v0][0:a][v1][silentaudio]concat=n=2:v=1:a=1[outv][outa]",
       ["-c:v"; "libx264"; "-preset"; "fast"; "-crf"; "23";
        "-map"; "[outv]"; "-map"; "[outa]"; "-c:a"; "aac"]).
Proof. by vm_compute. Qed.
End Rendering.

(** ** The statements at concrete inputs *)

Section Instances.
Import Ffmpeg VideoService.

(** The run the instances below share: three clips, the second of
    which is gone upstream. *)
Lemma sample_run_completes :
  (createCompilation Example.studio Example.three_clips Example.default_options
                     Example.fresh).1
  = Ok (result_of "7f3c" "uploads/compilations/7f3c_vertical.mp4"
                  "uploads/compilations/7f3c_thumb.jpg").
Proof. by vm_compute. Qed.

Lemma sample_run_acquired :
  acquired Example.studio Example.three_clips Example.fresh
  = ["temp/7f3c_clip_0.mp4"; "temp/7f3c_clip_2.mp4"].
Proof. by vm_compute. Qed.

(** One of three downloads fails: the merge command concatenates the
    other two, in request order. *)
Lemma C1_witness :
  acquired Example.studio Example.three_clips Example.fresh
    = ["temp/7f3c_clip_0.mp4"; "temp/7f3c_clip_2.mp4"]
  ∧ ∃ command rest,
      ffmpeg_commands
        (new_calls Example.fresh
           (createCompilation Example.studio Example.three_clips Example.default_options
                              Example.fresh).2)
      = command :: rest
      ∧ inputs command = ["temp/7f3c_clip_0.mp4"; "temp/7f3c_clip_2.mp4"]
      ∧ render_graph (complexFilter command)
        = "[0:v][0:a][1:v][1:a]concat=n=2:v=1:a=1[outv][outa]"
      ∧ save command = "uploads/compilations/7f3c_merged.mp4".
Proof.
  split; [exact sample_run_acquired|].
  pose proof (C1_batch_acquisition Example.studio Example.three_clips
                Example.default_options Example.fresh) as H.
  destruct (createCompilation _ _ _ _) as [r w']. cbv zeta in H.
  destruct H as (_ & _ & _ & H & _). rewrite sample_run_acquired in H.
  destruct H as (command & rest & Hc & Hi & Hg & _ & Hs & _); [done|].
  exists command, rest. split_and!; [done|done|by rewrite Hg|by rewrite Hs].
Defined.

(** The screenshot of the reframed video fails: the job is failed with
    that error. *)
Lemma C2_witness :
  (CompilationRoutes.process Example.no_screenshot (Example.job None None) Example.fresh).1
    = Throw "ffmpeg exited with code 1".
Proof.
  pose proof (C2_thumbnail_failure_fails_job Example.no_screenshot (Example.job None None)
                Example.fresh) as H.
  destruct (CompilationRoutes.process _ _ _) as [r w'] eqn:E.
  destruct H as [H _].
  apply (H "uploads/compilations/7f3c_vertical.mp4" "7f3c_thumb.jpg" "00:00:01"
           "ffmpeg exited with code 1" false); [|reflexivity].
  apply (f_equal snd) in E. simpl in E. subst w'.
  apply (list_elem_of_lookup_2 _ 15). by vm_compute.
Defined.

(** A main video with audio and a silent outro: one video stream of
    the main video's size and one audio stream. *)
Lemma C4_witness :
  ∃ command,
    ffmpeg_commands
      (new_calls Example.fresh
         (addOutro Example.studio "main.mp4" "outros/outro.mp4" "out.mp4"
                   Example.fresh).2)
    = [command]
    ∧ inputs command = ["main.mp4"; "outros/outro.mp4"]
    ∧ streams_written Example.studio command = Some [Video 1920 1080; Audio].
Proof.
  pose proof (C4_outro_streams Example.studio "main.mp4" "outros/outro.mp4" "out.mp4"
                Example.with_audio Example.silent_outro
                Example.video_stream Example.outro_stream "30" Example.fresh
                eq_refl eq_refl eq_refl eq_refl eq_refl
                ltac:(simpl; lia) ltac:(simpl; lia) ltac:(simpl; lia)
                ltac:(simpl; lia) ltac:(simpl; lia) ltac:(simpl; lia)) as H.
  cbv zeta in H.
  destruct (addOutro _ _ _ _ _) as [r w'].
  destruct H as (command & Hcalls & Hin & _ & _ & _ & streams & Hs & -> & _).
  exists command. cbn [snd]. rewrite Hcalls. split_and!; [done|done|exact Hs].
Defined.

(** The specification's reading of the cleanup fails on this run: the
    merged file is neither the final video nor the thumbnail, and it
    is still there after the job completed. *)
Lemma C8_counterexample :
  ¬ only_final_outputs_remain Example.studio Example.three_clips Example.default_options
                              Example.fresh.
Proof.
  unfold only_final_outputs_remain.
  destruct (createCompilation _ _ _ _) as [r w'] eqn:E.
  vm_compute in E. injection E as <- <-. intros H.
  destruct (H _ eq_refl "uploads/compilations/7f3c_merged.mp4") as [[=]|[=]];
    by vm_compute.
Qed.

(** After the completed run both acquired clip files are gone, and
    the merged file is left beside the final video and the thumbnail. *)
Lemma C8_witness :
  let w' := (createCompilation Example.studio Example.three_clips Example.default_options
                               Example.fresh).2 in
  unlinked (new_calls Example.fresh w')
    = ["temp/7f3c_clip_0.mp4"; "temp/7f3c_clip_2.mp4"]
  ∧ ("temp/7f3c_clip_0.mp4" ∉ files w') ∧ ("temp/7f3c_clip_2.mp4" ∉ files w')
  ∧ "uploads/compilations/7f3c_merged.mp4" ∈ files w'
  ∧ "uploads/compilations/7f3c_vertical.mp4" ∈ files w'
  ∧ "uploads/compilations/7f3c_thumb.jpg" ∈ files w'.
Proof.
  pose proof (C8_cleanup_scope Example.studio Example.three_clips Example.default_options
                Example.fresh) as H.
  pose proof sample_run_completes as Hr.
  destruct (createCompilation _ _ _ _) as [r w']. simpl in Hr. subst r.
  cbv zeta in H. destruct H as (Hclips & _ & _ & Hout).
  rewrite sample_run_acquired in Hclips.
  destruct Hclips as [Hunlinked Hgone]; [done|].
  destruct (Hout _ eq_refl) as (Hvideo & (thumbnail & [= <-] & Hthumb) & Hmerged & _).
  cbv zeta. split_and!; [done| | |done|done|done].
  - apply Hgone; [|done]. apply list_elem_of_here.
  - apply Hgone; [|done]. apply list_elem_of_further, list_elem_of_here.
Defined.

(** A request with [outroPath] set and [addOutro] false: the job runs
    the outro step. *)
Lemma C10_witness :
  announced "Adding outro..."
    (new_calls Example.fresh
       (CompilationRoutes.process Example.studio
          (Example.job (Some false) (Some "outros/outro.mp4")) Example.fresh).2) = true.
Proof.
  pose proof (C10_outro_runs_iff_outroPath
                (Example.request (Some false) (Some "outros/outro.mp4")) 1700000000000
                (Example.job (Some false) (Some "outros/outro.mp4"))
                Example.studio Example.fresh eq_refl) as H.
  cbv zeta in H.
  assert (∃ res, (CompilationRoutes.process Example.studio
                    (Example.job (Some false) (Some "outros/outro.mp4")) Example.fresh).1
                 = Ok res) as [res Hres] by (eexists; by vm_compute).
  destruct (CompilationRoutes.process _ _ _) as [r w']. simpl in *.
  destruct H as (_ & _ & H & _). by apply (H res).
Defined.
End Instances.
